(** * Verification of the EBM histogram core

    A shallow embedding of
      - [shared/ebm_native/TreeSweep.hpp]          (module [TreeSweep]),
      - [shared/libebm/tests/libebm_test.cpp]      (modules [ApproxEqual]
                                                     and [TestHarness]),
      - [shared/ebm_native/BinInteraction.cpp]     (module [BinInteraction]),
      - [shared/libebm/InitializeGradientsAndHessians.cpp] (module [InitGrad]),
    together with the properties the specification states about them.

    Conventions.  A [size_t] is a [Z] in [0, 2^64) and every operation that
    can leave that range is wrapped explicitly.  Pointers into arrays are
    indices into lists.  A function that dereferences outside its arrays
    returns [None]; the functions of the test harness, which also end by
    [exit], return a [Run].  A [double] is a primitive binary64 float.

    Part I holds the definitions, Part II the lemmas and theorems. *)

From Stdlib Require Import ZArith Lia Bool List.
From Stdlib Require Import Floats.
From stdpp Require Import base list.

Local Open Scope Z_scope.

(* ===================================================================== *)
(** * Part I: definitions *)
(* ===================================================================== *)

(** ** Machine integers *)

Module SizeT.

(** Number of values of [size_t] on the 64-bit targets of the library. *)
Definition modulus : Z := 2 ^ 64.

Definition wrap (x : Z) : Z := x mod modulus.

Definition add (a b : Z) : Z := wrap (a + b).
Definition sub (a b : Z) : Z := wrap (a - b).
Definition mul (a b : Z) : Z := wrap (a * b).

Definition in_range (x : Z) : Prop := 0 <= x < modulus.

(** Modelled from the spec: [IsAddError] of [ebm_internal.hpp], which is not
    among the sources.  The specification only says that sizes are computed
    "with overflow checked"; the check on two unsigned operands is the
    wrapped sum falling below an operand. *)
Definition IsAddError (num1 num2 : Z) : bool := add num1 num2 <? num1.

End SizeT.


(** ** Floating point *)

(** The arithmetic the kernels use on a floating type: the constants [0] and
    [1], sum, difference, product and the comparison [<=].  [FloatFast] is a
    typedef of a header that is not among the sources, so the kernels are
    written over any type with these operations. *)
Class FloatOps (F : Type) := {
  fzero : F;
  fone : F;
  fadd : F -> F -> F;
  fsub : F -> F -> F;
  fmul : F -> F -> F;
  fle : F -> F -> bool
}.

(** IEEE binary64, the [double] of the sources. *)
#[export] Instance double_ops : FloatOps float := {|
  fzero := 0%float;
  fone := 1%float;
  fadd := PrimFloat.add;
  fsub := PrimFloat.sub;
  fmul := PrimFloat.mul;
  fle := PrimFloat.leb
|}.

(** The comparison of two doubles, [None] when one of them is a NaN. *)
Definition fcompare (x y : float) : option comparison :=
  SFcompare (Prim2SF x) (Prim2SF y).

(** *** Binary64 as mantissa and exponent

    The notions the facts about rounding are stated with, over the
    [spec_float] that [Prim2SF] maps a double to. *)

(** The double a conversion of the integer [z] gives: [z] rounded to
    nearest. *)
Definition IntegerAsDouble (z : Z) : spec_float :=
  binary_normalize prec emax z 0 false.

(** [x] is a double that is exactly the integer [n]: a normalised mantissa
    [m] of 53 bits and an exponent [e] with [m * 2^e = n]. *)
Definition ExactInteger (n : Z) (x : spec_float) : Prop :=
  exists (m : positive) (e : Z),
    x = S754_finite false m e /\ digits2_pos m = 53%positive
    /\ -52 <= e <= 0 /\ Z.pos m = n * 2 ^ (- e).

(** What [k] steps of [shr_1] leave of [u]: the quotient [q] by [2^k], the
    bit [r] below it, and in [s] whether the rest [t] is not zero. *)
Definition Shifted (u : Z) (P : Z) (q : Z) (r s : bool) : Prop :=
  exists t, 0 <= q /\ 0 <= t < P /\ u = (2 * q + Z.b2z r) * P + t
            /\ (s = true <-> 0 < t).

(** The mantissa after rounding to nearest, ties to even. *)
Definition RoundedUp (q : Z) (r s : bool) : Z :=
  round_nearest_even q (loc_of_shr_record {| shr_m := q; shr_r := r; shr_s := s |}).

(** The double nearest to [U * 2^-1074]. *)
Definition RoundUlps (U : Z) : spec_float :=
  binary_normalize prec emax U (-1074) false.

(** The double of mantissa [M] at exponent [e], or the infinity beyond the
    largest exponent; [Renormalised] brings a mantissa that rounding
    carried to [2^53] back to 53 bits. *)
Definition Packed (M e : Z) : spec_float :=
  if e <=? 971 then S754_finite false (Z.to_pos M) e else S754_infinity false.

Definition Renormalised (M e : Z) : spec_float :=
  if M <? 2 ^ 53 then Packed M e else Packed (2 ^ 52) (e + 1).

(** The double nearest to [U * 2^-2148], the unit of a product of two
    doubles. *)
Definition RoundFine (U : Z) : spec_float :=
  binary_normalize prec emax U (-2148) false.

(** The double of the rounded mantissa [M] at exponent [e], a zero when
    nothing is left of the mantissa. *)
Definition Rounded (M e : Z) : spec_float :=
  if M =? 0 then S754_zero false else Renormalised M e.

(** The value of a finite double that is not negative, counted in units of
    the least subnormal [2^-1074]. *)
Definition Ulps (x : spec_float) : Z :=
  match x with
  | S754_finite false m e => Z.pos m * 2 ^ (e + 1074)
  | _ => 0
  end.

(** A zero or a valid finite positive double. *)
Definition FiniteNonneg (x : spec_float) : Prop :=
  match x with
  | S754_zero _ => True
  | S754_finite false m e => bounded prec emax m e = true
  | _ => False
  end.

(** A valid double that is at least zero. *)
Definition Nonneg (x : spec_float) : Prop :=
  valid_binary x = true /\ SFleb (S754_zero false) x = true.

(** ** ebm_internal.hpp: class and dimension encodings *)

Module EbmInternal.

(** Modelled from the spec: the encodings of [ebm_internal.hpp], which is not
    among the sources.  The specification gives the compile-time class
    parameter as "regression, k_dynamicClassification, or integer 2..K_MAX",
    the dimension parameter as "2..D_MAX or k_dynamic", and the dynamic
    variants as the ones that "read bounds from arguments". *)
Definition k_regression : Z := -1.
Definition k_dynamicClassification : Z := 0.
Definition k_dynamicDimensions : Z := 0.

Definition IsRegression (cClasses : Z) : bool := k_regression =? cClasses.
Definition IsClassification (cClasses : Z) : bool := 0 <=? cClasses.

(** Modelled from the spec: "cScores = 1 for regression and binary
    classification (single logit convention), cScores = K for K-way
    multiclass". *)
Definition GetCountScores (cClasses : Z) : Z :=
  if cClasses <=? 2 then 1 else cClasses.

(** Modelled from the spec: the macros [GET_COUNT_CLASSES] and
    [GET_DIMENSIONS]; the dynamic variant reads the runtime value, a
    specialized variant its compile-time constant. *)
Definition GET_COUNT_CLASSES (cCompilerClasses cRuntimeClasses : Z) : Z :=
  if k_dynamicClassification =? cCompilerClasses
  then cRuntimeClasses else cCompilerClasses.

Definition GET_DIMENSIONS (cCompilerDimensions cRuntimeDimensions : Z) : Z :=
  if k_dynamicDimensions =? cCompilerDimensions
  then cRuntimeDimensions else cCompilerDimensions.

(** The two bounds of the compile-time ladders, [K_MAX] and [D_MAX] of the
    specification. *)
Class Ladder := {
  k_cCompilerClassesMax : Z;
  k_cCompilerOptimizedCountDimensionsMax : Z
}.

End EbmInternal.

(** ** TreeSweep.hpp *)

Module TreeSweep.

(** What the header takes from its environment: the byte sizes the compiler
    assigns to [TreeSweep<bClassification>] and to its last member
    [m_bestBinLeft], and [GetBinSize<FloatBig>], the per-bin byte size
    [cBytesPerBin] computed from [(bClassification, cScores)].  [Bin] is only
    forward declared in the header. *)
Class Layout := {
  sizeof_TreeSweep : bool -> Z;
  sizeof_m_bestBinLeft : bool -> Z;
  GetBinSize : bool -> Z -> Z
}.

(** The usual LP64 layout with [FloatBig = double]: a bin is a count, a
    weight and [cScores] gradient pairs; the record declares one pair inline. *)
Definition lp64 : Layout := {|
  sizeof_TreeSweep := fun b => if b then 40 else 32;
  sizeof_m_bestBinLeft := fun b => if b then 32 else 24;
  GetBinSize := fun b cScores => 16 + cScores * (if b then 16 else 8)
|}.

Section WithLayout.
Context {layout : Layout}.

Definition IsOverflowTreeSweepSize (bClassification : bool) (cScores : Z) : bool :=
  let cBytesPerBin := GetBinSize bClassification cScores in
  let cBytesTreeSweepComponent :=
    if bClassification
    then SizeT.sub (sizeof_TreeSweep true) (sizeof_m_bestBinLeft true)
    else SizeT.sub (sizeof_TreeSweep false) (sizeof_m_bestBinLeft false) in
  if SizeT.IsAddError cBytesTreeSweepComponent cBytesPerBin then true else false.

Definition GetTreeSweepSize (bClassification : bool) (cScores : Z) : Z :=
  let cBytesPerBin := GetBinSize bClassification cScores in
  let cBytesTreeSweepComponent :=
    if bClassification
    then SizeT.sub (sizeof_TreeSweep true) (sizeof_m_bestBinLeft true)
    else SizeT.sub (sizeof_TreeSweep false) (sizeof_m_bestBinLeft false) in
  SizeT.add cBytesTreeSweepComponent cBytesPerBin.

(** The header size in the specification's words: the size of the record
    minus the size of its trailing inline bin, as a plain integer. *)
Definition headerSize (bClassification : bool) : Z :=
  sizeof_TreeSweep bClassification - sizeof_m_bestBinLeft bClassification.

(** A layout a compiler can produce: the member lies inside the record and
    both sizes are values of [size_t]. *)
Definition layout_ok : Prop :=
  forall b, 0 <= sizeof_m_bestBinLeft b <= sizeof_TreeSweep b
            /\ sizeof_TreeSweep b < SizeT.modulus.

End WithLayout.

(** [AddBytesTreeSweep] and [CountTreeSweep] walk an array of records whose
    size is only known at run time.  A pointer is the address it holds, a
    count of bytes. *)
Definition AddBytesTreeSweep (pTreeSweep cBytesAdd : Z) : Z :=
  pTreeSweep + cBytesAdd.

(** The difference of the two pointers, converted to [size_t], divided by
    the size of a record; a division by zero is undefined. *)
Definition CountTreeSweep (pTreeSweepStart pTreeSweepCur cBytesPerTreeSweep : Z)
  : option Z :=
  let cBytesDiff := SizeT.wrap (pTreeSweepCur - pTreeSweepStart) in
  if cBytesPerTreeSweep =? 0 then None
  else Some (cBytesDiff / cBytesPerTreeSweep).

End TreeSweep.

(** ** libebm_test.cpp: IsApproxEqual *)

Module ApproxEqual.

(** [std::isnan] and [std::isinf] on a [double]. *)
Definition isnan (x : float) : bool := PrimFloat.is_nan x.
Definition isinf (x : float) : bool := PrimFloat.is_infinity x.

(** The comparison proper: the value [isEqual] has when the function reaches
    its last statement. *)
Definition isEqual (val expected percentage : float) : bool :=
  if negb (isnan val) then
    if negb (isnan expected) then
      if negb (isinf val) then
        if negb (isinf expected) then
          let smaller := PrimFloat.sub 1 percentage in
          let bigger := PrimFloat.add 1 percentage in
          if PrimFloat.ltb 0 val then
            if PrimFloat.ltb 0 expected then
              if PrimFloat.leb val expected then
                if PrimFloat.leb (PrimFloat.mul expected smaller) val
                   && PrimFloat.leb val (PrimFloat.mul expected bigger)
                then true else false
              else
                if PrimFloat.leb (PrimFloat.mul val smaller) expected
                   && PrimFloat.leb expected (PrimFloat.mul val bigger)
                then true else false
            else false
          else if PrimFloat.ltb val 0 then
            if PrimFloat.ltb expected 0 then
              if PrimFloat.leb expected val then
                if PrimFloat.leb (PrimFloat.mul expected bigger) val
                   && PrimFloat.leb val (PrimFloat.mul expected smaller)
                then true else false
              else
                if PrimFloat.leb (PrimFloat.mul val bigger) expected
                   && PrimFloat.leb expected (PrimFloat.mul val smaller)
                then true else false
            else false
          else
            if PrimFloat.eqb 0 expected then true else false
        else false
      else false
    else false
  else false.

(** [IsApproxEqual] with the file-level counter [g_countEqualityFailures]
    threaded through: the result and the counter afterwards. *)
Definition IsApproxEqual (val expected percentage : float)
  (g_countEqualityFailures : Z) : bool * Z :=
  let isEqual := isEqual val expected percentage in
  let g_countEqualityFailures :=
    if negb isEqual then g_countEqualityFailures + 1 else g_countEqualityFailures in
  (isEqual, g_countEqualityFailures).

End ApproxEqual.

(** ** BinInteraction.cpp *)

Module BinInteraction.
Import EbmInternal.

Section Kernel.
Context {FloatFast : Type} {ops : FloatOps FloatFast}.

(** The records of the headers the kernel reads and writes.  A gradient pair
    of the regression specialization has no Hessian member; here the member
    is there and the regression kernel never touches it. *)
Record GradientPair := {
  m_sumGradients : FloatFast;
  m_sumHessians : FloatFast
}.

Record Bin := {
  m_cSamples : Z;
  m_weight : FloatFast;
  m_aGradientPairs : list GradientPair
}.

(** A feature: its number of bins and the place of its column of bin indices
    in the data set. *)
Record Feature := {
  m_cBins : Z;
  m_iFeatureData : nat
}.

Record Term := {
  m_cDimensions : Z;
  m_cSignificantDimensions : Z;
  m_aTermEntries : list Feature
}.

Record DataSetInteraction := {
  m_cSamplesData : Z;
  m_aGradientsAndHessians : list FloatFast;
  m_aWeights : option (list FloatFast);
  m_aaInputData : list (list Z)
}.

Record InteractionCore := {
  m_cClasses : Z;
  m_dataSet : DataSetInteraction
}.

(** The shell owns the tensor of bins, in flat order, and points to the core. *)
Record InteractionShell := {
  m_pInteractionCore : InteractionCore;
  m_aBinsFast : list Bin
}.

(** Floats per score in the gradient buffer: [bClassification ? 2 : 1]. *)
Definition cFloatsPerScore (bClassification : bool) : nat :=
  if bClassification then 2%nat else 1%nat.

(** The [do ... while(iDimension < cDimensions)] loop of one sample.
    [entries] is what is left of [pTerm->GetTermEntries()] from [iDimension]
    on; the body runs once before the test, and a pass that finds no entry
    reads outside the term. *)
Fixpoint TensorIndexLoop (pDataSet : DataSetInteraction) (iSample : nat)
  (cDimensions : Z) (entries : list Feature)
  (cTensorBins iTensorBin iDimension : Z) : option Z :=
  match entries with
  | [] => None
  | pInputFeature :: entries =>
    let cBins := m_cBins pInputFeature in
    pInputData ← m_aaInputData pDataSet !! m_iFeatureData pInputFeature;
    iBinOriginal ← pInputData !! iSample;
    let iBin := iBinOriginal in
    let iTensorBin := SizeT.add iTensorBin (SizeT.mul cTensorBins iBin) in
    let cTensorBins := SizeT.mul cTensorBins cBins in
    let iDimension := iDimension + 1 in
    if iDimension <? cDimensions
    then TensorIndexLoop pDataSet iSample cDimensions entries
           cTensorBins iTensorBin iDimension
    else Some iTensorBin
  end.

(** The [for(iScore = 0; iScore < cScores; ++iScore)] loop; [n] is the number
    of passes left, [cScores - iScore].  Returns the gradient pairs of the
    bin and the advanced cursor into the gradient buffer. *)
Fixpoint ScoreLoop (bClassification : bool) (aGradientsAndHessians : list FloatFast)
  (weight : FloatFast) (n : nat) (iScore : nat) (pGradientAndHessian : nat)
  (pGradientPair : list GradientPair) : option (list GradientPair * nat) :=
  match n with
  | O => Some (pGradientPair, pGradientAndHessian)
  | S n =>
    gradient ← aGradientsAndHessians !! pGradientAndHessian;
    pair ← pGradientPair !! iScore;
    let pair := {| m_sumGradients := fadd (m_sumGradients pair) (fmul gradient weight);
                   m_sumHessians := m_sumHessians pair |} in
    pair ← (if bClassification then
              hessian ← aGradientsAndHessians !! (pGradientAndHessian + 1)%nat;
              let oldHessian := m_sumHessians pair in
              let newHessian := fadd oldHessian (fmul hessian weight) in
              Some {| m_sumGradients := m_sumGradients pair;
                      m_sumHessians := newHessian |}
            else Some pair);
    ScoreLoop bClassification aGradientsAndHessians weight n (S iScore)
      (pGradientAndHessian + cFloatsPerScore bClassification)%nat
      (<[iScore := pair]> pGradientPair)
  end.

(** The loop over samples, [for(iSample = 0; pGradientsAndHessiansEnd !=
    pGradientAndHessian; ++iSample)].  [n] bounds the passes still allowed;
    the cursor not meeting the end within them is a run off the buffer. *)
Fixpoint SampleLoop (bClassification : bool) (cScores : Z) (cDimensions : Z)
  (pDataSet : DataSetInteraction) (pTerm : Term)
  (pGradientsAndHessiansEnd : nat) (n : nat) (iSample : nat)
  (pGradientAndHessian : nat) (pWeight : option nat) (aBins : list Bin)
  : option (list Bin) :=
  if Nat.eqb pGradientsAndHessiansEnd pGradientAndHessian then Some aBins else
  match n with
  | O => None
  | S n =>
    iTensorBin ← TensorIndexLoop pDataSet iSample cDimensions
                   (m_aTermEntries pTerm) 1 0 0;
    pBin ← aBins !! Z.to_nat iTensorBin;
    let cSamples := SizeT.add (m_cSamples pBin) 1 in
    '(weight, pWeight) ←
      match pWeight with
      | None => Some (fone, None)
      | Some pw =>
        aWeights ← m_aWeights pDataSet;
        weight ← aWeights !! pw;
        Some (weight, Some (S pw))
      end;
    let weightBin := fadd (m_weight pBin) weight in
    '(pGradientPair, pGradientAndHessian) ←
      ScoreLoop bClassification (m_aGradientsAndHessians pDataSet) weight
        (Z.to_nat cScores) 0 pGradientAndHessian (m_aGradientPairs pBin);
    let pBin := {| m_cSamples := cSamples;
                   m_weight := weightBin;
                   m_aGradientPairs := pGradientPair |} in
    SampleLoop bClassification cScores cDimensions pDataSet pTerm
      pGradientsAndHessiansEnd n (S iSample) pGradientAndHessian pWeight
      (<[Z.to_nat iTensorBin := pBin]> aBins)
  end.

(** [BinSumsInteractionInternal<cCompilerClasses, cCompilerDimensions>::Func].
    The result is the shell afterwards; the [EBM_ASSERT]s are debug checks
    and are the hypotheses of the theorems instead. *)
Definition BinSumsInteractionInternal (cCompilerClasses cCompilerDimensions : Z)
  (pInteractionShell : InteractionShell) (pTerm : Term) : option InteractionShell :=
  let bClassification := IsClassification cCompilerClasses in
  let aBins := m_aBinsFast pInteractionShell in
  let pInteractionCore := m_pInteractionCore pInteractionShell in
  let cRuntimeClasses := m_cClasses pInteractionCore in
  let cClasses := GET_COUNT_CLASSES cCompilerClasses cRuntimeClasses in
  let cScores := GetCountScores cClasses in
  let pDataSet := m_dataSet pInteractionCore in
  let pGradientAndHessian := 0%nat in
  let pGradientsAndHessiansEnd :=
    (pGradientAndHessian
     + cFloatsPerScore bClassification * Z.to_nat cScores
       * Z.to_nat (m_cSamplesData pDataSet))%nat in
  let pWeight := (fun _ => 0%nat) <$> m_aWeights pDataSet in
  let cDimensions :=
    GET_DIMENSIONS cCompilerDimensions (m_cSignificantDimensions pTerm) in
  aBins ← SampleLoop bClassification cScores cDimensions pDataSet pTerm
            pGradientsAndHessiansEnd (Z.to_nat (m_cSamplesData pDataSet))
            0 pGradientAndHessian pWeight aBins;
  Some {| m_pInteractionCore := pInteractionCore; m_aBinsFast := aBins |}.

End Kernel.

Arguments GradientPair : clear implicits.
Arguments Bin : clear implicits.
Arguments DataSetInteraction : clear implicits.
Arguments InteractionCore : clear implicits.
Arguments InteractionShell : clear implicits.

(** *** The aggregation as the specification words it *)

Section Spec.
Context {FloatFast : Type} {ops : FloatOps FloatFast}.

(** "Index of a sample with feature bins (b0, ..., b_{D-1}):
    i = b0 + cBins[0] * (b1 + cBins[1] * (b2 + ...))". *)
Fixpoint FlatIndex (cBins b : list Z) : Z :=
  match cBins, b with
  | c :: cBins, b0 :: b => b0 + c * FlatIndex cBins b
  | _, _ => 0
  end.

(** The bin index of sample [iSample] in the column of a feature. *)
Definition SampleBin (pDataSet : DataSetInteraction FloatFast) (iSample : nat)
  (pFeature : Feature) : Z :=
  default 0 (m_aaInputData pDataSet !! m_iFeatureData pFeature
             ≫= fun column => column !! iSample).

Definition SampleIndex (pDataSet : DataSetInteraction FloatFast) (pTerm : Term)
  (iSample : nat) : Z :=
  FlatIndex (m_cBins <$> m_aTermEntries pTerm)
            (SampleBin pDataSet iSample <$> m_aTermEntries pTerm).

(** "w = weights[s] if weights present else 1". *)
Definition SampleWeight (pDataSet : DataSetInteraction FloatFast) (iSample : nat)
  : FloatFast :=
  match m_aWeights pDataSet with
  | Some aWeights => default fzero (aWeights !! iSample)
  | None => fone
  end.

(** [g[s,k]] and [h[s,k]]: the buffer holds [cScores] gradients per sample,
    each followed by its Hessian for classification. *)
Definition SampleGradient (bClassification : bool) (cScores : nat)
  (pDataSet : DataSetInteraction FloatFast) (iSample iScore : nat) : FloatFast :=
  default fzero (m_aGradientsAndHessians pDataSet
                 !! ((iSample * cScores + iScore) * cFloatsPerScore bClassification)%nat).

Definition SampleHessian (cScores : nat)
  (pDataSet : DataSetInteraction FloatFast) (iSample iScore : nat) : FloatFast :=
  default fzero (m_aGradientsAndHessians pDataSet
                 !! ((iSample * cScores + iScore) * 2 + 1)%nat).

(** "bin[i].g[k] += g[s,k] * w; if classification, bin[i].h[k] += h[s,k] * w". *)
Definition UpdatePair (bClassification : bool) (g h w : FloatFast)
  (pair : GradientPair FloatFast) : GradientPair FloatFast :=
  {| m_sumGradients := fadd (m_sumGradients pair) (fmul g w);
     m_sumHessians := if bClassification
                      then fadd (m_sumHessians pair) (fmul h w)
                      else m_sumHessians pair |}.

(** "bin[i].count += 1; bin[i].weight += w", and the scores. *)
Definition UpdateBin (bClassification : bool) (cScores : nat)
  (pDataSet : DataSetInteraction FloatFast) (iSample : nat)
  (bin : Bin FloatFast) : Bin FloatFast :=
  let w := SampleWeight pDataSet iSample in
  {| m_cSamples := SizeT.add (m_cSamples bin) 1;
     m_weight := fadd (m_weight bin) w;
     m_aGradientPairs :=
       imap (fun k => UpdatePair bClassification
                        (SampleGradient bClassification cScores pDataSet iSample k)
                        (SampleHessian cScores pDataSet iSample k) w)
            (m_aGradientPairs bin) |}.

(** One sample: exactly the bin at the sample's flat index is updated. *)
Definition SpecStep (bClassification : bool) (cScores : nat)
  (pDataSet : DataSetInteraction FloatFast) (pTerm : Term)
  (aBins : list (Bin FloatFast)) (iSample : nat) : list (Bin FloatFast) :=
  alter (UpdateBin bClassification cScores pDataSet iSample)
        (Z.to_nat (SampleIndex pDataSet pTerm iSample)) aBins.

(** All samples of the data set, in index order. *)
Definition SpecBinSums (bClassification : bool) (cScores : nat)
  (pDataSet : DataSetInteraction FloatFast) (pTerm : Term)
  (aBins : list (Bin FloatFast)) : list (Bin FloatFast) :=
  foldl (SpecStep bClassification cScores pDataSet pTerm) aBins
        (seq 0 (Z.to_nat (m_cSamplesData pDataSet))).

(** The number of bins of the tensor of a term, "the product of cBins[d]". *)
Definition TensorSize (pTerm : Term) : Z :=
  foldr Z.mul 1 (m_cBins <$> m_aTermEntries pTerm).

(** What the kernel asserts of, or takes for granted about, its arguments:
    the buffers have the sizes the counts announce, every feature of the
    term has at least two bins and a column of in-range bin indices, and the
    tensor has the shape of the term with [cScores] pairs in each bin. *)
Record WellFormed (bClassification : bool) (cScores cDimensions : Z)
  (pDataSet : DataSetInteraction FloatFast) (pTerm : Term)
  (aBins : list (Bin FloatFast)) : Prop := {
  wf_scores : 1 <= cScores;
  wf_samples : 0 <= m_cSamplesData pDataSet < SizeT.modulus;
  wf_gradients :
    length (m_aGradientsAndHessians pDataSet)
    = (cFloatsPerScore bClassification * Z.to_nat cScores
       * Z.to_nat (m_cSamplesData pDataSet))%nat;
  wf_weights : forall aWeights, m_aWeights pDataSet = Some aWeights ->
    length aWeights = Z.to_nat (m_cSamplesData pDataSet);
  wf_dimensions : 1 <= cDimensions
    /\ cDimensions = Z.of_nat (length (m_aTermEntries pTerm));
  wf_features : Forall (fun pFeature =>
      2 <= m_cBins pFeature
      /\ exists column,
           m_aaInputData pDataSet !! m_iFeatureData pFeature = Some column
           /\ length column = Z.to_nat (m_cSamplesData pDataSet)
           /\ Forall (fun iBin => 0 <= iBin < m_cBins pFeature) column)
    (m_aTermEntries pTerm);
  wf_tensor : Z.of_nat (length aBins) = TensorSize pTerm
              /\ TensorSize pTerm < SizeT.modulus;
  wf_pairs : Forall (fun bin =>
      length (m_aGradientPairs bin) = Z.to_nat cScores) aBins
}.

(** A feature whose column holds an in-range bin index for sample [iSample]. *)
Definition FeatureReadable (pDataSet : DataSetInteraction FloatFast)
  (iSample : nat) (pFeature : Feature) : Prop :=
  1 <= m_cBins pFeature
  /\ exists column iBin,
       m_aaInputData pDataSet !! m_iFeatureData pFeature = Some column
       /\ column !! iSample = Some iBin
       /\ 0 <= iBin < m_cBins pFeature.

End Spec.

(** *** Totals over the tensor *)

Section Totals.
Context {FloatFast : Type} {ops : FloatOps FloatFast}.

(** "Sum over all bins of count". *)
Definition SumCounts (aBins : list (Bin FloatFast)) : Z :=
  foldr Z.add 0 (m_cSamples <$> aBins).

(** A sum of floats, in list order, and the sum over all bins of weight. *)
Definition FloatSum (l : list FloatFast) : FloatFast := foldr fadd fzero l.

Definition SumWeights (aBins : list (Bin FloatFast)) : FloatFast :=
  FloatSum (m_weight <$> aBins).

(** [x] added [n] times to zero, in the arithmetic of the kernel; with
    [x = 1] the count [n] as the kernel's floats reach it. *)
Definition RepeatedSum (x : FloatFast) (n : nat) : FloatFast :=
  Nat.iter n (fun acc => fadd acc x) fzero.

Definition CountAsFloat (cSamples : Z) : FloatFast :=
  RepeatedSum fone (Z.to_nat cSamples).

(** A tensor "reset to zero before each aggregation". *)
Definition ZeroedTensor (aBins : list (Bin FloatFast)) : Prop :=
  Forall (fun bin =>
    m_cSamples bin = 0 /\ m_weight bin = fzero
    /\ Forall (fun pair => m_sumHessians pair = fzero) (m_aGradientPairs bin)) aBins.

(** Every Hessian of the buffer lies between zero and [hessianMax]
    ("Hessian in [0, 0.25]"). *)
Definition HessiansWithin (hessianMax : FloatFast) (cScores : nat)
  (pDataSet : DataSetInteraction FloatFast) : Prop :=
  forall iSample iScore : nat,
    (iSample < Z.to_nat (m_cSamplesData pDataSet))%nat -> (iScore < cScores)%nat ->
    fle fzero (SampleHessian cScores pDataSet iSample iScore) = true
    /\ fle (SampleHessian cScores pDataSet iSample iScore) hessianMax = true.

(** What the Hessian bound needs of the arithmetic: sums of values that are
    at least zero are monotone, and zero and one are neutral where the
    kernel uses them.  Binary64 with rounding to nearest has these
    properties ([double_monotone_sums]). *)
Record MonotoneSums : Prop := {
  ms_zero : fle fzero fzero = true;
  ms_add_zero : fadd fzero fzero = fzero;
  ms_mul_one : forall x, fle fzero x = true -> fmul x fone = x;
  ms_add_mono : forall a b c d,
    fle fzero a = true -> fle a b = true ->
    fle fzero c = true -> fle c d = true ->
    fle (fadd a c) (fadd b d) = true
}.

(** Every weight the kernel reads lies between zero and [weightMax]; without
    a weight array the weight of every sample is [1]. *)
Definition WeightsWithin (weightMax : FloatFast)
  (pDataSet : DataSetInteraction FloatFast) : Prop :=
  forall iSample : nat,
    (iSample < Z.to_nat (m_cSamplesData pDataSet))%nat ->
    fle fzero (SampleWeight pDataSet iSample) = true
    /\ fle (SampleWeight pDataSet iSample) weightMax = true.

(** What the Hessian bound needs of the products [hessian * weight]: below
    the bounds [hessianMax] and [weightMax] a product is at least zero and
    at most the product of the bounds.  Binary64 with rounding to nearest
    has these properties for finite bounds ([double_monotone_products]). *)
Record MonotoneProducts (hessianMax weightMax : FloatFast) : Prop := {
  mp_nonneg : forall h w,
    fle fzero h = true -> fle h hessianMax = true ->
    fle fzero w = true -> fle w weightMax = true ->
    fle fzero (fmul h w) = true;
  mp_bound : forall h w,
    fle fzero h = true -> fle h hessianMax = true ->
    fle fzero w = true -> fle w weightMax = true ->
    fle (fmul h w) (fmul hessianMax weightMax) = true
}.

(** Every Hessian sum of the tensor lies between zero and [bound] added up
    as many times as the bin counts samples. *)
Definition HessianSumsWithin (bound : FloatFast) (aBins : list (Bin FloatFast))
  : Prop :=
  Forall (fun bin =>
    Forall (fun pair =>
      fle fzero (m_sumHessians pair) = true
      /\ fle (m_sumHessians pair)
           (RepeatedSum bound (Z.to_nat (m_cSamples bin))) = true)
      (m_aGradientPairs bin))
    aBins.

End Totals.

Section Histogram.
Context {FloatFast : Type} {ops : FloatOps FloatFast}.

(** The samples of the data set whose bin indices lead to the bin at flat
    index [j], in index order. *)
Definition SamplesAt (pDataSet : DataSetInteraction FloatFast) (pTerm : Term)
  (j : nat) : list nat :=
  filter (fun iSample => Z.to_nat (SampleIndex pDataSet pTerm iSample) = j)
         (seq 0 (Z.to_nat (m_cSamplesData pDataSet))).

(** The Hessian sums of a tensor, bin by bin and score by score. *)
Definition HessianSums (aBins : list (Bin FloatFast)) : list (list FloatFast) :=
  (fun bin => m_sumHessians <$> m_aGradientPairs bin) <$> aBins.

(** A shell over the same tensor whose data set has the weight array
    [aWeights] (or none). *)
Definition WithWeights (aWeights : option (list FloatFast))
  (pInteractionShell : InteractionShell FloatFast) : InteractionShell FloatFast :=
  let pInteractionCore := m_pInteractionCore pInteractionShell in
  let pDataSet := m_dataSet pInteractionCore in
  {| m_pInteractionCore :=
       {| m_cClasses := m_cClasses pInteractionCore;
          m_dataSet :=
            {| m_cSamplesData := m_cSamplesData pDataSet;
               m_aGradientsAndHessians := m_aGradientsAndHessians pDataSet;
               m_aWeights := aWeights;
               m_aaInputData := m_aaInputData pDataSet |} |};
     m_aBinsFast := m_aBinsFast pInteractionShell |}.

End Histogram.

(** *** The dispatcher *)

Section Dispatch.
Context {ladder : Ladder}.
Context {R : Type}.

(** What a call of [BinSumsInteractionInternal<cCompilerClasses,
    cCompilerDimensions>::Func(pInteractionShell, pTerm)] stands for. *)
Variable Internal : Z -> Z -> R.
Variable cRuntimeClasses : Z.
Variable cRuntimeDimensions : Z.

(** [BinSumsInteractionDimensions<cCompilerClasses,
    cCompilerDimensionsPossible>::Func].  The templates recurse on
    [cCompilerDimensionsPossible + 1] up to the specialization at
    [k_cCompilerOptimizedCountDimensionsMax + 1]; [n] is the number of
    instantiations of the general template still ahead. *)
Fixpoint BinSumsInteractionDimensions (n : nat)
  (cCompilerClasses cCompilerDimensionsPossible : Z) : R :=
  match n with
  | O => Internal cCompilerClasses k_dynamicDimensions
  | S n =>
    if cCompilerDimensionsPossible =? cRuntimeDimensions
    then Internal cCompilerClasses cCompilerDimensionsPossible
    else BinSumsInteractionDimensions n cCompilerClasses
           (cCompilerDimensionsPossible + 1)
  end.

(** The dimension ladder as every caller enters it, at 2. *)
Definition DimensionLadder (cCompilerClasses : Z) : R :=
  BinSumsInteractionDimensions
    (Z.to_nat (k_cCompilerOptimizedCountDimensionsMax + 1 - 2))
    cCompilerClasses 2.

(** [BinSumsInteractionTarget<cPossibleClasses>::Func], with the
    specialization at [k_cCompilerClassesMax + 1]; [n] as above. *)
Fixpoint BinSumsInteractionTarget (n : nat) (cPossibleClasses : Z) : R :=
  match n with
  | O => DimensionLadder k_dynamicClassification
  | S n =>
    if cPossibleClasses =? cRuntimeClasses
    then DimensionLadder cPossibleClasses
    else BinSumsInteractionTarget n (cPossibleClasses + 1)
  end.

Definition BinSumsInteractionDispatch : R :=
  if IsClassification cRuntimeClasses
  then BinSumsInteractionTarget (Z.to_nat (k_cCompilerClassesMax + 1 - 2)) 2
  else DimensionLadder k_regression.

End Dispatch.

(** The compile-time parameters the specification's ladders select: "try
    C = 2, 3, ..., K_MAX; on first match, dispatch; otherwise fall to
    k_dynamicClassification", "for regression, enter the dimension ladder
    directly with C = regression", and "D = 2, 3, ..., D_MAX; on match, call
    the fully specialized kernel; otherwise fall to k_dynamicDimensions". *)
Definition LadderClasses {ladder : Ladder} (cRuntimeClasses : Z) : Z :=
  if IsClassification cRuntimeClasses
  then if (2 <=? cRuntimeClasses) && (cRuntimeClasses <=? k_cCompilerClassesMax)
       then cRuntimeClasses else k_dynamicClassification
  else k_regression.

Definition LadderDimensions {ladder : Ladder} (cRuntimeDimensions : Z) : Z :=
  if (2 <=? cRuntimeDimensions)
     && (cRuntimeDimensions <=? k_cCompilerOptimizedCountDimensionsMax)
  then cRuntimeDimensions else k_dynamicDimensions.

(** The generic kernel of an objective: dynamic classes for a
    classification, the regression kernel otherwise. *)
Definition GenericClasses (cClasses : Z) : Z :=
  if IsClassification cClasses then k_dynamicClassification else k_regression.

(** [BinSumsInteraction]: the dispatcher on the kernel itself. *)
Definition BinSumsInteraction {ladder : Ladder} {FloatFast : Type}
  {ops : FloatOps FloatFast}
  (pInteractionShell : InteractionShell FloatFast) (pTerm : Term)
  : option (InteractionShell FloatFast) :=
  let pInteractionCore := m_pInteractionCore pInteractionShell in
  let cRuntimeClasses := m_cClasses pInteractionCore in
  BinSumsInteractionDispatch
    (fun cCompilerClasses cCompilerDimensions =>
       BinSumsInteractionInternal cCompilerClasses cCompilerDimensions
         pInteractionShell pTerm)
    cRuntimeClasses (m_cSignificantDimensions pTerm).

End BinInteraction.

(** ** The literal scenarios of the specification *)

Module Scenarios.
Import EbmInternal BinInteraction.

Section Generic.
Context {FloatFast : Type} {ops : FloatOps FloatFast}.

Definition ZeroBin (cScores : nat) : Bin FloatFast :=
  {| m_cSamples := 0;
     m_weight := fzero;
     m_aGradientPairs :=
       replicate cScores {| m_sumGradients := fzero; m_sumHessians := fzero |} |}.

(** A shell over a zeroed tensor of [cBins] bins. *)
Definition MakeShell (cClasses : Z) (cSamples : Z) (aGradientsAndHessians : list FloatFast)
  (aWeights : option (list FloatFast)) (aaInputData : list (list Z))
  (cBins cScores : nat) : InteractionShell FloatFast :=
  {| m_pInteractionCore :=
       {| m_cClasses := cClasses;
          m_dataSet := {| m_cSamplesData := cSamples;
                          m_aGradientsAndHessians := aGradientsAndHessians;
                          m_aWeights := aWeights;
                          m_aaInputData := aaInputData |} |};
     m_aBinsFast := replicate cBins (ZeroBin cScores) |}.

End Generic.

(** One feature with three bins, and the pair of features A (two bins) and
    B (three bins). *)
Definition Term3 : Term :=
  {| m_cDimensions := 1; m_cSignificantDimensions := 1;
     m_aTermEntries := [ {| m_cBins := 3; m_iFeatureData := 0 |} ] |}.

Definition TermAB : Term :=
  {| m_cDimensions := 2; m_cSignificantDimensions := 2;
     m_aTermEntries := [ {| m_cBins := 2; m_iFeatureData := 0 |};
                         {| m_cBins := 3; m_iFeatureData := 1 |} ] |}.

(** S1: one sample at bin 1 whose gradient after initialization is [-3.0]. *)
Definition S1 : InteractionShell float :=
  MakeShell k_regression 1 [(-3)%float] None [[1]] 3 1.

(** S2: samples [(bin=0, w=2, g=1), (bin=0, w=3, g=-1)]. *)
Definition S2 : InteractionShell float :=
  MakeShell k_regression 2 [1%float; (-1)%float] (Some [2%float; 3%float]) [[0; 0]] 3 1.

(** S3: a sample with A=1, B=2. *)
Definition S3 : InteractionShell float :=
  MakeShell k_regression 1 [1%float] None [[1]; [2]] 6 1.

(** S4: binary log-loss, one positive sample at bin 0 with score 0. *)
Definition S4 : InteractionShell float :=
  MakeShell 2 1 [(-0.5)%float; 0.25%float] None [[0]] 3 1.

(** S4 with a weight of 2 on its sample. *)
Definition S4Weighted : InteractionShell float :=
  MakeShell 2 1 [(-0.5)%float; 0.25%float] (Some [2%float]) [[0]] 3 1.

(** Three unweighted samples at bins 0, 2 and 0. *)
Definition Unweighted : InteractionShell float :=
  MakeShell k_regression 3 [1%float; 2%float; 4%float] None [[0; 2; 0]] 3 1.

(** Three classes over A and B, two samples. *)
Definition ThreeClasses : InteractionShell float :=
  MakeShell 3 2
    [0.5%float; 0.25%float; (-0.25)%float; 0.125%float; (-0.25)%float; 0.125%float;
     (-0.5)%float; 0.25%float; 0.25%float; 0.125%float; 0.25%float; 0.125%float]
    None [[1; 0]; [2; 1]] 6 3.

(** Binary classification without weights: two samples at bin 0 with
    Hessians [0.25] and [0.125]. *)
Definition TwoBinary : InteractionShell float :=
  MakeShell 2 2 [(-0.5)%float; 0.25%float; 0.125%float; 0.125%float] None
    [[0; 0]] 3 1.

End Scenarios.

(** ** InitializeGradientsAndHessians.cpp *)

Module InitGrad.

(** [SafeConvertFloat<FloatFast>] on a [double] init score. *)
Class FromDouble (F : Type) := SafeConvertFloat : float -> F.

#[export] Instance double_from_double : FromDouble float := fun x => x.

Section Init.
Context {FloatFast : Type} {ops : FloatOps FloatFast} {conv : FromDouble FloatFast}.

(** Modelled from the spec: [EbmStats::ComputeGradientRegressionRmseInit] of
    [ebm_stats.hpp], which is not among the sources: "Gradient = initScore -
    target". *)
Definition ComputeGradientRegressionRmseInit (initScore target : FloatFast)
  : FloatFast :=
  fsub initScore target.

(** A subset of a data set, as both initializers use it: its count of
    samples, its gradient buffer and, for the interaction data set, its
    weights or a null pointer. *)
Record DataSubset := {
  m_cSamples : nat;
  m_aGradHess : list FloatFast;
  m_aWeights : option (list FloatFast)
}.

Record DataSet := {
  m_cSubsets : nat;
  m_aSubsets : list DataSubset
}.

(** The write cursor: the subset [pSubset] points to, [pGradientAndHessian]
    and [pGradientAndHessianEnd] as offsets into its buffer, and the subsets
    with what has been written so far. *)
Record Cursor := {
  pSubset : nat;
  pGradientAndHessian : nat;
  pGradientAndHessianEnd : nat;
  aSubsets : list DataSubset
}.

(** How a loop of the initializers ends: with the [return] of the function,
    or by falling out of the loop with its state. *)
Inductive Outcome (S : Type) : Type :=
| Returned (aSubsets : list DataSubset)
| Running (s : S).
Arguments Returned {S} aSubsets.
Arguments Running {S} s.

(** The two nested [do ... while] loops over the bag of the boosting
    initializer.  [bag] is what [pSampleReplication] points to; reading past
    its end yields [None].  Returns the replication found, the advanced
    [pSampleReplication], [pTargetData] and [cInitAdvances]. *)
Fixpoint ScanBagBoosting (isLoopValidation : bool) (bag : list Z)
  (pTargetData cInitAdvances : nat) : option (Z * list Z * nat * nat) :=
  match bag with
  | [] => None
  | replication :: bag =>
    let pTargetData := S pTargetData in
    if replication =? 0
    then ScanBagBoosting isLoopValidation bag pTargetData cInitAdvances
    else
      let isItemValidation := replication <? 0 in
      let cInitAdvances := S cInitAdvances in
      if negb (Bool.eqb isLoopValidation isItemValidation)
      then ScanBagBoosting isLoopValidation bag pTargetData cInitAdvances
      else Some (replication, bag, pTargetData, cInitAdvances)
  end.

(** The same loops in the interaction initializer, which go on
    [while(replication < BagEbm { 0 })]. *)
Fixpoint ScanBagInteraction (bag : list Z)
  (pTargetData cInitAdvances : nat) : option (Z * list Z * nat * nat) :=
  match bag with
  | [] => None
  | replication :: bag =>
    let pTargetData := S pTargetData in
    if replication =? 0
    then ScanBagInteraction bag pTargetData cInitAdvances
    else
      let cInitAdvances := S cInitAdvances in
      if replication <? 0
      then ScanBagInteraction bag pTargetData cInitAdvances
      else Some (replication, bag, pTargetData, cInitAdvances)
  end.

(** The body both write loops share: store the gradient, advance, and on
    reaching the end of the subset move to the next one or return.  The flag
    tells whether a new subset was entered. *)
Definition StoreGradient (pSubsetsEnd : nat) (gradient : FloatFast) (c : Cursor)
  : option (Outcome (Cursor * bool)) :=
  subset ← aSubsets c !! pSubset c;
  if decide (pGradientAndHessian c < length (m_aGradHess subset))%nat then
    let subset := {| m_cSamples := m_cSamples subset;
                     m_aGradHess := <[pGradientAndHessian c := gradient]>
                                      (m_aGradHess subset);
                     m_aWeights := m_aWeights subset |} in
    let aSubsets := <[pSubset c := subset]> (aSubsets c) in
    let pGradientAndHessian := S (pGradientAndHessian c) in
    if Nat.eqb (pGradientAndHessianEnd c) pGradientAndHessian then
      let pSubset := S (pSubset c) in
      if Nat.eqb pSubsetsEnd pSubset then Some (Returned aSubsets)
      else
        subset ← aSubsets !! pSubset;
        Some (Running ({| pSubset := pSubset;
                          pGradientAndHessian := 0;
                          pGradientAndHessianEnd := m_cSamples subset;
                          aSubsets := aSubsets |}, true))
    else
      Some (Running ({| pSubset := pSubset c;
                        pGradientAndHessian := pGradientAndHessian;
                        pGradientAndHessianEnd := pGradientAndHessianEnd c;
                        aSubsets := aSubsets |}, false))
  else None.

(** [do { ...; replication -= direction; } while(0 != replication)]; [fuel]
    bounds the passes. *)
Fixpoint WriteLoopBoosting (fuel : nat) (pSubsetsEnd : nat) (direction : Z)
  (gradient : FloatFast) (replication : Z) (c : Cursor)
  : option (Outcome Cursor) :=
  match fuel with
  | O => None
  | S fuel =>
    r ← StoreGradient pSubsetsEnd gradient c;
    match r with
    | Returned aSubsets => Some (Returned aSubsets)
    | Running (c, _) =>
      let replication := replication - direction in
      if replication =? 0 then Some (Running c)
      else WriteLoopBoosting fuel pSubsetsEnd direction gradient replication c
    end
  end.

(** [do { ...; pWeight = pSubset->GetWeights() on a new subset;
    --replication; } while(0 != replication)]. *)
Fixpoint WriteLoopInteraction (fuel : nat) (pSubsetsEnd : nat)
  (gradient : FloatFast) (replication : Z) (c : Cursor) (pWeight : option nat)
  : option (Outcome (Cursor * option nat)) :=
  match fuel with
  | O => None
  | S fuel =>
    r ← StoreGradient pSubsetsEnd gradient c;
    match r with
    | Returned aSubsets => Some (Returned aSubsets)
    | Running (c, entered) =>
      let pWeight :=
        if (entered : bool)
        then (fun _ => 0%nat) <$> (aSubsets c !! pSubset c ≫= m_aWeights)
        else pWeight in
      let replication := replication - 1 in
      if replication =? 0 then Some (Running (c, pWeight))
      else WriteLoopInteraction fuel pSubsetsEnd gradient replication c pWeight
    end
  end.

(** The [while(true)] loop of the boosting initializer. *)
Fixpoint OuterLoopBoosting (fuel : nat) (pSubsetsEnd : nat) (direction : Z)
  (aTargets : list FloatFast) (aInitScores : option (list float))
  (pSampleReplication : option (list Z)) (pTargetData pInitScore : nat)
  (c : Cursor) : option (list DataSubset) :=
  match fuel with
  | O => None
  | S fuel =>
    let isLoopValidation := direction <? 0 in
    let replication := 1 in
    let cInitAdvances := 1%nat in
    '(replication, pSampleReplication, pTargetData, cInitAdvances) ←
      match pSampleReplication with
      | Some bag =>
        '(replication, bag, pTargetData, cInitAdvances) ←
          ScanBagBoosting isLoopValidation bag pTargetData cInitAdvances;
        Some (replication, Some bag, Nat.pred pTargetData, Nat.pred cInitAdvances)
      | None => Some (replication, None, pTargetData, cInitAdvances)
      end;
    data ← aTargets !! pTargetData;
    let pTargetData := S pTargetData in
    '(initScore, pInitScore) ←
      match aInitScores with
      | Some aInitScores =>
        let pInitScore := (pInitScore + cInitAdvances)%nat in
        score ← aInitScores !! Nat.pred pInitScore;
        Some (SafeConvertFloat score, pInitScore)
      | None => Some (fzero, pInitScore)
      end;
    let gradient := ComputeGradientRegressionRmseInit initScore data in
    r ← WriteLoopBoosting (S fuel) pSubsetsEnd direction gradient replication c;
    match r with
    | Returned aSubsets => Some aSubsets
    | Running c =>
      OuterLoopBoosting fuel pSubsetsEnd direction aTargets aInitScores
        pSampleReplication pTargetData pInitScore c
    end
  end.

(** The [while(true)] loop of the interaction initializer. *)
Fixpoint OuterLoopInteraction (fuel : nat) (pSubsetsEnd : nat)
  (aTargets : list FloatFast) (aInitScores : option (list float))
  (pSampleReplication : option (list Z)) (pTargetData pInitScore : nat)
  (c : Cursor) (pWeight : option nat) : option (list DataSubset) :=
  match fuel with
  | O => None
  | S fuel =>
    let replication := 1 in
    let cInitAdvances := 1%nat in
    '(replication, pSampleReplication, pTargetData, cInitAdvances) ←
      match pSampleReplication with
      | Some bag =>
        '(replication, bag, pTargetData, cInitAdvances) ←
          ScanBagInteraction bag pTargetData cInitAdvances;
        Some (replication, Some bag, Nat.pred pTargetData, Nat.pred cInitAdvances)
      | None => Some (replication, None, pTargetData, cInitAdvances)
      end;
    data ← aTargets !! pTargetData;
    let pTargetData := S pTargetData in
    '(initScore, pInitScore) ←
      match aInitScores with
      | Some aInitScores =>
        let pInitScore := (pInitScore + cInitAdvances)%nat in
        score ← aInitScores !! Nat.pred pInitScore;
        Some (SafeConvertFloat score, pInitScore)
      | None => Some (fzero, pInitScore)
      end;
    let gradient := ComputeGradientRegressionRmseInit initScore data in
    '(gradient, pWeight) ←
      match pWeight with
      | Some pw =>
        weight ← (aSubsets c !! pSubset c ≫= m_aWeights) ≫= (.!! pw);
        Some (fmul gradient weight, Some (pw + Z.to_nat replication)%nat)
      | None => Some (gradient, None)
      end;
    r ← WriteLoopInteraction (S fuel) pSubsetsEnd gradient replication c pWeight;
    match r with
    | Returned aSubsets => Some aSubsets
    | Running (c, pWeight) =>
      OuterLoopInteraction fuel pSubsetsEnd aTargets aInitScores
        pSampleReplication pTargetData pInitScore c pWeight
    end
  end.

(** The number of gradient slots of a data set; no loop can store more often. *)
Definition Capacity (aSubsets : list DataSubset) : nat :=
  length (concat (m_aGradHess <$> aSubsets)).

(** [InitializeRmseGradientsAndHessiansBoosting].  [aTargets] is what
    [GetDataSetSharedTarget] returns for [pDataSetShared]; the result is the
    subsets of [pDataSet] afterwards. *)
Definition InitializeRmseGradientsAndHessiansBoosting
  (aTargets : list FloatFast) (direction : Z) (aBag : option (list Z))
  (aInitScores : option (list float)) (pDataSet : DataSet)
  : option (list DataSubset) :=
  let pSubset := 0%nat in
  let pSubsetsEnd := (pSubset + m_cSubsets pDataSet)%nat in
  let pSampleReplication := aBag in
  let pTargetData := 0%nat in
  let pInitScore := 0%nat in
  subset ← m_aSubsets pDataSet !! pSubset;
  let pGradientAndHessian := 0%nat in
  let pGradientAndHessianEnd := (pGradientAndHessian + m_cSamples subset)%nat in
  OuterLoopBoosting (Capacity (m_aSubsets pDataSet)) pSubsetsEnd direction
    aTargets aInitScores pSampleReplication pTargetData pInitScore
    {| pSubset := pSubset;
       pGradientAndHessian := pGradientAndHessian;
       pGradientAndHessianEnd := pGradientAndHessianEnd;
       aSubsets := m_aSubsets pDataSet |}.

(** [InitializeRmseGradientsAndHessiansInteraction]. *)
Definition InitializeRmseGradientsAndHessiansInteraction
  (aTargets : list FloatFast) (aBag : option (list Z))
  (aInitScores : option (list float)) (pDataSet : DataSet)
  : option (list DataSubset) :=
  let pSubset := 0%nat in
  let pSubsetsEnd := (pSubset + m_cSubsets pDataSet)%nat in
  let pSampleReplication := aBag in
  let pTargetData := 0%nat in
  let pInitScore := 0%nat in
  subset ← m_aSubsets pDataSet !! pSubset;
  let pGradientAndHessian := 0%nat in
  let pGradientAndHessianEnd := (pGradientAndHessian + m_cSamples subset)%nat in
  let pWeight := (fun _ => 0%nat) <$> m_aWeights subset in
  OuterLoopInteraction (Capacity (m_aSubsets pDataSet)) pSubsetsEnd
    aTargets aInitScores pSampleReplication pTargetData pInitScore
    {| pSubset := pSubset;
       pGradientAndHessian := pGradientAndHessian;
       pGradientAndHessianEnd := pGradientAndHessianEnd;
       aSubsets := m_aSubsets pDataSet |}
    pWeight.

End Init.

Arguments DataSubset : clear implicits.
Arguments DataSet : clear implicits.
Arguments Cursor : clear implicits.
Arguments Outcome : clear implicits.
Arguments Returned {FloatFast S} aSubsets.
Arguments Running {FloatFast S} s.

(** *** The initializers as the specification words them *)

Section InitSpec.
Context {FloatFast : Type} {ops : FloatOps FloatFast} {conv : FromDouble FloatFast}.

(** The samples a pass over the bag takes, in order, each with the index of
    its target, the index of its init score and its multiplicity
    [|replication|]: zero entries are skipped, an entry is taken when its
    sign is that of the pass, and init scores are laid out over the nonzero
    entries. *)
Fixpoint SelectedFrom (isLoopValidation : bool) (bag : list Z)
  (iTarget iInit : nat) : list (nat * nat * nat) :=
  match bag with
  | [] => []
  | replication :: bag =>
    if replication =? 0
    then SelectedFrom isLoopValidation bag (S iTarget) iInit
    else if Bool.eqb isLoopValidation (replication <? 0)
    then (iTarget, iInit, Z.abs_nat replication)
         :: SelectedFrom isLoopValidation bag (S iTarget) (S iInit)
    else SelectedFrom isLoopValidation bag (S iTarget) (S iInit)
  end.

(** What is still to be taken from a cursor into the bag; without a bag
    every sample counts once, as many as there is room for. *)
Definition RemainingSelected (isLoopValidation : bool)
  (pSampleReplication : option (list Z)) (iTarget iInit : nat) (cRoom : nat)
  : list (nat * nat * nat) :=
  match pSampleReplication with
  | Some bag => SelectedFrom isLoopValidation bag iTarget iInit
  | None => (fun d => (iTarget + d, iInit + d, 1))%nat <$> seq 0 cRoom
  end.

(** "Training uses positive, validation uses negative; zero entries are
    skipped": the entries of the bag whose sign is that of [direction], each
    with its index and magnitude. *)
Definition MatchingEntries (direction : Z) (bag : list Z) : list (nat * nat) :=
  omap (fun '(i, replication) =>
          if decide (0 < direction * replication)
          then Some (i, Z.abs_nat replication) else None)
       (imap pair bag).

(** The init score of a selected sample, zero without init scores. *)
Definition InitScoreAt (aInitScores : option (list float)) (iInit : nat)
  : FloatFast :=
  match aInitScores with
  | Some aInitScores => default fzero (SafeConvertFloat <$> aInitScores !! iInit)
  | None => fzero
  end.

(** "Gradient = initScore - target". *)
Definition GradientAt (aTargets : list FloatFast)
  (aInitScores : option (list float)) (iTarget iInit : nat) : FloatFast :=
  ComputeGradientRegressionRmseInit (InitScoreAt aInitScores iInit)
    (default fzero (aTargets !! iTarget)).

(** "The gradient is written |replication| times into contiguous gradient
    buffer positions": the gradients of a selection, in order. *)
Definition Emitted (aTargets : list FloatFast)
  (aInitScores : option (list float)) (selected : list (nat * nat * nat))
  : list FloatFast :=
  selected ≫= fun '(iTarget, iInit, cCopies) =>
    replicate cCopies (GradientAt aTargets aInitScores iTarget iInit).

(** The gradient buffers of the subsets end to end: "crossing subset
    boundaries as needed". *)
Definition Flat (aSubsets : list (DataSubset FloatFast)) : list FloatFast :=
  concat (m_aGradHess <$> aSubsets).

(** The targets and init scores a selection needs are there. *)
Definition SelectionReadable (aTargets : list FloatFast)
  (aInitScores : option (list float)) (selected : list (nat * nat * nat)) : Prop :=
  Forall (fun '(iTarget, iInit, cCopies) =>
            (iTarget < length aTargets)%nat
            /\ forall scores, aInitScores = Some scores ->
                 (iInit < length scores)%nat) selected.

(** The subsets as a data set holds them: as many as it counts, none empty,
    each buffer as long as the subset's count of samples. *)
Definition SubsetsWellFormed (pDataSet : DataSet FloatFast) : Prop :=
  (1 <= m_cSubsets pDataSet)%nat
  /\ m_cSubsets pDataSet = length (m_aSubsets pDataSet)
  /\ Forall (fun subset =>
       (1 <= m_cSamples subset)%nat
       /\ length (m_aGradHess subset) = m_cSamples subset
       /\ forall aWeights, m_aWeights subset = Some aWeights ->
            length aWeights = m_cSamples subset)
     (m_aSubsets pDataSet).

(** The state of a write cursor after [k] stores into the subsets
    [aSubsets0]: where it stands, and [written], the [k] gradients stored. *)
Record CursorInv (aSubsets0 : list (DataSubset FloatFast)) (pSubsetsEnd : nat)
  (c : Cursor FloatFast) (k : nat) (written : list FloatFast) : Prop := {
  inv_end : pSubsetsEnd = length aSubsets0;
  inv_sizes : m_cSamples <$> aSubsets c = m_cSamples <$> aSubsets0;
  inv_weights : m_aWeights <$> aSubsets c = m_aWeights <$> aSubsets0;
  inv_buffers : Forall (fun subset =>
                  (1 <= m_cSamples subset)%nat
                  /\ length (m_aGradHess subset) = m_cSamples subset)
                (aSubsets c);
  inv_subset : exists subset, aSubsets c !! pSubset c = Some subset
                 /\ pGradientAndHessianEnd c = m_cSamples subset;
  inv_offset : (pGradientAndHessian c < pGradientAndHessianEnd c)%nat;
  inv_capacity : length (Flat (aSubsets c)) = length (Flat aSubsets0);
  inv_position : k = (length (Flat (take (pSubset c) (aSubsets c)))
                      + pGradientAndHessian c)%nat;
  inv_written : take k (Flat (aSubsets c)) = written
}.


(** The weights of the subsets end to end, slot for slot with [Flat]; a
    subset without a weight array contributes no weight. *)
Definition FlatWeights (aSubsets : list (DataSubset FloatFast))
  : list (option FloatFast) :=
  concat ((fun subset =>
             match m_aWeights subset with
             | Some aWeights => Some <$> aWeights
             | None => replicate (m_cSamples subset) None
             end) <$> aSubsets).








(** What the subsets look like when the function returns: every slot
    written, the counts and the weights as they were. *)
Definition Finished (aSubsets0 aSubsets' : list (DataSubset FloatFast))
  (written : list FloatFast) : Prop :=
  Flat aSubsets' = written
  /\ length written = length (Flat aSubsets0)
  /\ m_cSamples <$> aSubsets' = m_cSamples <$> aSubsets0
  /\ m_aWeights <$> aSubsets' = m_aWeights <$> aSubsets0.

End InitSpec.


Section InitExtras.
Context {FloatFast : Type} {ops : FloatOps FloatFast} {conv : FromDouble FloatFast}.

(** No subset carries a weight array: the caller passed none. *)
Definition NoWeights (aSubsets : list (DataSubset FloatFast)) : Prop :=
  Forall (fun subset => m_aWeights subset = None) aSubsets.

End InitExtras.

End InitGrad.


(** *** The initializers on literal data *)

Module InitScenarios.
Import InitGrad.

(** Subsets of the given sizes with zeroed gradient buffers. *)
Definition MakeDataSet (sizes : list nat) (weights : list (option (list float)))
  : DataSet float :=
  {| m_cSubsets := length sizes;
     m_aSubsets :=
       zip_with (fun n w => {| m_cSamples := n;
                               m_aGradHess := replicate n 0%float;
                               m_aWeights := w |}) sizes weights |}.

Definition Targets : list float := [10; 20; 30; 40; 50]%float.

(** The bag of the specification's example. *)
Definition Bag : list Z := [1; -2; 0; 3; -1].

(** Four training slots in two subsets, three validation slots in one. *)
Definition TrainingSet : DataSet float := MakeDataSet [2; 2]%nat [None; None].
Definition ValidationSet : DataSet float := MakeDataSet [3]%nat [None].


Definition InitScores : list float := [1; 2; 3; 4]%float.

Definition OneSlot : DataSet float := MakeDataSet [1]%nat [None].
Definition TwoSlots : DataSet float := MakeDataSet [2]%nat [None].

(** A sample with two copies whose run straddles the end of a subset. *)
Definition StraddlingBag : list Z := [2; 1].
Definition StraddledSet : DataSet float :=
  MakeDataSet [1; 2]%nat [Some [2%float]; Some [2; 3]%float].

End InitScenarios.

(** ** libebm_test.cpp: the test harness *)

Module TestHarness.
Import EbmInternal.

(** How a function of the harness ends: by returning a value, by
    [exit(code)], or by indexing a vector outside its size, which is
    undefined behaviour. *)
Inductive Run (A : Type) : Type :=
| Done (a : A)
| Exit (code : Z)
| Undefined.
Arguments Done {A} a.
Arguments Exit {A} code.
Arguments Undefined {A}.

#[export] Instance Run_ret : MRet Run := @Done.
#[export] Instance Run_bind : MBind Run := fun A B f x =>
  match x with
  | Done a => f a
  | Exit code => Exit code
  | Undefined => Undefined
  end.

(** [v[i]] for a [std::vector] or an array of known size and an index of
    type [size_t]. *)
Definition At {A : Type} (v : list A) (i : Z) : Run A :=
  match v !! Z.to_nat i with
  | Some a => Done a
  | None => Undefined
  end.

(** The records of [libebm_test.hpp], which is not among the sources, with
    the members the functions of [libebm_test.cpp] read. *)
Record FeatureTest := {
  m_bMissing : bool;
  m_bUnknown : bool;
  m_bNominal : bool;
  m_countBins : Z
}.

Record TestSample := {
  m_sampleBinIndexes : list Z;
  m_target : float;
  m_bWeight : bool;
  m_weight : float;
  m_bScores : bool;
  m_initScores : list float;
  m_bBag : bool;
  m_bagCount : Z
}.

Record TestBoost := {
  m_cClasses : Z;
  m_features : list FeatureTest;
  m_termFeatures : list (list Z);
  m_iZeroClassificationLogit : Z
}.

(** Modelled from the spec: [OutputType_BinaryClassification] of [libebm.h],
    which is not among the sources; binary classification is the
    classification with two classes ("cScores = 1 for regression and binary
    classification"). *)
Definition OutputType_BinaryClassification : Z := 2.

(** The check both constructors start with. *)
Definition CheckZeroClassificationLogit (cClasses iZeroClassificationLogit : Z)
  : Run unit :=
  if IsClassification cClasses then
    if cClasses <=? iZeroClassificationLogit then Exit 1 else Done tt
  else
    if negb (-1 =? iZeroClassificationLogit) then Exit 1 else Done tt.

(** The number of bins of a feature of the term as the functions below read
    it, and the numbers of bins of all features of a term; [None] when an
    index names no feature. *)
Definition FeatureBins (features : list FeatureTest) (indexFeature : Z)
  : option Z :=
  (fun feature => SizeT.wrap (m_countBins feature))
  <$> features !! Z.to_nat (SizeT.wrap indexFeature).

Definition TermBins (features : list FeatureTest) (featureIndexes : list Z)
  : option (list Z) :=
  mapM (FeatureBins features) featureIndexes.

(** The loop of [TestBoost::GetTermScores] over the features of the term. *)
Fixpoint GetTermScoresLoop (features : list FeatureTest) (featureIndexes : list Z)
  (perDimensionIndexArrayForBinnedFeatures : list Z)
  (iDimension : nat) (iVal multiple : Z) : Run Z :=
  match featureIndexes with
  | [] => Done iVal
  | indexFeature :: featureIndexes =>
    let iFeature := SizeT.wrap indexFeature in
    feature ← At features iFeature;
    let cBins := SizeT.wrap (m_countBins feature) in
    index ← At perDimensionIndexArrayForBinnedFeatures (Z.of_nat iDimension);
    if cBins <=? index then Exit 1
    else
      let iVal := SizeT.add iVal (SizeT.mul index multiple) in
      let multiple := SizeT.mul multiple cBins in
      GetTermScoresLoop features featureIndexes
        perDimensionIndexArrayForBinnedFeatures (S iDimension) iVal multiple
  end.

(** [TestBoost::GetTermScores]; the pointer [&aTermScores[iVal]] it returns
    is the offset [iVal] into [aTermScores]. *)
Definition GetTermScores (this : TestBoost) (iTerm : Z)
  (perDimensionIndexArrayForBinnedFeatures : list Z) : Run Z :=
  let cScores := GetCountScores (m_cClasses this) in
  if Z.of_nat (length (m_termFeatures this)) <=? iTerm then Exit 1
  else
    featureIndexes ← At (m_termFeatures this) iTerm;
    let cDimensions := Z.of_nat (length perDimensionIndexArrayForBinnedFeatures) in
    if negb (cDimensions =? Z.of_nat (length featureIndexes)) then Exit 1
    else
      let iVal := 0 in
      let multiple := cScores in
      GetTermScoresLoop (m_features this) featureIndexes
        perDimensionIndexArrayForBinnedFeatures 0 iVal multiple.

(** [TestBoost::GetTermScore].  [bExpandBinaryLogits] tells whether the
    macro [EXPAND_BINARY_LOGITS] is defined. *)
Definition GetTermScore (bExpandBinaryLogits : bool) (this : TestBoost) (iTerm : Z)
  (aTermScores : list float) (perDimensionIndexArrayForBinnedFeatures : list Z)
  (iClassOrZero : Z) : Run float :=
  aScores ← GetTermScores this iTerm perDimensionIndexArrayForBinnedFeatures;
  let zero := m_iZeroClassificationLogit this in
  if negb (IsClassification (m_cClasses this)) then
    if negb (0 =? iClassOrZero) then Exit 1
    else At aTermScores (aScores + 0)
  else if SizeT.wrap (m_cClasses this) <=? iClassOrZero then Exit 1
  else if OutputType_BinaryClassification =? m_cClasses this then
    if bExpandBinaryLogits then
      if zero <? 0 then At aTermScores (aScores + iClassOrZero)
      else if SizeT.wrap zero =? iClassOrZero then Done 0%float
      else
        score ← At aTermScores (aScores + iClassOrZero);
        reference ← At aTermScores (aScores + zero);
        Done (score - reference)%float
    else
      if zero <? 0 then
        if 0 =? iClassOrZero then Done 0%float
        else At aTermScores (aScores + 0)
      else
        if SizeT.wrap zero =? iClassOrZero then Done 0%float
        else At aTermScores (aScores + 0)
  else
    if zero <? 0 then At aTermScores (aScores + iClassOrZero)
    else
      score ← At aTermScores (aScores + iClassOrZero);
      reference ← At aTermScores (aScores + zero);
      Done (score - reference)%float.

(** The loop of [GetBestTermScore] and [GetCurrentTermScore] that sizes the
    vector of term scores. *)
Fixpoint CountTermScoresLoop (features : list FeatureTest) (featureIndexes : list Z)
  (multiple : Z) : Run Z :=
  match featureIndexes with
  | [] => Done multiple
  | indexFeature :: featureIndexes =>
    let iFeature := SizeT.wrap indexFeature in
    feature ← At features iFeature;
    let cBins := SizeT.wrap (m_countBins feature) in
    CountTermScoresLoop features featureIndexes (SizeT.mul multiple cBins)
  end.

Section Library.

(** What the functions take from the library: [Error_None], and a call of
    [GetBestTermScores] or [GetCurrentTermScores] on the booster, which
    returns an error code and leaves its scores in the buffer it is given. *)
Variable Error_None : Z.
Variable LibraryTermScores : Z -> list float -> Z * list float.

(** [TestBoost::GetBestTermScore] and [TestBoost::GetCurrentTermScore],
    which differ in the library function they call.  [&termScores[0]] on an
    empty vector is an index outside its size. *)
Definition GetLibraryTermScore (bExpandBinaryLogits : bool) (this : TestBoost)
  (iTerm : Z) (indexes : list Z) (iScore : Z) : Run float :=
  if Z.of_nat (length (m_termFeatures this)) <=? iTerm then Exit 1
  else
    let multiple := GetCountScores (m_cClasses this) in
    featureIndexes ← At (m_termFeatures this) iTerm;
    multiple ← CountTermScoresLoop (m_features this) featureIndexes multiple;
    let termScores := replicate (Z.to_nat multiple) 0%float in
    _ ← At termScores 0;
    let '(error, termScores) := LibraryTermScores iTerm termScores in
    if negb (Error_None =? error) then Exit 1
    else GetTermScore bExpandBinaryLogits this iTerm termScores indexes iScore.

End Library.

(** [0 == v.size() ? nullptr : &v[0]], the way the constructors pass a
    vector to the library. *)
Definition AddressOrNull {A : Type} (v : list A) : option (list A) :=
  if 0 =? Z.of_nat (length v) then None else Some v.

(** The bag the constructor of [TestBoost] passes to [CreateBooster]: a
    training sample counts once and a validation sample minus once, unless
    the sample brings its own count. *)
Definition TestBoostBag (train validation : list TestSample) : list Z :=
  ((fun sample => if m_bBag sample then m_bagCount sample else 1) <$> train)
  ++ ((fun sample => if m_bBag sample then m_bagCount sample else -1)
      <$> validation).

(** The bag the constructor of [TestInteraction] passes to
    [CreateInteractionDetector]. *)
Definition TestInteractionBag (samples : list TestSample) : list Z :=
  (fun sample => if m_bBag sample then m_bagCount sample else 1) <$> samples.

(** The regression targets both constructors hand to
    [FillRegressionTarget]. *)
Definition RegressionTargets (train validation : list TestSample) : list float :=
  (m_target <$> train) ++ (m_target <$> validation).

(** [bInitScores], the disjunction over the samples. *)
Definition HasInitScores (samples : list TestSample) : bool :=
  foldl (fun bInitScores sample => bInitScores || m_bScores sample) false samples.

(** The loop over the logits of one sample with init scores, for a
    classification. *)
Fixpoint LogitsLoop (bExpandBinaryLogits : bool) (cClasses zero : Z)
  (sampleInitScores : list float) (logits : list float) (iLogit : Z)
  (initScores : list float) : Run (list float) :=
  match logits with
  | [] => Done initScores
  | oneLogit :: logits =>
    if ApproxEqual.isnan oneLogit then Exit 1
    else if ApproxEqual.isinf oneLogit then Exit 1
    else
      initScores ←
        (if OutputType_BinaryClassification =? cClasses then
           if bExpandBinaryLogits then
             if zero <? 0 then Done (initScores ++ [oneLogit])
             else
               reference ← At sampleInitScores zero;
               Done (initScores ++ [(oneLogit - reference)%float])
           else
             if zero <? 0 then
               if negb (0 =? iLogit) then
                 reference ← At sampleInitScores 0;
                 Done (initScores ++ [(oneLogit - reference)%float])
               else Done initScores
             else
               if negb (zero =? iLogit) then
                 reference ← At sampleInitScores zero;
                 Done (initScores ++ [(oneLogit - reference)%float])
               else Done initScores
         else
           if zero <? 0 then Done (initScores ++ [oneLogit])
           else
             reference ← At sampleInitScores zero;
             Done (initScores ++ [(oneLogit - reference)%float]));
      LogitsLoop bExpandBinaryLogits cClasses zero sampleInitScores logits
        (iLogit + 1) initScores
  end.

(** The loop over the samples that fills [initScores] for a
    classification. *)
Fixpoint ClassificationScoresLoop (bExpandBinaryLogits : bool)
  (cClasses zero : Z) (samples : list TestSample) (initScores : list float)
  : Run (list float) :=
  match samples with
  | [] => Done initScores
  | sample :: samples =>
    initScores ←
      (if m_bScores sample then
         if negb (SizeT.wrap cClasses =? Z.of_nat (length (m_initScores sample)))
         then Exit 1
         else LogitsLoop bExpandBinaryLogits cClasses zero (m_initScores sample)
                (m_initScores sample) 0 initScores
       else
         let cScores := GetCountScores cClasses in
         Done (initScores ++ replicate (Z.to_nat cScores) 0%float));
    ClassificationScoresLoop bExpandBinaryLogits cClasses zero samples initScores
  end.

(** The loop over the samples for a regression, which reads the first init
    score of every sample. *)
Fixpoint RegressionScoresLoop (samples : list TestSample)
  (initScores : list float) : Run (list float) :=
  match samples with
  | [] => Done initScores
  | sample :: samples =>
    score ← At (m_initScores sample) 0;
    if ApproxEqual.isnan score then Exit 1
    else if ApproxEqual.isinf score then Exit 1
    else RegressionScoresLoop samples (initScores ++ [score])
  end.

(** The init scores the constructor of [TestBoost] passes to
    [CreateBooster]: a null pointer when no sample has any, and
    [&initScores[0]] otherwise. *)
Definition TestBoostInitScores (bExpandBinaryLogits : bool) (cClasses zero : Z)
  (train validation : list TestSample) : Run (option (list float)) :=
  let bInitScores := HasInitScores (train ++ validation) in
  if bInitScores then
    initScores ←
      (if IsClassification cClasses then
         initScores ← ClassificationScoresLoop bExpandBinaryLogits cClasses zero
                        train [];
         ClassificationScoresLoop bExpandBinaryLogits cClasses zero validation
           initScores
       else
         initScores ← RegressionScoresLoop train [];
         RegressionScoresLoop validation initScores);
    _ ← At initScores 0;
    Done (Some initScores)
  else Done None.

(** The regression targets and the init scores the constructor of
    [TestInteraction] builds, with the same loops over its one list of
    samples. *)
Definition InteractionRegressionTargets (samples : list TestSample)
  : list float :=
  m_target <$> samples.

Definition TestInteractionInitScores (bExpandBinaryLogits : bool)
  (cClasses zero : Z) (samples : list TestSample)
  : Run (option (list float)) :=
  let bInitScores := HasInitScores samples in
  initScores ←
    (if bInitScores then
       if IsClassification cClasses then
         ClassificationScoresLoop bExpandBinaryLogits cClasses zero samples []
       else RegressionScoresLoop samples []
     else Done []);
  Done (AddressOrNull initScores).

End TestHarness.

(** *** The harness on literal data *)

Module HarnessScenarios.
Import TestHarness.

Definition BinnedFeature (countBins : Z) : FeatureTest :=
  {| m_bMissing := false; m_bUnknown := false; m_bNominal := false;
     m_countBins := countBins |}.

(** Three classes over a feature of two bins and one of three, with a term
    for the first feature and a term for the pair; class 1 is the zeroed
    logit. *)
Definition ThreeClassBooster : TestBoost :=
  {| m_cClasses := 3;
     m_features := [BinnedFeature 2; BinnedFeature 3];
     m_termFeatures := [[0]; [0; 1]];
     m_iZeroClassificationLogit := 1 |}.

(** A sample with a target and, when the list is not empty, init scores;
    it has no weight and no bag count of its own. *)
Definition Sample (target : float) (initScores : list float) : TestSample :=
  {| m_sampleBinIndexes := [0; 0];
     m_target := target;
     m_bWeight := false;
     m_weight := 1%float;
     m_bScores := match initScores with [] => false | _ => true end;
     m_initScores := initScores;
     m_bBag := false;
     m_bagCount := 0 |}.

Definition Train : list TestSample := [Sample 10 [1%float]; Sample 20 [2%float]].
Definition Validation : list TestSample := [Sample 30 [4%float]].

Definition ClassTrain : list TestSample := [Sample 0 [1; 2; 4]%float].
Definition ClassValidation : list TestSample := [Sample 2 []].

(** The scores of the second term of [ThreeClassBooster]: six cells of three
    scores, the last cell holding 3, 5 and 8. *)
Definition TermScores : list float :=
  replicate 15 1%float ++ [3; 5; 8]%float.

(** A sample that brings its own bag count. *)
Definition Counted (bagCount : Z) (sample : TestSample) : TestSample :=
  {| m_sampleBinIndexes := m_sampleBinIndexes sample;
     m_target := m_target sample;
     m_bWeight := m_bWeight sample;
     m_weight := m_weight sample;
     m_bScores := m_bScores sample;
     m_initScores := m_initScores sample;
     m_bBag := true;
     m_bagCount := bagCount |}.

(** Two samples for the interaction detector, the second counting twice,
    and a data set of three slots in two subsets. *)
Definition InteractionSamples : list TestSample :=
  [Sample 10 [1%float]; Counted 2 (Sample 20 [2%float])].

Definition ThreeSlots : InitGrad.DataSet float :=
  InitScenarios.MakeDataSet [2; 1]%nat [None; None].

(** A library call that reports success, coded 0, and leaves the buffer as
    it finds it. *)
Definition IdleLibrary (iTerm : Z) (buffer : list float) : Z * list float :=
  (0, buffer).

End HarnessScenarios.

(* ===================================================================== *)
(** * Part II: lemmas and theorems *)
(* ===================================================================== *)

(** ** Machine integers *)

Lemma modulus_pos : 0 < SizeT.modulus.
Proof. reflexivity. Qed.

Lemma wrap_in_range x : SizeT.in_range (SizeT.wrap x).
Proof. unfold SizeT.in_range, SizeT.wrap. apply Z.mod_pos_bound, modulus_pos. Qed.

Lemma wrap_small x : SizeT.in_range x -> SizeT.wrap x = x.
Proof. unfold SizeT.in_range, SizeT.wrap. intros H. now apply Z.mod_small. Qed.

Lemma add_exact a b : SizeT.in_range (a + b) -> SizeT.add a b = a + b.
Proof. apply wrap_small. Qed.

Lemma mul_exact a b : SizeT.in_range (a * b) -> SizeT.mul a b = a * b.
Proof. apply wrap_small. Qed.

Lemma sub_exact a b : SizeT.in_range (a - b) -> SizeT.sub a b = a - b.
Proof. apply wrap_small. Qed.

(** The wrapped sum falls below the first operand exactly when the true sum
    does not fit. *)
Lemma IsAddError_overflow a b :
  SizeT.in_range a -> SizeT.in_range b ->
  SizeT.IsAddError a b = true <-> SizeT.modulus <= a + b.
Proof.
  unfold SizeT.IsAddError, SizeT.add, SizeT.wrap, SizeT.in_range. intros Ha Hb.
  rewrite Z.ltb_lt. pose proof modulus_pos as Hm.
  destruct (Z_lt_ge_dec (a + b) SizeT.modulus) as [Hlt | Hge].
  - rewrite Z.mod_small by lia. lia.
  - assert (E : (a + b) mod SizeT.modulus = a + b - SizeT.modulus).
    { symmetry. apply Z.mod_unique with (q := 1); lia. }
    rewrite E. lia.
Qed.

(** ** TreeSweep.hpp *)

Section TreeSweepFacts.
Context {layout : TreeSweep.Layout}.
Import TreeSweep.

Lemma component_is_header (b : bool) :
  layout_ok ->
  (if b
   then SizeT.sub (sizeof_TreeSweep true) (sizeof_m_bestBinLeft true)
   else SizeT.sub (sizeof_TreeSweep false) (sizeof_m_bestBinLeft false))
  = headerSize b.
Proof.
  intros Hok. unfold headerSize.
  destruct b; apply sub_exact; destruct (Hok true), (Hok false);
    unfold SizeT.in_range; lia.
Qed.

Lemma header_in_range (b : bool) : layout_ok -> SizeT.in_range (headerSize b).
Proof.
  intros Hok. destruct (Hok b). unfold headerSize, SizeT.in_range. lia.
Qed.

(** C9.  For every classification flag and score count, [GetTreeSweepSize]
    is the header size (the record without its trailing inline bin) plus
    [cBytesPerBin] in [size_t] arithmetic, [IsOverflowTreeSweepSize] is true
    exactly when that sum does not fit a [size_t], and whenever it is false
    the returned size is the exact sum. *)
Theorem C9_tree_sweep_size (bClassification : bool) (cScores : Z) :
  layout_ok ->
  SizeT.in_range (GetBinSize bClassification cScores) ->
  GetTreeSweepSize bClassification cScores
    = SizeT.wrap (headerSize bClassification + GetBinSize bClassification cScores)
  /\ (IsOverflowTreeSweepSize bClassification cScores = true
      <-> SizeT.modulus <= headerSize bClassification + GetBinSize bClassification cScores)
  /\ (IsOverflowTreeSweepSize bClassification cScores = false
      -> GetTreeSweepSize bClassification cScores
         = headerSize bClassification + GetBinSize bClassification cScores).
Proof.
  intros Hok Hbin.
  unfold GetTreeSweepSize, IsOverflowTreeSweepSize.
  rewrite (component_is_header bClassification Hok).
  pose proof (header_in_range bClassification Hok) as Hh.
  pose proof (IsAddError_overflow _ _ Hh Hbin) as Hov.
  split; [reflexivity | split].
  - destruct (SizeT.IsAddError _ _); [tauto | ].
    split; [discriminate | ]. intros H. apply Hov in H. discriminate.
  - destruct (SizeT.IsAddError _ _) eqn:E; [discriminate | ].
    intros _. apply add_exact.
    unfold SizeT.in_range in *.
    assert (~ SizeT.modulus <= headerSize bClassification
                                + GetBinSize bClassification cScores).
    { intros H. apply Hov in H. discriminate. }
    lia.
Qed.

End TreeSweepFacts.

Lemma lp64_layout_ok : @TreeSweep.layout_ok TreeSweep.lp64.
Proof. intros b. destruct b; cbn; unfold SizeT.modulus; lia. Qed.

Lemma C9_tree_sweep_size_witness :
  @TreeSweep.GetTreeSweepSize TreeSweep.lp64 true 3 = 72
  /\ @TreeSweep.IsOverflowTreeSweepSize TreeSweep.lp64 true 3 = false.
Proof.
  pose proof (@C9_tree_sweep_size TreeSweep.lp64 true 3 lp64_layout_ok) as H.
  destruct H as (Hsize & _ & _).
  - cbn. unfold SizeT.in_range, SizeT.modulus. lia.
  - split; [ rewrite Hsize | ]; reflexivity.
Defined.

(** ** TreeSweep.hpp: walking the array of records *)

Lemma AddBytesTreeSweep_iter (pTreeSweep cBytesPerTreeSweep : Z) (i : nat) :
  Nat.iter i (fun p => TreeSweep.AddBytesTreeSweep p cBytesPerTreeSweep) pTreeSweep
  = pTreeSweep + Z.of_nat i * cBytesPerTreeSweep.
Proof.
  induction i as [| i IH]; [cbn; lia |].
  rewrite Nat.iter_succ, IH. unfold TreeSweep.AddBytesTreeSweep. lia.
Qed.

(** X7.  Counting undoes advancing: the record reached by advancing [i]
    times by the size of a record from the start of the array is counted as
    record [i], as long as the array fits [size_t]; and a pointer the
    asserts of [CountTreeSweep] accept (not before the start, a whole number
    of records after it) is reached again by advancing as often as
    [CountTreeSweep] says. *)
Theorem X7_count_undoes_advance (pTreeSweepStart cBytesPerTreeSweep : Z) (i : nat) :
  0 < cBytesPerTreeSweep ->
  Z.of_nat i * cBytesPerTreeSweep < SizeT.modulus ->
  TreeSweep.CountTreeSweep pTreeSweepStart
    (Nat.iter i (fun p => TreeSweep.AddBytesTreeSweep p cBytesPerTreeSweep)
       pTreeSweepStart)
    cBytesPerTreeSweep
  = Some (Z.of_nat i)
  /\ forall pTreeSweepCur : Z,
       pTreeSweepStart <= pTreeSweepCur ->
       pTreeSweepCur - pTreeSweepStart < SizeT.modulus ->
       (pTreeSweepCur - pTreeSweepStart) mod cBytesPerTreeSweep = 0 ->
       exists n : Z,
         TreeSweep.CountTreeSweep pTreeSweepStart pTreeSweepCur cBytesPerTreeSweep
         = Some n
         /\ 0 <= n
         /\ Nat.iter (Z.to_nat n)
              (fun p => TreeSweep.AddBytesTreeSweep p cBytesPerTreeSweep)
              pTreeSweepStart
            = pTreeSweepCur.
Proof.
  intros Hsize Hfit. split.
  - rewrite AddBytesTreeSweep_iter. unfold TreeSweep.CountTreeSweep.
    replace (cBytesPerTreeSweep =? 0) with false by (symmetry; apply Z.eqb_neq; lia).
    f_equal.
    replace (pTreeSweepStart + Z.of_nat i * cBytesPerTreeSweep - pTreeSweepStart)
      with (Z.of_nat i * cBytesPerTreeSweep) by lia.
    unfold SizeT.wrap. rewrite Z.mod_small by nia.
    apply Z.div_mul. lia.
  - intros pTreeSweepCur Hle Hlt Hmod.
    exists ((pTreeSweepCur - pTreeSweepStart) / cBytesPerTreeSweep).
    unfold TreeSweep.CountTreeSweep.
    replace (cBytesPerTreeSweep =? 0) with false by (symmetry; apply Z.eqb_neq; lia).
    unfold SizeT.wrap. rewrite Z.mod_small by lia.
    split; [reflexivity |].
    assert (Hn : 0 <= (pTreeSweepCur - pTreeSweepStart) / cBytesPerTreeSweep)
      by (apply Z.div_pos; lia).
    split; [exact Hn |].
    rewrite AddBytesTreeSweep_iter, Z2Nat.id by exact Hn.
    pose proof (Z.div_mod (pTreeSweepCur - pTreeSweepStart) cBytesPerTreeSweep
                  ltac:(lia)) as Hdm.
    rewrite Hmod in Hdm. lia.
Qed.

Lemma X7_count_undoes_advance_witness :
  TreeSweep.CountTreeSweep 4096
    (TreeSweep.AddBytesTreeSweep
       (TreeSweep.AddBytesTreeSweep (TreeSweep.AddBytesTreeSweep 4096 40) 40) 40)
    40
  = Some 3.
Proof.
  exact (proj1 (X7_count_undoes_advance 4096 40 3 ltac:(lia)
                  ltac:(unfold SizeT.modulus; lia))).
Defined.

(** ** libebm_test.cpp: IsApproxEqual *)

(** The order of binary64 values, read off [SFcompare]. *)

Lemma SFcompare_swap (x y : spec_float) :
  SFcompare y x = option_map CompOpp (SFcompare x y).
Proof.
  destruct x as [sx | sx | | sx mx ex], y as [sy | sy | | sy my ey]; cbn;
    try reflexivity;
    try (destruct sx; reflexivity);
    try (destruct sy; reflexivity);
    try (destruct sx, sy; reflexivity).
  f_equal. rewrite (Z.compare_antisym ex ey).
  pose proof (Pos.compare_cont_antisym mx my Eq) as Hm. cbn in Hm.
  destruct sx, sy; cbn; try reflexivity;
    destruct (ex ?= ey); cbn; try reflexivity;
    rewrite <- Hm; try reflexivity.
Qed.

Lemma SFcompare_defined (x y : spec_float) :
  x <> S754_nan -> y <> S754_nan -> exists c, SFcompare x y = Some c.
Proof.
  intros Hx Hy.
  destruct x as [sx | sx | | sx mx ex], y as [sy | sy | | sy my ey];
    try congruence; cbn; eauto.
Qed.

Lemma SFcompare_Eq (x y : spec_float) :
  SFcompare x y = Some Eq ->
  x = y \/ (exists sx sy, x = S754_zero sx /\ y = S754_zero sy).
Proof.
  destruct x as [sx | sx | | sx mx ex], y as [sy | sy | | sy my ey];
    try destruct sx; try destruct sy; cbn; intros H;
    try discriminate; eauto.
  all: destruct (ex ?= ey) eqn:E; try discriminate;
    apply Z.compare_eq in E; subst ey;
    left; f_equal; apply Pos.compare_eq; unfold Pos.compare.
  all: injection H as H;
    destruct (PosDef.Pos.compare_cont Eq mx my) eqn:E';
      try discriminate; reflexivity.
Qed.

Lemma ltb_fcompare x y :
  PrimFloat.ltb x y = match fcompare x y with Some Lt => true | _ => false end.
Proof. apply FloatAxioms.ltb_spec. Qed.

Lemma leb_fcompare x y :
  PrimFloat.leb x y
  = match fcompare x y with Some (Lt | Eq) => true | _ => false end.
Proof. apply FloatAxioms.leb_spec. Qed.

Lemma eqb_fcompare x y :
  PrimFloat.eqb x y = match fcompare x y with Some Eq => true | _ => false end.
Proof. apply FloatAxioms.eqb_spec. Qed.

Lemma fcompare_swap x y : fcompare y x = option_map CompOpp (fcompare x y).
Proof. apply SFcompare_swap. Qed.

Lemma is_nan_Prim2SF x : PrimFloat.is_nan x = false <-> Prim2SF x <> S754_nan.
Proof.
  unfold PrimFloat.is_nan. rewrite FloatAxioms.eqb_spec. unfold SFeqb.
  destruct (Prim2SF x) as [s | s | | s m e]; cbn.
  - split; [discriminate | reflexivity].
  - destruct s; cbn; (split; [discriminate | reflexivity]).
  - split; [discriminate | congruence].
  - assert (E : (e ?= e) = Eq) by apply Z.compare_refl.
    assert (E' : Pos.compare_cont Eq m m = Eq) by apply Pos.compare_refl.
    destruct s; rewrite E, E'; cbn; (split; [discriminate | reflexivity]).
Qed.

Lemma fcompare_defined x y :
  PrimFloat.is_nan x = false -> PrimFloat.is_nan y = false ->
  exists c, fcompare x y = Some c.
Proof.
  intros Hx Hy. apply SFcompare_defined; now apply is_nan_Prim2SF.
Qed.

Lemma Prim2SF_zero : Prim2SF 0 = S754_zero false.
Proof. reflexivity. Qed.

(** Two doubles that compare equal and are not zeros are the same double. *)
Lemma fcompare_Eq_nonzero x y c :
  fcompare x y = Some Eq -> fcompare 0 x = Some c -> c <> Eq -> x = y.
Proof.
  unfold fcompare. rewrite Prim2SF_zero. intros Hxy Hx Hc.
  apply Prim2SF_inj. apply SFcompare_Eq in Hxy as [E | (sx & sy & Ex & Ey)]; auto.
  rewrite Ex in Hx. cbn in Hx. congruence.
Qed.

Lemma isEqual_symmetric (val expected percentage : float) :
  ApproxEqual.isEqual val expected percentage
  = ApproxEqual.isEqual expected val percentage.
Proof.
  unfold ApproxEqual.isEqual, ApproxEqual.isnan, ApproxEqual.isinf.
  destruct (PrimFloat.is_nan val) eqn:Nv, (PrimFloat.is_nan expected) eqn:Ne,
    (PrimFloat.is_infinity val) eqn:Iv, (PrimFloat.is_infinity expected) eqn:Ie;
    cbn [negb]; try reflexivity.
  destruct (fcompare_defined val expected Nv Ne) as [c Hc].
  destruct (fcompare_defined 0 val eq_refl Nv) as [c1 H1].
  destruct (fcompare_defined 0 expected eq_refl Ne) as [c2 H2].
  pose proof (fcompare_swap val expected) as Hc'. rewrite Hc in Hc'.
  pose proof (fcompare_swap 0 val) as H1'. rewrite H1 in H1'.
  pose proof (fcompare_swap 0 expected) as H2'. rewrite H2 in H2'.
  rewrite (ltb_fcompare 0 val), (ltb_fcompare 0 expected),
    (ltb_fcompare val 0), (ltb_fcompare expected 0),
    (leb_fcompare val expected), (leb_fcompare expected val),
    (eqb_fcompare 0 val), (eqb_fcompare 0 expected).
  rewrite Hc, Hc', H1, H1', H2, H2'.
  destruct c1, c2, c; cbn [option_map CompOpp]; try reflexivity.
  - assert (val = expected) as ->
      by (apply (fcompare_Eq_nonzero _ _ Lt Hc H1); discriminate).
    reflexivity.
  - assert (val = expected) as ->
      by (apply (fcompare_Eq_nonzero _ _ Gt Hc H1); discriminate).
    reflexivity.
Qed.

(** C10.  [IsApproxEqual] returns the same verdict when its first two
    arguments are exchanged, for every percentage (in particular for
    [0 <= p < 1]), and its verdict is [false] as soon as one of the two is a
    NaN or an infinity; so a NaN is approximately equal to nothing, not even
    to itself. *)
Theorem C10_IsApproxEqual_symmetric (val expected percentage : float) (g : Z) :
  fst (ApproxEqual.IsApproxEqual val expected percentage g)
  = fst (ApproxEqual.IsApproxEqual expected val percentage g)
  /\ (ApproxEqual.isnan val || ApproxEqual.isinf val
      || ApproxEqual.isnan expected || ApproxEqual.isinf expected = true
      -> fst (ApproxEqual.IsApproxEqual val expected percentage g) = false)
  /\ fst (ApproxEqual.IsApproxEqual PrimFloat.nan PrimFloat.nan percentage g) = false.
Proof.
  unfold ApproxEqual.IsApproxEqual. cbn [fst].
  split; [apply isEqual_symmetric | split].
  - unfold ApproxEqual.isEqual.
    destruct (ApproxEqual.isnan val), (ApproxEqual.isinf val),
      (ApproxEqual.isnan expected), (ApproxEqual.isinf expected);
      cbn; intros H; try reflexivity; discriminate.
  - reflexivity.
Qed.

(** The comparison on a few doubles: one per cent apart, two per cent apart,
    the two zeros, and the failure counter. *)
Example IsApproxEqual_samples :
  ApproxEqual.IsApproxEqual 100 101 0.015625 0 = (true, 0)
  /\ ApproxEqual.IsApproxEqual 100 103 0.015625 0 = (false, 1)
  /\ ApproxEqual.IsApproxEqual 0 (-0) 0.015625 7 = (true, 7)
  /\ ApproxEqual.IsApproxEqual (-2) (-2) 0 0 = (true, 0)
  /\ ApproxEqual.IsApproxEqual PrimFloat.infinity PrimFloat.infinity 0.5 0 = (false, 1).
Proof. repeat split; reflexivity. Qed.

(** ** BinInteraction.cpp: the kernel refines the specification's aggregation *)

Section KernelFacts.
Context {FloatFast : Type} {ops : FloatOps FloatFast}.
Import EbmInternal BinInteraction.

Lemma insert_as_alter {A} (f : A -> A) (l : list A) (i : nat) (x : A) :
  l !! i = Some x -> <[i := f x]> l = alter f i l.
Proof.
  revert i. induction l as [| y l IH]; intros [| i] H; try discriminate.
  - injection H as ->. reflexivity.
  - cbn. f_equal. apply IH. exact H.
Qed.

Lemma TensorSize_cons_pos (cs : list Z) :
  Forall (fun c => 1 <= c) cs -> 1 <= foldr Z.mul 1 cs.
Proof.
  induction 1 as [| c cs Hc _ IH]; cbn; [lia | nia].
Qed.

Lemma FlatIndex_bounds (cs bs : list Z) :
  Forall2 (fun c b => 0 <= b < c) cs bs ->
  0 <= FlatIndex cs bs < foldr Z.mul 1 cs.
Proof.
  induction 1 as [| c b cs bs Hb _ IH]; cbn; [lia |].
  assert (0 <= c * FlatIndex cs bs) by nia.
  assert (c * (FlatIndex cs bs + 1) <= c * foldr Z.mul 1 cs) by nia.
  lia.
Qed.

Lemma FeatureReadable_SampleBin (pDataSet : DataSetInteraction FloatFast)
  iSample pFeature :
  FeatureReadable pDataSet iSample pFeature ->
  0 <= SampleBin pDataSet iSample pFeature < m_cBins pFeature.
Proof.
  intros (_ & column & iBin & Hc & Hb & Hr).
  unfold SampleBin. rewrite Hc. cbn. rewrite Hb. exact Hr.
Qed.

Lemma FeatureReadable_bins (pDataSet : DataSetInteraction FloatFast)
  iSample (entries : list Feature) :
  Forall (FeatureReadable pDataSet iSample) entries ->
  Forall2 (fun c b => 0 <= b < c) (m_cBins <$> entries)
          (SampleBin pDataSet iSample <$> entries).
Proof.
  induction 1 as [| f entries Hf _ IH]; cbn; constructor; auto.
  now apply FeatureReadable_SampleBin.
Qed.

Lemma FeatureReadable_sizes (pDataSet : DataSetInteraction FloatFast)
  iSample (entries : list Feature) :
  Forall (FeatureReadable pDataSet iSample) entries ->
  Forall (fun c => 1 <= c) (m_cBins <$> entries).
Proof.
  induction 1 as [| f entries Hf _ IH]; cbn; constructor; auto.
  apply Hf.
Qed.

(** The dimension loop computes the flat index without wrapping, as long as
    the strides it runs through stay below the size of the tensor. *)
Lemma TensorIndexLoop_FlatIndex (pDataSet : DataSetInteraction FloatFast)
  iSample cDimensions
  (entries : list Feature) (cTensorBins iTensorBin iDimension : Z) :
  entries <> [] ->
  Forall (FeatureReadable pDataSet iSample) entries ->
  cDimensions = iDimension + Z.of_nat (length entries) ->
  0 <= iTensorBin < cTensorBins ->
  cTensorBins * foldr Z.mul 1 (m_cBins <$> entries) < SizeT.modulus ->
  TensorIndexLoop pDataSet iSample cDimensions entries
    cTensorBins iTensorBin iDimension
  = Some (iTensorBin
          + cTensorBins * FlatIndex (m_cBins <$> entries)
                            (SampleBin pDataSet iSample <$> entries)).
Proof.
  revert cTensorBins iTensorBin iDimension.
  induction entries as [| f entries IH]; intros cT iT iD Hne Hall Hdim HiT Hprod;
    [congruence |].
  apply Forall_cons in Hall as [Hf Hall].
  pose proof (FeatureReadable_SampleBin _ _ _ Hf) as Hbin.
  pose proof (TensorSize_cons_pos _ (FeatureReadable_sizes _ _ _ Hall)) as Hpos.
  destruct Hf as (Hc1 & column & iBin & Hcol & Hb & Hr).
  assert (Hsb : SampleBin pDataSet iSample f = iBin)
    by (unfold SampleBin; rewrite Hcol; cbn; now rewrite Hb).
  cbn [TensorIndexLoop fmap list_fmap FlatIndex foldr] in *.
  rewrite Hcol. cbn. rewrite Hb. cbn.
  rewrite Hsb in *.
  set (c := m_cBins f) in *.
  set (P := foldr Z.mul 1 (m_cBins <$> entries)) in *.
  assert (B1 : 0 <= cT * iBin) by nia.
  assert (B2 : cT * iBin + cT <= cT * c) by nia.
  assert (B3 : cT * c <= cT * c * P) by nia.
  assert (B4 : cT * c * P = cT * (c * P)) by ring.
  assert (Hmul : SizeT.mul cT iBin = cT * iBin)
    by (apply mul_exact; unfold SizeT.in_range; lia).
  assert (Hmul' : SizeT.mul cT c = cT * c)
    by (apply mul_exact; unfold SizeT.in_range; lia).
  assert (Hadd : SizeT.add iT (cT * iBin) = iT + cT * iBin)
    by (apply add_exact; unfold SizeT.in_range; lia).
  rewrite Hmul, Hmul', Hadd.
  destruct entries as [| f' entries].
  - cbn in *. replace (iD + 1 <? cDimensions) with false
      by (symmetry; apply Z.ltb_ge; lia).
    f_equal. ring.
  - replace (iD + 1 <? cDimensions) with true
      by (symmetry; apply Z.ltb_lt; cbn [length] in Hdim; lia).
    rewrite IH; try easy.
    + f_equal. cbn [fmap list_fmap]. ring.
    + cbn [length] in *. lia.
    + lia.
    + fold P. lia.
Qed.

(** The score loop updates the pairs from [iScore] on, each from its own
    slot of the gradient buffer. *)
Lemma ScoreLoop_imap (bClassification : bool) (aGH : list FloatFast)
  (weight : FloatFast) (n iScore pGradientAndHessian : nat)
  (pGradientPair : list (GradientPair FloatFast)) :
  length pGradientPair = (iScore + n)%nat ->
  (pGradientAndHessian + n * cFloatsPerScore bClassification <= length aGH)%nat ->
  ScoreLoop bClassification aGH weight n iScore pGradientAndHessian pGradientPair
  = Some (take iScore pGradientPair
          ++ imap (fun k =>
               UpdatePair bClassification
                 (default fzero
                    (aGH !! (pGradientAndHessian
                             + k * cFloatsPerScore bClassification)%nat))
                 (default fzero
                    (aGH !! (pGradientAndHessian + k * 2 + 1)%nat))
                 weight)
               (drop iScore pGradientPair),
          (pGradientAndHessian + n * cFloatsPerScore bClassification)%nat).
Proof.
  revert iScore pGradientAndHessian pGradientPair.
  induction n as [| n IH]; intros i p pairs Hlen Hbuf.
  - cbn. rewrite drop_ge by lia. rewrite take_ge by lia. cbn.
    rewrite app_nil_r. do 2 f_equal. lia.
  - cbn [ScoreLoop].
    assert (Hstride : (1 <= cFloatsPerScore bClassification)%nat)
      by (destruct bClassification; cbn; lia).
    destruct (lookup_lt_is_Some_2 aGH p) as [g Hg]; [lia |].
    destruct (lookup_lt_is_Some_2 pairs i) as [pair Hpair]; [lia |].
    rewrite Hg, Hpair. cbn [mbind option_bind].
    assert (Hh : (if bClassification
             then aGH !! (p + 1)%nat ≫= fun hessian =>
                  Some {| m_sumGradients := fadd (m_sumGradients pair) (fmul g weight);
                          m_sumHessians := fadd (m_sumHessians pair) (fmul hessian weight) |}
             else Some {| m_sumGradients := fadd (m_sumGradients pair) (fmul g weight);
                          m_sumHessians := m_sumHessians pair |})
            = Some (UpdatePair bClassification g
                      (default fzero (aGH !! (p + 1)%nat)) weight pair)).
    { destruct bClassification; [| reflexivity].
      destruct (lookup_lt_is_Some_2 aGH (p + 1)) as [h Hh]; [cbn in Hbuf; lia |].
      rewrite Hh. reflexivity. }
    cbn [m_sumGradients m_sumHessians]. rewrite Hh. cbn [mbind option_bind].
    rewrite IH.
    + f_equal. f_equal; [| lia].
      rewrite (drop_S pairs pair i Hpair). rewrite imap_cons.
      rewrite (take_S_r (<[i:=_]> pairs) i
                 (UpdatePair bClassification g (default fzero (aGH !! (p + 1)%nat))
                    weight pair))
        by (apply list_lookup_insert_eq; lia).
      rewrite take_insert_ge by lia.
      rewrite drop_insert_lt by lia.
      rewrite <- app_assoc. cbn [app]. f_equal. f_equal.
      * rewrite Nat.add_0_r, Hg. replace (p + 0 * 2 + 1)%nat with (p + 1)%nat by lia.
        reflexivity.
      * apply imap_ext. intros k x _. cbn [compose].
        unfold UpdatePair. destruct bClassification; cbn [cFloatsPerScore].
        -- replace (p + 2 + k * 2)%nat with (p + S k * 2)%nat by lia. reflexivity.
        -- replace (p + 1 + k * 1)%nat with (p + S k * 1)%nat by lia. reflexivity.
    + rewrite length_insert. lia.
    + lia.
Qed.

Lemma WellFormed_readable bClassification cScores cDimensions
  (pDataSet : DataSetInteraction FloatFast) pTerm aBins (iSample : nat) :
  WellFormed bClassification cScores cDimensions pDataSet pTerm aBins ->
  (iSample < Z.to_nat (m_cSamplesData pDataSet))%nat ->
  Forall (FeatureReadable pDataSet iSample) (m_aTermEntries pTerm).
Proof.
  intros Hwf Hs. eapply Forall_impl; [apply (wf_features _ _ _ _ _ _ Hwf) |].
  intros f (Hc & column & Hcol & Hlen & Hrange). split; [lia |].
  destruct (lookup_lt_is_Some_2 column iSample) as [iBin Hb]; [lia |].
  exists column, iBin. repeat split; auto;
    apply (Forall_lookup_1 _ _ _ _ Hrange Hb).
Qed.

Lemma WellFormed_SampleIndex bClassification cScores cDimensions
  (pDataSet : DataSetInteraction FloatFast) pTerm aBins (iSample : nat) :
  WellFormed bClassification cScores cDimensions pDataSet pTerm aBins ->
  (iSample < Z.to_nat (m_cSamplesData pDataSet))%nat ->
  0 <= SampleIndex pDataSet pTerm iSample < TensorSize pTerm.
Proof.
  intros Hwf Hs. apply FlatIndex_bounds, FeatureReadable_bins.
  eapply WellFormed_readable; eauto.
Qed.

Lemma UpdateBin_pairs_length bClassification cScores
  (pDataSet : DataSetInteraction FloatFast) iSample bin :
  length (m_aGradientPairs (UpdateBin bClassification cScores pDataSet iSample bin))
  = length (m_aGradientPairs bin).
Proof. cbn. apply length_imap. Qed.

(** The shape of the tensor survives a sample. *)
Lemma WellFormed_SpecStep bClassification cScores cDimensions
  (pDataSet : DataSetInteraction FloatFast) pTerm aBins (iSample : nat) :
  WellFormed bClassification cScores cDimensions pDataSet pTerm aBins ->
  WellFormed bClassification cScores cDimensions pDataSet pTerm
    (SpecStep bClassification (Z.to_nat cScores) pDataSet pTerm aBins iSample).
Proof.
  intros [H1 H2 H3 H4 H5 H6 H7 H8]. split; auto.
  - unfold SpecStep. now rewrite length_alter.
  - unfold SpecStep. apply Forall_alter; auto.
    intros bin Hbin. now rewrite UpdateBin_pairs_length.
Qed.

(** The loop over samples is the fold of [SpecStep] over the samples left. *)
Lemma SampleLoop_SpecStep bClassification cScores cDimensions
  (pDataSet : DataSetInteraction FloatFast) pTerm
  (pGradientsAndHessiansEnd n iSample pGradientAndHessian : nat)
  (aBins : list (Bin FloatFast)) :
  WellFormed bClassification cScores cDimensions pDataSet pTerm aBins ->
  (iSample + n = Z.to_nat (m_cSamplesData pDataSet))%nat ->
  pGradientsAndHessiansEnd
  = (cFloatsPerScore bClassification * Z.to_nat cScores
     * Z.to_nat (m_cSamplesData pDataSet))%nat ->
  pGradientAndHessian
  = (iSample * Z.to_nat cScores * cFloatsPerScore bClassification)%nat ->
  SampleLoop bClassification cScores cDimensions pDataSet pTerm
    pGradientsAndHessiansEnd n iSample pGradientAndHessian
    ((fun _ => iSample) <$> m_aWeights pDataSet) aBins
  = Some (foldl (SpecStep bClassification (Z.to_nat cScores) pDataSet pTerm)
            aBins (seq iSample n)).
Proof.
  revert iSample pGradientAndHessian aBins.
  induction n as [| n IH]; intros s p aBins Hwf Hn HpEnd Hp.
  - cbn. replace (pGradientsAndHessiansEnd =? p)%nat with true; [reflexivity |].
    symmetry. apply Nat.eqb_eq. subst. replace s with (Z.to_nat (m_cSamplesData pDataSet)) by lia.
    lia.
  - pose proof (wf_scores _ _ _ _ _ _ Hwf) as Hsc.
    assert (Hstride : (1 <= cFloatsPerScore bClassification)%nat)
      by (destruct bClassification; cbn; lia).
    set (cs := Z.to_nat cScores) in *.
    set (st := cFloatsPerScore bClassification) in *.
    assert (Hcs : (1 <= cs)%nat) by (unfold cs; lia).
    cbn [SampleLoop seq foldl].
    replace (pGradientsAndHessiansEnd =? p)%nat with false.
    2:{ symmetry. apply Nat.eqb_neq. subst. nia. }
    assert (Hs : (s < Z.to_nat (m_cSamplesData pDataSet))%nat) by lia.
    pose proof (WellFormed_readable _ _ _ _ _ _ s Hwf Hs) as Hread.
    pose proof (WellFormed_SampleIndex _ _ _ _ _ _ s Hwf Hs) as Hidx.
    destruct (wf_dimensions _ _ _ _ _ _ Hwf) as [Hd1 Hd2].
    destruct (wf_tensor _ _ _ _ _ _ Hwf) as [Ht1 Ht2].
    rewrite (TensorIndexLoop_FlatIndex pDataSet s cDimensions).
    2:{ intros E. rewrite E in Hd2. cbn in Hd2. lia. }
    2:{ exact Hread. }
    2:{ lia. }
    2:{ lia. }
    2:{ fold (TensorSize pTerm). lia. }
    cbn [mbind option_bind].
    replace (0 + 1 * FlatIndex (m_cBins <$> m_aTermEntries pTerm)
                     (SampleBin pDataSet s <$> m_aTermEntries pTerm))
      with (SampleIndex pDataSet pTerm s) by (unfold SampleIndex; lia).
    set (i := Z.to_nat (SampleIndex pDataSet pTerm s)).
    destruct (lookup_lt_is_Some_2 aBins i) as [bin Hbin]; [unfold i; lia |].
    rewrite Hbin. cbn [mbind option_bind].
    assert (Hw : match (fun _ => s) <$> m_aWeights pDataSet with
                 | None => Some (fone, None)
                 | Some pw =>
                   m_aWeights pDataSet ≫= fun aWeights =>
                   aWeights !! pw ≫= fun weight => Some (weight, Some (S pw))
                 end
                 = Some (SampleWeight pDataSet s,
                         (fun _ => S s) <$> m_aWeights pDataSet)).
    { unfold SampleWeight.
      destruct (m_aWeights pDataSet) as [aWeights |] eqn:Ew; cbn; [| reflexivity].
      pose proof (wf_weights _ _ _ _ _ _ Hwf _ Ew) as Hlw.
      destruct (lookup_lt_is_Some_2 aWeights s) as [w Hws]; [lia |].
      rewrite Hws. reflexivity. }
    rewrite Hw. cbn [mbind option_bind].
    pose proof (Forall_lookup_1 _ _ _ _ (wf_pairs _ _ _ _ _ _ Hwf) Hbin) as Hpl.
    cbn beta in Hpl. fold cs in Hpl.
    rewrite ScoreLoop_imap.
    2:{ cbn. exact Hpl. }
    2:{ rewrite (wf_gradients _ _ _ _ _ _ Hwf). fold cs st. subst p. nia. }
    cbn [mbind option_bind]. rewrite take_0, drop_0. cbn [app].
    fold st.
    assert (Hstep : <[i := {| m_cSamples := SizeT.add (m_cSamples bin) 1;
                             m_weight := fadd (m_weight bin) (SampleWeight pDataSet s);
                             m_aGradientPairs :=
                               imap (fun k =>
                                  UpdatePair bClassification
                                    (default fzero (m_aGradientsAndHessians pDataSet
                                                    !! (p + k * st)%nat))
                                    (default fzero (m_aGradientsAndHessians pDataSet
                                                    !! (p + k * 2 + 1)%nat))
                                    (SampleWeight pDataSet s))
                                 (m_aGradientPairs bin) |}]> aBins
                    = SpecStep bClassification cs pDataSet pTerm aBins s).
    { unfold SpecStep. fold i. rewrite <- (insert_as_alter _ _ _ _ Hbin).
      f_equal. unfold UpdateBin. f_equal.
      apply imap_ext. intros k x _. unfold UpdatePair, SampleGradient, SampleHessian.
      fold st. subst p. unfold st.
      destruct bClassification; cbn [cFloatsPerScore].
      - replace (s * cs * 2 + k * 2)%nat with ((s * cs + k) * 2)%nat by lia.
        reflexivity.
      - replace (s * cs * 1 + k * 1)%nat with ((s * cs + k) * 1)%nat by lia.
        reflexivity. }
    rewrite Hstep.
    apply IH.
    + now apply WellFormed_SpecStep.
    + lia.
    + exact HpEnd.
    + subst p. fold cs st. lia.
Qed.

(** The kernel, whatever its compile-time parameters, computes the
    aggregation of the specification over the samples in index order. *)
Lemma BinSumsInteractionInternal_refines (cCompilerClasses cCompilerDimensions : Z)
  (pInteractionShell : InteractionShell FloatFast) (pTerm : Term) :
  let bClassification := IsClassification cCompilerClasses in
  let pInteractionCore := m_pInteractionCore pInteractionShell in
  let cScores := GetCountScores
                   (GET_COUNT_CLASSES cCompilerClasses (m_cClasses pInteractionCore)) in
  let cDimensions :=
    GET_DIMENSIONS cCompilerDimensions (m_cSignificantDimensions pTerm) in
  let pDataSet := m_dataSet pInteractionCore in
  WellFormed bClassification cScores cDimensions pDataSet pTerm
    (m_aBinsFast pInteractionShell) ->
  BinSumsInteractionInternal cCompilerClasses cCompilerDimensions
    pInteractionShell pTerm
  = Some {| m_pInteractionCore := pInteractionCore;
            m_aBinsFast := SpecBinSums bClassification (Z.to_nat cScores)
                             pDataSet pTerm (m_aBinsFast pInteractionShell) |}.
Proof.
  intros bC core cScores cDimensions pDataSet Hwf.
  unfold BinSumsInteractionInternal.
  fold core. fold bC. fold cScores. fold pDataSet. fold cDimensions.
  cbn zeta.
  rewrite (SampleLoop_SpecStep bC cScores cDimensions pDataSet pTerm); auto.
Qed.

Lemma SpecStep_lookup (bClassification : bool) (cScores : nat)
  (pDataSet : DataSetInteraction FloatFast) (pTerm : Term)
  (aBins : list (Bin FloatFast)) (iSample j : nat) :
  SpecStep bClassification cScores pDataSet pTerm aBins iSample !! j
  = if decide (j = Z.to_nat (SampleIndex pDataSet pTerm iSample))
    then UpdateBin bClassification cScores pDataSet iSample <$> aBins !! j
    else aBins !! j.
Proof.
  unfold SpecStep. case_decide as E.
  - subst j. apply list_lookup_alter_eq.
  - apply list_lookup_alter_ne. congruence.
Qed.

(** A bin no sample of [samples] falls into keeps its contents. *)
Lemma foldl_SpecStep_untouched (bClassification : bool) (cScores : nat)
  (pDataSet : DataSetInteraction FloatFast) (pTerm : Term)
  (samples : list nat) (aBins : list (Bin FloatFast)) (j : nat) :
  Forall (fun iSample => Z.to_nat (SampleIndex pDataSet pTerm iSample) <> j) samples ->
  foldl (SpecStep bClassification cScores pDataSet pTerm) aBins samples !! j
  = aBins !! j.
Proof.
  revert aBins. induction samples as [| s samples IH]; intros aBins Hall;
    [reflexivity |].
  apply Forall_cons in Hall as [Hs Hall]. cbn [foldl].
  rewrite IH by exact Hall. rewrite SpecStep_lookup.
  case_decide; congruence.
Qed.

(** C1.  On well-formed arguments the kernel returns, and its tensor is the
    one obtained by taking the samples in index order and, for sample [s],
    updating exactly the bin at the flat index
    [b0 + cBins[0] * (b1 + cBins[1] * ...)] of the sample's bin indices:
    the count goes up by one, the weight by [w] ([weights[s]], or [1] when
    there is no weight array), and for each score [k] the gradient sum by
    [g[s,k] * w] and, for classification, the Hessian sum by [h[s,k] * w]. *)
Theorem C1_bin_sums_update (cCompilerClasses cCompilerDimensions : Z)
  (pInteractionShell : InteractionShell FloatFast) (pTerm : Term) :
  let bClassification := IsClassification cCompilerClasses in
  let pInteractionCore := m_pInteractionCore pInteractionShell in
  let cScores := GetCountScores
                   (GET_COUNT_CLASSES cCompilerClasses (m_cClasses pInteractionCore)) in
  let cDimensions :=
    GET_DIMENSIONS cCompilerDimensions (m_cSignificantDimensions pTerm) in
  let pDataSet := m_dataSet pInteractionCore in
  let step := SpecStep bClassification (Z.to_nat cScores) pDataSet pTerm in
  WellFormed bClassification cScores cDimensions pDataSet pTerm
    (m_aBinsFast pInteractionShell) ->
  BinSumsInteractionInternal cCompilerClasses cCompilerDimensions
    pInteractionShell pTerm
  = Some {| m_pInteractionCore := pInteractionCore;
            m_aBinsFast := foldl step (m_aBinsFast pInteractionShell)
                             (seq 0 (Z.to_nat (m_cSamplesData pDataSet))) |}
  /\ forall (aBins : list (Bin FloatFast)) (iSample j : nat) (bin : Bin FloatFast),
       aBins !! j = Some bin ->
       step aBins iSample !! j
       = if decide (j = Z.to_nat
                          (FlatIndex (m_cBins <$> m_aTermEntries pTerm)
                             (SampleBin pDataSet iSample <$> m_aTermEntries pTerm)))
         then
           let w := match m_aWeights pDataSet with
                    | Some aWeights => default fzero (aWeights !! iSample)
                    | None => fone
                    end in
           Some {| m_cSamples := SizeT.add (m_cSamples bin) 1;
                   m_weight := fadd (m_weight bin) w;
                   m_aGradientPairs :=
                     imap (fun k pair =>
                        {| m_sumGradients :=
                             fadd (m_sumGradients pair)
                               (fmul (SampleGradient bClassification (Z.to_nat cScores)
                                        pDataSet iSample k) w);
                           m_sumHessians :=
                             if bClassification
                             then fadd (m_sumHessians pair)
                                    (fmul (SampleHessian (Z.to_nat cScores)
                                             pDataSet iSample k) w)
                             else m_sumHessians pair |})
                       (m_aGradientPairs bin) |}
         else Some bin.
Proof.
  intros bC core cScores cDimensions pDataSet step Hwf. split.
  - apply BinSumsInteractionInternal_refines. exact Hwf.
  - intros aBins s j bin Hbin. unfold step. rewrite SpecStep_lookup, Hbin.
    reflexivity.
Qed.

(** C8.  The aggregation leaves the core of the shell, and with it the
    gradient and Hessian buffer, the columns of bin indices and the weight
    array, as they were, and every bin whose flat index no sample produces
    keeps its prior contents. *)
Theorem C8_bin_sums_frame (cCompilerClasses cCompilerDimensions : Z)
  (pInteractionShell : InteractionShell FloatFast) (pTerm : Term) :
  let bClassification := IsClassification cCompilerClasses in
  let pInteractionCore := m_pInteractionCore pInteractionShell in
  let cScores := GetCountScores
                   (GET_COUNT_CLASSES cCompilerClasses (m_cClasses pInteractionCore)) in
  let cDimensions :=
    GET_DIMENSIONS cCompilerDimensions (m_cSignificantDimensions pTerm) in
  let pDataSet := m_dataSet pInteractionCore in
  WellFormed bClassification cScores cDimensions pDataSet pTerm
    (m_aBinsFast pInteractionShell) ->
  exists pInteractionShell',
    BinSumsInteractionInternal cCompilerClasses cCompilerDimensions
      pInteractionShell pTerm = Some pInteractionShell'
    /\ m_pInteractionCore pInteractionShell' = m_pInteractionCore pInteractionShell
    /\ length (m_aBinsFast pInteractionShell')
       = length (m_aBinsFast pInteractionShell)
    /\ forall j : nat,
         (forall iSample : nat,
            (iSample < Z.to_nat (m_cSamplesData pDataSet))%nat ->
            Z.to_nat (SampleIndex pDataSet pTerm iSample) <> j) ->
         m_aBinsFast pInteractionShell' !! j = m_aBinsFast pInteractionShell !! j.
Proof.
  intros bC core cScores cDimensions pDataSet Hwf.
  eexists. split; [apply BinSumsInteractionInternal_refines; exact Hwf |].
  cbn [m_pInteractionCore m_aBinsFast]. split; [reflexivity | split].
  - unfold SpecBinSums.
    generalize (seq 0 (Z.to_nat (m_cSamplesData (m_dataSet (m_pInteractionCore pInteractionShell))))).
    generalize (m_aBinsFast pInteractionShell).
    intros aBins samples. revert aBins.
    induction samples as [| s samples IH]; intros aBins; [reflexivity |].
    cbn [foldl]. rewrite IH. unfold SpecStep. apply length_alter.
  - intros j Hj. apply foldl_SpecStep_untouched.
    apply Forall_forall. intros s Hs. apply Hj.
    apply elem_of_seq in Hs. unfold pDataSet, core. lia.
Qed.

(** C6.  When the compile-time class count is the runtime one (a
    classification with at least two classes, or regression) and the
    compile-time dimension count is the term's, the specialized kernel and
    the generic kernel of the objective (dynamic classes or regression,
    dynamic dimensions) return the same shell, bin for bin and bit for bit. *)
Theorem C6_specialized_is_generic (cCompilerClasses cCompilerDimensions : Z)
  (pInteractionShell : InteractionShell FloatFast) (pTerm : Term) :
  cCompilerClasses = m_cClasses (m_pInteractionCore pInteractionShell) ->
  cCompilerClasses = k_regression \/ 2 <= cCompilerClasses ->
  cCompilerDimensions = m_cSignificantDimensions pTerm ->
  2 <= cCompilerDimensions ->
  BinSumsInteractionInternal cCompilerClasses cCompilerDimensions
    pInteractionShell pTerm
  = BinSumsInteractionInternal (GenericClasses cCompilerClasses)
      k_dynamicDimensions pInteractionShell pTerm.
Proof.
  intros HC Hcls HD Hdim.
  unfold BinSumsInteractionInternal, GenericClasses.
  assert (E1 : IsClassification
                 (if IsClassification cCompilerClasses
                  then k_dynamicClassification else k_regression)
               = IsClassification cCompilerClasses)
    by (destruct (IsClassification cCompilerClasses) eqn:E; reflexivity).
  assert (E2 : GET_COUNT_CLASSES
                 (if IsClassification cCompilerClasses
                  then k_dynamicClassification else k_regression)
                 (m_cClasses (m_pInteractionCore pInteractionShell))
               = GET_COUNT_CLASSES cCompilerClasses
                   (m_cClasses (m_pInteractionCore pInteractionShell))).
  { rewrite <- HC. unfold GET_COUNT_CLASSES, IsClassification, k_dynamicClassification,
      k_regression in *.
    destruct Hcls as [-> | Hcls]; [reflexivity |].
    replace (0 <=? cCompilerClasses) with true by (symmetry; apply Z.leb_le; lia).
    destruct (0 =? cCompilerClasses); reflexivity. }
  assert (E3 : GET_DIMENSIONS k_dynamicDimensions (m_cSignificantDimensions pTerm)
               = GET_DIMENSIONS cCompilerDimensions (m_cSignificantDimensions pTerm)).
  { rewrite <- HD. unfold GET_DIMENSIONS, k_dynamicDimensions.
    destruct (0 =? cCompilerDimensions); reflexivity. }
  rewrite E1, E2, E3. reflexivity.
Qed.

End KernelFacts.

(** ** BinInteraction.cpp: the dispatcher *)

Section DispatchFacts.
Context {ladder : EbmInternal.Ladder} {R : Type}.
Import EbmInternal BinInteraction.
Variable Internal : Z -> Z -> R.
Variable cRuntimeClasses cRuntimeDimensions : Z.

Lemma BinSumsInteractionDimensions_select (n : nat) (cCompilerClasses c : Z) :
  BinSumsInteractionDimensions Internal cRuntimeDimensions n cCompilerClasses c
  = Internal cCompilerClasses
      (if (c <=? cRuntimeDimensions) && (cRuntimeDimensions <? c + Z.of_nat n)
       then cRuntimeDimensions else k_dynamicDimensions).
Proof.
  revert c. induction n as [| n IH]; intros c.
  - cbn [BinSumsInteractionDimensions]. f_equal.
    destruct (c <=? cRuntimeDimensions) eqn:E1,
      (cRuntimeDimensions <? c + Z.of_nat 0) eqn:E2; try reflexivity.
    apply Z.leb_le in E1. apply Z.ltb_lt in E2. lia.
  - cbn [BinSumsInteractionDimensions].
    destruct (c =? cRuntimeDimensions) eqn:E.
    + apply Z.eqb_eq in E. subst c. f_equal.
      rewrite Z.leb_refl.
      replace (cRuntimeDimensions <? cRuntimeDimensions + Z.of_nat (S n)) with true
        by (symmetry; apply Z.ltb_lt; lia).
      reflexivity.
    + apply Z.eqb_neq in E. rewrite IH. f_equal.
      destruct (c + 1 <=? cRuntimeDimensions) eqn:E1,
        (cRuntimeDimensions <? c + 1 + Z.of_nat n) eqn:E2,
        (c <=? cRuntimeDimensions) eqn:E3,
        (cRuntimeDimensions <? c + Z.of_nat (S n)) eqn:E4; try reflexivity;
        rewrite ?Z.leb_le, ?Z.ltb_lt, ?Z.leb_gt, ?Z.ltb_ge in *; lia.
Qed.

Lemma DimensionLadder_select (cCompilerClasses : Z) :
  DimensionLadder Internal cRuntimeDimensions cCompilerClasses
  = Internal cCompilerClasses (LadderDimensions cRuntimeDimensions).
Proof.
  unfold DimensionLadder, LadderDimensions.
  rewrite BinSumsInteractionDimensions_select. f_equal.
  destruct (2 <=? cRuntimeDimensions) eqn:E1; [| reflexivity]. cbn [andb].
  destruct (cRuntimeDimensions <=? k_cCompilerOptimizedCountDimensionsMax) eqn:E2,
    (cRuntimeDimensions
     <? 2 + Z.of_nat (Z.to_nat (k_cCompilerOptimizedCountDimensionsMax + 1 - 2))) eqn:E3;
    try reflexivity;
    rewrite ?Z.leb_le, ?Z.ltb_lt, ?Z.leb_gt, ?Z.ltb_ge in *; lia.
Qed.

Lemma BinSumsInteractionTarget_select (n : nat) (c : Z) :
  BinSumsInteractionTarget Internal cRuntimeClasses cRuntimeDimensions n c
  = Internal
      (if (c <=? cRuntimeClasses) && (cRuntimeClasses <? c + Z.of_nat n)
       then cRuntimeClasses else k_dynamicClassification)
      (LadderDimensions cRuntimeDimensions).
Proof.
  revert c. induction n as [| n IH]; intros c.
  - cbn [BinSumsInteractionTarget]. rewrite DimensionLadder_select. f_equal.
    destruct (c <=? cRuntimeClasses) eqn:E1,
      (cRuntimeClasses <? c + Z.of_nat 0) eqn:E2; try reflexivity.
    apply Z.leb_le in E1. apply Z.ltb_lt in E2. lia.
  - cbn [BinSumsInteractionTarget].
    destruct (c =? cRuntimeClasses) eqn:E.
    + apply Z.eqb_eq in E. subst c. rewrite DimensionLadder_select. f_equal.
      rewrite Z.leb_refl.
      replace (cRuntimeClasses <? cRuntimeClasses + Z.of_nat (S n)) with true
        by (symmetry; apply Z.ltb_lt; lia).
      reflexivity.
    + apply Z.eqb_neq in E. rewrite IH. f_equal.
      destruct (c + 1 <=? cRuntimeClasses) eqn:E1,
        (cRuntimeClasses <? c + 1 + Z.of_nat n) eqn:E2,
        (c <=? cRuntimeClasses) eqn:E3,
        (cRuntimeClasses <? c + Z.of_nat (S n)) eqn:E4; try reflexivity;
        rewrite ?Z.leb_le, ?Z.ltb_lt, ?Z.leb_gt, ?Z.ltb_ge in *; lia.
Qed.

Lemma BinSumsInteractionDispatch_select :
  BinSumsInteractionDispatch Internal cRuntimeClasses cRuntimeDimensions
  = Internal (LadderClasses cRuntimeClasses) (LadderDimensions cRuntimeDimensions).
Proof.
  unfold BinSumsInteractionDispatch, LadderClasses.
  destruct (IsClassification cRuntimeClasses); [| apply DimensionLadder_select].
  rewrite BinSumsInteractionTarget_select. f_equal.
  destruct (2 <=? cRuntimeClasses) eqn:E1; [| reflexivity]. cbn [andb].
  destruct (cRuntimeClasses <=? k_cCompilerClassesMax) eqn:E2,
    (cRuntimeClasses <? 2 + Z.of_nat (Z.to_nat (k_cCompilerClassesMax + 1 - 2))) eqn:E3;
    try reflexivity;
    rewrite ?Z.leb_le, ?Z.ltb_lt, ?Z.leb_gt, ?Z.ltb_ge in *; lia.
Qed.

End DispatchFacts.

(** C7.  Whatever a call of the kernel stands for, the dispatcher is one call
    of it, with the class parameter the target ladder selects (the runtime
    class count when it lies in [2, K_MAX], [k_dynamicClassification] for
    any other classification, [k_regression] for regression) and the
    dimension parameter the dimension ladder selects (the term's count when
    it lies in [2, D_MAX], the dynamic variant otherwise); logging the calls
    shows exactly one. *)
Theorem C7_dispatch_once {ladder : EbmInternal.Ladder}
  (cRuntimeClasses cRuntimeDimensions : Z) :
  (forall (R : Type) (Internal : Z -> Z -> R),
     BinInteraction.BinSumsInteractionDispatch Internal
       cRuntimeClasses cRuntimeDimensions
     = Internal (BinInteraction.LadderClasses cRuntimeClasses)
         (BinInteraction.LadderDimensions cRuntimeDimensions))
  /\ BinInteraction.BinSumsInteractionDispatch
       (fun cCompilerClasses cCompilerDimensions =>
          [(cCompilerClasses, cCompilerDimensions)])
       cRuntimeClasses cRuntimeDimensions
     = [(BinInteraction.LadderClasses cRuntimeClasses,
         BinInteraction.LadderDimensions cRuntimeDimensions)]
  /\ forall (FloatFast : Type) (ops : FloatOps FloatFast)
       (pInteractionShell : BinInteraction.InteractionShell FloatFast)
       (pTerm : BinInteraction.Term),
       cRuntimeClasses
       = BinInteraction.m_cClasses
           (BinInteraction.m_pInteractionCore pInteractionShell) ->
       cRuntimeDimensions = BinInteraction.m_cSignificantDimensions pTerm ->
       BinInteraction.BinSumsInteraction pInteractionShell pTerm
       = BinInteraction.BinSumsInteractionInternal
           (BinInteraction.LadderClasses cRuntimeClasses)
           (BinInteraction.LadderDimensions cRuntimeDimensions)
           pInteractionShell pTerm.
Proof.
  split; [| split].
  - intros R Internal. apply BinSumsInteractionDispatch_select.
  - apply (BinSumsInteractionDispatch_select (fun C D => [(C, D)])).
  - intros FloatFast ops shell term -> ->. unfold BinInteraction.BinSumsInteraction.
    apply (BinSumsInteractionDispatch_select
             (fun C D => BinInteraction.BinSumsInteractionInternal C D shell term)).
Qed.

(** ** BinInteraction.cpp: totals and bounds over the tensor *)

Section TotalsFacts.
Context {FloatFast : Type} {ops : FloatOps FloatFast}.
Import EbmInternal BinInteraction.

Lemma SumCounts_alter (f : Bin FloatFast -> Bin FloatFast)
  (aBins : list (Bin FloatFast)) (i : nat) (bin : Bin FloatFast) :
  aBins !! i = Some bin ->
  SumCounts (alter f i aBins)
  = SumCounts aBins + m_cSamples (f bin) - m_cSamples bin.
Proof.
  unfold SumCounts. revert i.
  induction aBins as [| b aBins IH]; intros [| i] H; try discriminate; cbn in *.
  - injection H as ->. lia.
  - rewrite (IH i H). lia.
Qed.

(** A property of each bin, indexed by the number of samples taken so far,
    that every sample carries one step further. *)
Lemma foldl_SpecStep_invariant (P : nat -> Bin FloatFast -> Prop)
  (bClassification : bool) (cScores : nat)
  (pDataSet : DataSetInteraction FloatFast) (pTerm : Term) (N : nat)
  (samples : list nat) (aBins : list (Bin FloatFast)) (k0 : nat) :
  (forall k bin, P k bin -> P (S k) bin) ->
  (forall k s bin, (k < N)%nat -> s ∈ samples -> P k bin ->
     P (S k) (UpdateBin bClassification cScores pDataSet s bin)) ->
  (k0 + length samples <= N)%nat ->
  Forall (P k0) aBins ->
  Forall (P (k0 + length samples)%nat)
    (foldl (SpecStep bClassification cScores pDataSet pTerm) aBins samples).
Proof.
  intros Hkeep. revert aBins k0.
  induction samples as [| s samples IH]; intros aBins k0 Hstep Hlen Hall.
  - cbn. now rewrite Nat.add_0_r.
  - cbn [foldl length] in *.
    replace (k0 + S (length samples))%nat with (S k0 + length samples)%nat by lia.
    apply IH.
    + intros k s' bin Hk Hs'. apply Hstep; [lia | now right].
    + lia.
    + apply Forall_lookup_2. intros j x. rewrite SpecStep_lookup.
      case_decide as E.
      * destruct (aBins !! j) as [bin |] eqn:Hbin; [| discriminate].
        cbn. intros [= <-]. apply Hstep; [lia | now left |].
        apply (Forall_lookup_1 _ _ _ _ Hall Hbin).
      * intros Hx. apply Hkeep. apply (Forall_lookup_1 _ _ _ _ Hall Hx).
Qed.

(** Counts never wrap while the number of samples is a [size_t]. *)
Lemma count_step (k N : nat) (c : Z) :
  (k < N)%nat -> Z.of_nat N < SizeT.modulus -> 0 <= c <= Z.of_nat k ->
  SizeT.add c 1 = c + 1 /\ 0 <= c + 1 <= Z.of_nat (S k).
Proof.
  intros Hk HN Hc. split; [| lia].
  apply add_exact. unfold SizeT.in_range. lia.
Qed.

Lemma SumCounts_foldl (bClassification : bool) (cScores : nat)
  (pDataSet : DataSetInteraction FloatFast) (pTerm : Term) (N : nat)
  (samples : list nat) (aBins : list (Bin FloatFast)) (k0 : nat) :
  Z.of_nat N < SizeT.modulus ->
  (k0 + length samples <= N)%nat ->
  Forall (fun s => (Z.to_nat (SampleIndex pDataSet pTerm s) < length aBins)%nat)
    samples ->
  Forall (fun bin => 0 <= m_cSamples bin <= Z.of_nat k0) aBins ->
  SumCounts (foldl (SpecStep bClassification cScores pDataSet pTerm) aBins samples)
  = SumCounts aBins + Z.of_nat (length samples).
Proof.
  intros HN. revert aBins k0.
  induction samples as [| s samples IH]; intros aBins k0 Hlen Hidx Hall.
  - cbn [foldl length]. lia.
  - cbn [foldl length] in *. apply Forall_cons in Hidx as [Hs Hidx].
    destruct (lookup_lt_is_Some_2 aBins _ Hs) as [bin Hbin].
    pose proof (Forall_lookup_1 _ _ _ _ Hall Hbin) as Hc. cbn beta in Hc.
    destruct (count_step k0 N (m_cSamples bin)) as [Hadd Hc']; [lia | lia | lia |].
    rewrite (IH _ (S k0)).
    + unfold SpecStep at 1. rewrite (SumCounts_alter _ _ _ _ Hbin).
      cbn [UpdateBin m_cSamples]. rewrite Hadd. lia.
    + lia.
    + eapply Forall_impl; [exact Hidx |]. intros s' Hs'.
      unfold SpecStep. now rewrite length_alter.
    + apply Forall_lookup_2. intros j x. rewrite SpecStep_lookup.
      case_decide as E.
      * subst j. rewrite Hbin. cbn. intros [= <-]. cbn. rewrite Hadd. lia.
      * intros Hx. pose proof (Forall_lookup_1 _ _ _ _ Hall Hx) as Hx'.
        cbn beta in Hx'. lia.
Qed.

Lemma RepeatedSum_S (x : FloatFast) (n : nat) :
  RepeatedSum x (S n) = fadd (RepeatedSum x n) x.
Proof. reflexivity. Qed.

Lemma WellFormed_indices (bClassification : bool) (cScores cDimensions : Z)
  (pDataSet : DataSetInteraction FloatFast) (pTerm : Term)
  (aBins : list (Bin FloatFast)) :
  WellFormed bClassification cScores cDimensions pDataSet pTerm aBins ->
  Forall (fun s => (Z.to_nat (SampleIndex pDataSet pTerm s) < length aBins)%nat)
    (seq 0 (Z.to_nat (m_cSamplesData pDataSet))).
Proof.
  intros Hwf. apply Forall_forall. intros s Hs. apply elem_of_seq in Hs.
  pose proof (WellFormed_SampleIndex _ _ _ _ _ _ s Hwf) as Hidx.
  destruct (wf_tensor _ _ _ _ _ _ Hwf) as [Ht _]. lia.
Qed.

(** C4.  After the kernel has run on a zeroed tensor, the counts of all bins
    add up to the number of samples of the data set, and when there is no
    weight array the weight of every bin is its count, reached by adding
    [1.0] that many times (in binary64 exactly the count,
    [CountAsFloat_double]); so the weights of all bins and the counts of all
    bins, summed alike, have the same sum. *)
Theorem C4_counts_and_unit_weights (cCompilerClasses cCompilerDimensions : Z)
  (pInteractionShell : InteractionShell FloatFast) (pTerm : Term) :
  let bClassification := IsClassification cCompilerClasses in
  let pInteractionCore := m_pInteractionCore pInteractionShell in
  let cScores := GetCountScores
                   (GET_COUNT_CLASSES cCompilerClasses (m_cClasses pInteractionCore)) in
  let cDimensions :=
    GET_DIMENSIONS cCompilerDimensions (m_cSignificantDimensions pTerm) in
  let pDataSet := m_dataSet pInteractionCore in
  WellFormed bClassification cScores cDimensions pDataSet pTerm
    (m_aBinsFast pInteractionShell) ->
  ZeroedTensor (m_aBinsFast pInteractionShell) ->
  exists pInteractionShell',
    BinSumsInteractionInternal cCompilerClasses cCompilerDimensions
      pInteractionShell pTerm = Some pInteractionShell'
    /\ SumCounts (m_aBinsFast pInteractionShell') = m_cSamplesData pDataSet
    /\ (m_aWeights pDataSet = None ->
        Forall (fun bin => m_weight bin = CountAsFloat (m_cSamples bin))
          (m_aBinsFast pInteractionShell')
        /\ SumWeights (m_aBinsFast pInteractionShell')
           = FloatSum ((fun bin => CountAsFloat (m_cSamples bin))
                       <$> m_aBinsFast pInteractionShell')).
Proof.
  intros bC core cScores cDimensions pDataSet Hwf Hzero.
  eexists. split; [apply BinSumsInteractionInternal_refines; exact Hwf |].
  cbn [m_aBinsFast]. fold bC core cScores cDimensions pDataSet.
  unfold SpecBinSums.
  set (N := Z.to_nat (m_cSamplesData pDataSet)).
  pose proof (wf_samples _ _ _ _ _ _ Hwf) as Hn.
  assert (HN : Z.of_nat N < SizeT.modulus) by (unfold N; lia).
  split.
  - rewrite (SumCounts_foldl bC _ pDataSet pTerm N _ _ 0 HN).
    + rewrite length_seq. unfold N.
      assert (Hz : SumCounts (m_aBinsFast pInteractionShell) = 0).
      { unfold SumCounts. clear Hwf.
        induction Hzero as [| bin aBins (Hc & _) _ IH]; cbn; [reflexivity |].
        cbn in IH. rewrite IH, Hc. reflexivity. }
      rewrite Hz. lia.
    + rewrite length_seq. lia.
    + apply (WellFormed_indices _ _ _ _ _ _ Hwf).
    + eapply Forall_impl; [exact Hzero |]. intros bin (Hc & _). cbn. lia.
  - intros Hnone.
    assert (Hall : Forall (fun bin => m_weight bin = CountAsFloat (m_cSamples bin))
                     (foldl (SpecStep bC (Z.to_nat cScores) pDataSet pTerm)
                        (m_aBinsFast pInteractionShell) (seq 0 N))).
    { pose proof (foldl_SpecStep_invariant
                    (fun k bin => 0 <= m_cSamples bin <= Z.of_nat k
                                  /\ m_weight bin = CountAsFloat (m_cSamples bin))
                    bC (Z.to_nat cScores) pDataSet pTerm N (seq 0 N)
                    (m_aBinsFast pInteractionShell) 0) as Hinv.
      eapply Forall_impl; [apply Hinv |].
      - intros k bin [Hc Hw]. split; [lia | exact Hw].
      - intros k s bin Hk _ [Hc Hw].
        destruct (count_step k N (m_cSamples bin) Hk HN Hc) as [Hadd Hc'].
        cbn [UpdateBin m_cSamples m_weight]. rewrite Hadd. split; [exact Hc' |].
        unfold SampleWeight. rewrite Hnone, Hw. unfold CountAsFloat.
        replace (Z.to_nat (m_cSamples bin + 1)) with (S (Z.to_nat (m_cSamples bin)))
          by lia.
        reflexivity.
      - rewrite length_seq. lia.
      - eapply Forall_impl; [exact Hzero |]. intros bin (Hc & Hw & _).
        rewrite Hc, Hw. split; [lia | reflexivity].
      - intros bin [_ Hw]. exact Hw. }
    split; [exact Hall |].
    unfold SumWeights. f_equal.
    induction Hall as [| bin aBins Hb _ IH]; cbn; [reflexivity |].
    now rewrite Hb, IH.
Qed.

(** When every product [hessian * weight] the kernel adds lies between zero
    and [bound], every Hessian sum lies between zero and [bound] added up
    count times. *)
Lemma hessian_sums_within (bound : FloatFast) (cScores : nat)
  (pDataSet : DataSetInteraction FloatFast) (pTerm : Term)
  (aBins : list (Bin FloatFast)) :
  MonotoneSums ->
  0 <= m_cSamplesData pDataSet < SizeT.modulus ->
  ZeroedTensor aBins ->
  Forall (fun bin => length (m_aGradientPairs bin) = cScores) aBins ->
  (forall iSample iScore : nat,
     (iSample < Z.to_nat (m_cSamplesData pDataSet))%nat -> (iScore < cScores)%nat ->
     let product := fmul (SampleHessian cScores pDataSet iSample iScore)
                         (SampleWeight pDataSet iSample) in
     fle fzero product = true /\ fle product bound = true) ->
  HessianSumsWithin bound (SpecBinSums true cScores pDataSet pTerm aBins).
Proof.
  intros Hms Hn Hzero Hpl Hprod.
  unfold HessianSumsWithin, SpecBinSums.
  set (N := Z.to_nat (m_cSamplesData pDataSet)).
  assert (HN : Z.of_nat N < SizeT.modulus) by (unfold N; lia).
  pose proof (foldl_SpecStep_invariant
                (fun k bin =>
                   0 <= m_cSamples bin <= Z.of_nat k
                   /\ length (m_aGradientPairs bin) = cScores
                   /\ Forall (fun pair =>
                        fle fzero (m_sumHessians pair) = true
                        /\ fle (m_sumHessians pair)
                             (RepeatedSum bound (Z.to_nat (m_cSamples bin)))
                           = true)
                        (m_aGradientPairs bin))
                true cScores pDataSet pTerm N (seq 0 N) aBins 0) as Hinv.
  eapply Forall_impl; [apply Hinv |].
  - intros k bin (Hc & Hl & Hp). repeat split; auto; lia.
  - intros k s bin Hk Hs (Hc & Hl & Hp).
    apply elem_of_seq in Hs.
    destruct (count_step k N (m_cSamples bin) Hk HN Hc) as [Hadd Hc'].
    cbn [UpdateBin m_cSamples m_aGradientPairs]. rewrite Hadd.
    split; [exact Hc' |]. split; [now rewrite length_imap |].
    apply Forall_lookup_2. intros iScore pair'. rewrite list_lookup_imap.
    destruct (m_aGradientPairs bin !! iScore) as [pair |] eqn:Hpair;
      [| discriminate].
    cbn. intros [= <-].
    pose proof (Forall_lookup_1 _ _ _ _ Hp Hpair) as [Hlo Hhi].
    apply lookup_lt_Some in Hpair.
    destruct (Hprod s iScore) as [Hh0 Hh1]; [unfold N in Hs; lia | lia |].
    unfold UpdatePair. cbn [m_sumHessians].
    replace (Z.to_nat (m_cSamples bin + 1)) with (S (Z.to_nat (m_cSamples bin)))
      by lia.
    rewrite RepeatedSum_S. split.
    + pose proof (ms_zero Hms) as H0.
      rewrite <- (ms_add_zero Hms).
      apply (ms_add_mono Hms); auto.
    + apply (ms_add_mono Hms); auto.
  - rewrite length_seq. lia.
  - apply Forall_lookup_2. intros j bin Hbin.
    pose proof (Forall_lookup_1 _ _ _ _ Hzero Hbin) as (Hc & _ & Hz).
    pose proof (Forall_lookup_1 _ _ _ _ Hpl Hbin) as Hl. cbn beta in *.
    rewrite Hc. split; [lia |]. split; [exact Hl |].
    eapply Forall_impl; [exact Hz |]. intros pair ->. cbn.
    split; apply (ms_zero Hms).
  - intros bin (_ & _ & Hp). exact Hp.
Qed.

(** C5, amended.  In an arithmetic whose sums are monotone (binary64 is one,
    [double_monotone_sums]), a classification kernel run on a zeroed tensor
    over Hessians between zero and [hessianMax] leaves in every bin and for
    every score a Hessian sum that is at least zero and at most a bound
    added up count times.  Without a weight array the bound is [hessianMax]
    itself; with the bound [0.25] the sum is at most [0.25 * count], in
    binary64 exactly so ([quarter_bound_double]).  With weights between zero
    and [weightMax], and products that are monotone below the two bounds
    (binary64 again, [double_monotone_products]), the bound is
    [hessianMax * weightMax], which is more than [hessianMax] as soon as
    [weightMax] is more than one. *)
Theorem C5_hessian_bounds (cCompilerClasses cCompilerDimensions : Z)
  (pInteractionShell : InteractionShell FloatFast) (pTerm : Term)
  (hessianMax : FloatFast) :
  let bClassification := IsClassification cCompilerClasses in
  let pInteractionCore := m_pInteractionCore pInteractionShell in
  let cScores := GetCountScores
                   (GET_COUNT_CLASSES cCompilerClasses (m_cClasses pInteractionCore)) in
  let cDimensions :=
    GET_DIMENSIONS cCompilerDimensions (m_cSignificantDimensions pTerm) in
  let pDataSet := m_dataSet pInteractionCore in
  MonotoneSums ->
  bClassification = true ->
  WellFormed bClassification cScores cDimensions pDataSet pTerm
    (m_aBinsFast pInteractionShell) ->
  ZeroedTensor (m_aBinsFast pInteractionShell) ->
  HessiansWithin hessianMax (Z.to_nat cScores) pDataSet ->
  exists pInteractionShell',
    BinSumsInteractionInternal cCompilerClasses cCompilerDimensions
      pInteractionShell pTerm = Some pInteractionShell'
    /\ (m_aWeights pDataSet = None ->
        HessianSumsWithin hessianMax (m_aBinsFast pInteractionShell'))
    /\ (forall weightMax : FloatFast,
          MonotoneProducts hessianMax weightMax ->
          WeightsWithin weightMax pDataSet ->
          HessianSumsWithin (fmul hessianMax weightMax)
            (m_aBinsFast pInteractionShell')).
Proof.
  intros bC core cScores cDimensions pDataSet Hms HbC Hwf Hzero Hhess.
  eexists. split; [apply BinSumsInteractionInternal_refines; exact Hwf |].
  cbn [m_aBinsFast]. fold bC core cScores cDimensions pDataSet.
  rewrite HbC.
  pose proof (wf_samples _ _ _ _ _ _ Hwf) as Hn.
  pose proof (wf_pairs _ _ _ _ _ _ Hwf) as Hpl.
  split.
  - intros Hnone. apply hessian_sums_within; try assumption.
    intros iSample iScore Hs Hk. cbn zeta.
    destruct (Hhess iSample iScore Hs Hk) as [Hh0 Hh1].
    unfold SampleWeight. rewrite Hnone, (ms_mul_one Hms _ Hh0). now split.
  - intros weightMax Hmp Hw. apply hessian_sums_within; try assumption.
    intros iSample iScore Hs Hk. cbn zeta.
    destruct (Hhess iSample iScore Hs Hk) as [Hh0 Hh1].
    destruct (Hw iSample Hs) as [Hw0 Hw1].
    split; [now apply (mp_nonneg _ _ Hmp) | now apply (mp_bound _ _ Hmp)].
Qed.

End TotalsFacts.

(** ** Binary64: rounding, unit steps and sums *)

(** The kernel reaches the weight of a bin by adding [1.0] once per sample,
    and a Hessian sum by adding one Hessian per sample.  Below [2^53] every
    sum of ones is exact, so the weight is the count; and rounding to
    nearest is monotone, so a sum of Hessians stays below the sum of their
    bounds. *)

Lemma digits2_pos_bounds (m : positive) :
  2 ^ (Z.pos (digits2_pos m) - 1) <= Z.pos m < 2 ^ Z.pos (digits2_pos m).
Proof.
  induction m as [m IH | m IH |]; cbn [digits2_pos].
  - rewrite Pos2Z.inj_succ.
    replace (Z.succ (Z.pos (digits2_pos m)) - 1) with (Z.succ (Z.pos (digits2_pos m) - 1)) by lia.
    rewrite !Z.pow_succ_r by lia. lia.
  - rewrite Pos2Z.inj_succ.
    replace (Z.succ (Z.pos (digits2_pos m)) - 1) with (Z.succ (Z.pos (digits2_pos m) - 1)) by lia.
    rewrite !Z.pow_succ_r by lia. lia.
  - cbn. lia.
Qed.

Lemma digits2_pos_unique (m : positive) (d : Z) :
  2 ^ (d - 1) <= Z.pos m < 2 ^ d -> 0 < d -> Z.pos (digits2_pos m) = d.
Proof.
  intros [Hlo Hhi] Hd. pose proof (digits2_pos_bounds m) as [Blo Bhi].
  destruct (Z.lt_trichotomy (Z.pos (digits2_pos m)) d) as [Hlt | [Heq | Hgt]];
    [| exact Heq |]; exfalso.
  - assert (2 ^ Z.pos (digits2_pos m) <= 2 ^ (d - 1))
      by (apply Z.pow_le_mono_r; lia). lia.
  - assert (2 ^ d <= 2 ^ (Z.pos (digits2_pos m) - 1))
      by (apply Z.pow_le_mono_r; lia). lia.
Qed.

Lemma iter_pos_iter {A : Type} (f : A -> A) (k : positive) (x : A) :
  SpecFloat.iter_pos f k x = Pos.iter f x k.
Proof.
  revert x. induction k as [k IH | k IH |]; intros x; cbn.
  - rewrite !IH. rewrite <- !Pos.iter_swap. reflexivity.
  - rewrite !IH. reflexivity.
  - reflexivity.
Qed.

Lemma shr_exact (k m : positive) :
  SpecFloat.iter_pos shr_1 k {| shr_m := Z.pos (Pos.iter xO m k); shr_r := false; shr_s := false |}
  = {| shr_m := Z.pos m; shr_r := false; shr_s := false |}.
Proof.
  rewrite iter_pos_iter. revert m.
  induction k as [| k IH] using Pos.peano_ind; intros m.
  - reflexivity.
  - rewrite (Pos.iter_succ_r k _ xO), Pos.iter_succ, IH. reflexivity.
Qed.

Lemma fexp_small (d : Z) : -1021 <= d -> fexp prec emax d = d - 53.
Proof. intros H. unfold fexp, SpecFloat.emin, prec, emax. lia. Qed.

(** A mantissa of 53 digits is left alone by the rounding. *)
Lemma binary_round_aux_canonical (m : positive) (e : Z) :
  digits2_pos m = 53%positive -> -1074 <= e <= 971 ->
  binary_round_aux prec emax false (Z.pos m) e loc_Exact = S754_finite false m e.
Proof.
  intros Hd He. unfold binary_round_aux, shr_fexp. cbn [Zdigits2 shr_record_of_loc].
  rewrite Hd, fexp_small by lia.
  replace (53 + e - 53 - e) with 0 by lia. cbn [shr shr_m loc_of_shr_record round_nearest_even Zdigits2 shr_record_of_loc].
  rewrite Hd, fexp_small by lia.
  replace (53 + e - 53 - e) with 0 by lia. cbn [shr shr_m].
  unfold prec, emax. destruct (Z.leb_spec e (1024 - 53)); [reflexivity | lia].
Qed.

Lemma digits2_pos_shift (k m : positive) :
  digits2_pos (Pos.iter xO m k) = (digits2_pos m + k)%positive.
Proof.
  induction k as [| k IH] using Pos.peano_ind.
  - cbn. now rewrite Pos.add_1_r.
  - rewrite Pos.iter_succ. cbn [digits2_pos]. rewrite IH. lia.
Qed.

Lemma shift_value (k m : positive) :
  Z.pos (Pos.iter xO m k) = Z.pos m * 2 ^ Z.pos k.
Proof.
  pose proof (shift_pos_correct k m) as H. unfold shift_pos in H.
  rewrite H, Z.pow_pos_fold. lia.
Qed.

(** A mantissa of [53 + k] digits whose low [k] bits are zero is shifted
    right by [k] bits, and nothing is rounded away. *)
Lemma binary_round_aux_shifted (m : positive) (k : positive) (e : Z) :
  digits2_pos m = 53%positive -> -1074 <= e -> e + Z.pos k <= 971 ->
  binary_round_aux prec emax false (Z.pos (Pos.iter xO m k)) e loc_Exact
  = S754_finite false m (e + Z.pos k).
Proof.
  intros Hd He Hk. unfold binary_round_aux, shr_fexp.
  cbn [Zdigits2 shr_record_of_loc].
  rewrite digits2_pos_shift, Hd, fexp_small by lia.
  replace (Z.pos (53 + k) + e - 53 - e) with (Z.pos k) by lia.
  cbn [shr]. rewrite shr_exact.
  cbn [shr_m loc_of_shr_record round_nearest_even Zdigits2 shr_record_of_loc].
  rewrite Hd, fexp_small by lia.
  replace (53 + (e + Z.pos k) - 53 - (e + Z.pos k)) with 0 by lia.
  cbn [shr shr_m].
  unfold prec, emax. destruct (Z.leb_spec (e + Z.pos k) (1024 - 53)); [reflexivity | lia].
Qed.

(** Rounding a mantissa and exponent that stand for an integer below
    [2^53] gives the double that is exactly this integer. *)
Lemma binary_round_exact (m : positive) (e n : Z) :
  -52 <= e <= 0 -> Z.pos m = n * 2 ^ (- e) -> 0 < n < 2 ^ 53 ->
  ExactInteger n (binary_round prec emax false m e).
Proof.
  intros He Hm Hn.
  pose proof (digits2_pos_bounds m) as [Blo Bhi].
  set (d := Z.pos (digits2_pos m)) in *.
  assert (Hpe : 0 < 2 ^ (- e)) by (apply Z.pow_pos_nonneg; lia).
  assert (Hd1 : - e < d).
  { apply (Z.pow_lt_mono_r_iff 2); [lia | unfold d; lia |]. nia. }
  assert (Hd2 : d <= 53 - e).
  { assert (2 ^ (d - 1) < 2 ^ (53 - e)).
    { replace (53 - e) with (53 + - e) by lia. rewrite Z.pow_add_r by lia. nia. }
    apply Z.pow_lt_mono_r_iff in H; lia. }
  unfold binary_round. fold d. rewrite fexp_small by lia.
  unfold shl_align. replace (d + e - 53 - e) with (d - 53) by lia.
  destruct (d - 53) as [| k | k] eqn:Hk.
  - exists m, e. rewrite binary_round_aux_canonical by (unfold d in Hk; lia).
    repeat split; lia.
  - assert (Hm' : exists m', m = Pos.iter xO m' k) .
    { assert (Hpos : 0 < n * 2 ^ (- e - Z.pos k)).
      { apply Z.mul_pos_pos; [lia |]. apply Z.pow_pos_nonneg; lia. }
      exists (Z.to_pos (n * 2 ^ (- e - Z.pos k))).
      apply Pos2Z.inj. rewrite shift_value, Z2Pos.id by exact Hpos.
      rewrite Hm, <- Z.mul_assoc, <- Z.pow_add_r by lia.
      do 2 f_equal. lia. }
    destruct Hm' as [m' ->].
    assert (Hd' : digits2_pos m' = 53%positive).
    { unfold d in Hk. rewrite digits2_pos_shift in Hk. lia. }
    rewrite binary_round_aux_shifted by (try exact Hd'; lia).
    exists m', (e + Z.pos k). repeat split; try lia; try exact Hd'.
    rewrite shift_value in Hm.
    replace (- e) with (- (e + Z.pos k) + Z.pos k) in Hm by lia.
    rewrite Z.pow_add_r, Z.mul_assoc in Hm by lia.
    apply Z.mul_reg_r in Hm; [exact Hm |].
    assert (0 < 2 ^ Z.pos k) by (apply Z.pow_pos_nonneg; lia). lia.
  - rewrite binary_round_aux_canonical.
    + exists (Pos.iter xO m k), (d + e - 53). repeat split; try lia.
      * rewrite digits2_pos_shift. unfold d in Hk. lia.
      * rewrite shift_value, Hm, <- Z.mul_assoc, <- Z.pow_add_r by lia.
        do 2 f_equal. lia.
    + rewrite digits2_pos_shift. unfold d in Hk. lia.
    + lia.
Qed.

Lemma ExactInteger_unique (n : Z) (x y : spec_float) :
  ExactInteger n x -> ExactInteger n y -> x = y.
Proof.
  intros (m & e & -> & Hd & He & Hm) (m' & e' & -> & Hd' & He' & Hm').
  pose proof (digits2_pos_bounds m) as B. rewrite Hd in B.
  pose proof (digits2_pos_bounds m') as B'. rewrite Hd' in B'.
  change (2 ^ (53 - 1)) with 4503599627370496 in *.
  change (2 ^ 53) with 9007199254740992 in *.
  assert (Hn : 0 < n).
  { assert (0 < 2 ^ (- e)) by (apply Z.pow_pos_nonneg; lia). nia. }
  assert (Hlt : forall a b p q, -52 <= a <= 0 -> -52 <= b <= 0 ->
            Z.pos p = n * 2 ^ (- a) -> Z.pos q = n * 2 ^ (- b) ->
            4503599627370496 <= Z.pos q -> Z.pos p < 9007199254740992 -> a < b -> False).
  { intros a b p q Ha Hb Hp Hq Lq Lp Hab.
    replace (- a) with (- b + (b - a)) in Hp by lia.
    rewrite Z.pow_add_r, Z.mul_assoc, <- Hq in Hp by lia.
    assert (2 ^ 1 <= 2 ^ (b - a)) by (apply Z.pow_le_mono_r; lia).
    change (2 ^ 1) with 2 in *. nia. }
  assert (e = e').
  { destruct (Z.lt_trichotomy e e') as [H | [H | H]]; [| exact H |]; exfalso.
    - apply (Hlt e e' m m'); lia.
    - apply (Hlt e' e m' m); lia. }
  subst e'. f_equal. apply Pos2Z.inj. congruence.
Qed.

(** The integers below [2^53] are doubles, and adding one to such a double
    is exact. *)
Lemma IntegerAsDouble_exact (n : Z) : 0 < n < 2 ^ 53 -> ExactInteger n (IntegerAsDouble n).
Proof.
  intros Hn. unfold IntegerAsDouble, binary_normalize.
  destruct n as [| p | p]; try lia.
  apply binary_round_exact; [lia | cbn; lia | exact Hn].
Qed.

Lemma SFadd_one_exact (n : Z) (x : spec_float) :
  0 < n -> n + 1 < 2 ^ 53 -> ExactInteger n x ->
  ExactInteger (n + 1) (SFadd prec emax x (S754_finite false 4503599627370496 (-52))).
Proof.
  intros Hn Hn1 (m & e & -> & Hd & He & Hm).
  cbn [SFadd]. replace (IntDef.Z.min e (-52)) with (-52) by (change IntDef.Z.min with Z.min; lia).
  assert (Hx : Z.pos (fst (shl_align m e (-52))) = n * 2 ^ 52).
  { unfold shl_align. destruct (-52 - e) as [| k | k] eqn:Hk; cbn [fst]; try lia.
    - replace e with (-52) in Hm by lia. exact Hm.
    - rewrite shift_value, Hm, <- Z.mul_assoc, <- Z.pow_add_r by lia.
      do 2 f_equal. lia. }
  change (fst (shl_align 4503599627370496 (-52) (-52))) with 4503599627370496%positive.
  cbn [cond_Zopp]. rewrite Hx.
  destruct (n * 2 ^ 52 + 4503599627370496) as [| s | s] eqn:Hs; try lia.
  cbn [binary_normalize]. apply binary_round_exact; [lia | | lia].
  change (2 ^ (- -52)) with (2 ^ 52). lia.
Qed.

(** *** Rounding does not see trailing zeros *)

Lemma fexp_emin (d : Z) : fexp prec emax d = Z.max (d - 53) (-1074).
Proof. reflexivity. Qed.

Lemma shr_fexp_shift (n i : positive) (x : Z) :
  x <= fexp prec emax (Z.pos (digits2_pos n) + x) ->
  shr_fexp prec emax (Z.pos (Pos.iter xO n i)) (x - Z.pos i) loc_Exact
  = shr_fexp prec emax (Z.pos n) x loc_Exact.
Proof.
  intros Hx. unfold shr_fexp. cbn [Zdigits2 shr_record_of_loc].
  rewrite digits2_pos_shift.
  replace (Z.pos (digits2_pos n + i) + (x - Z.pos i))
    with (Z.pos (digits2_pos n) + x) by lia.
  set (E := fexp prec emax (Z.pos (digits2_pos n) + x)) in *.
  destruct (E - x) as [| a | a] eqn:Ha; try lia.
  - replace (E - (x - Z.pos i)) with (Z.pos i) by lia.
    cbn [shr]. rewrite shr_exact. f_equal. lia.
  - replace (E - (x - Z.pos i)) with (Z.pos (a + i)) by lia.
    cbn [shr]. rewrite !iter_pos_iter, Pos.iter_add, <- (iter_pos_iter shr_1 i).
    rewrite shr_exact. f_equal. lia.
Qed.

Lemma binary_round_aux_shift (n i : positive) (x : Z) :
  x <= fexp prec emax (Z.pos (digits2_pos n) + x) ->
  binary_round_aux prec emax false (Z.pos (Pos.iter xO n i)) (x - Z.pos i) loc_Exact
  = binary_round_aux prec emax false (Z.pos n) x loc_Exact.
Proof.
  intros Hx. unfold binary_round_aux. now rewrite shr_fexp_shift.
Qed.

Lemma binary_round_shift (m j : positive) (e : Z) :
  binary_round prec emax false (Pos.iter xO m j) (e - Z.pos j)
  = binary_round prec emax false m e.
Proof.
  unfold binary_round. rewrite digits2_pos_shift.
  replace (Z.pos (digits2_pos m + j) + (e - Z.pos j))
    with (Z.pos (digits2_pos m) + e) by lia.
  set (E := fexp prec emax (Z.pos (digits2_pos m) + e)).
  unfold shl_align.
  destruct (E - e) as [| k' | k'] eqn:Hk'.
  - replace (E - (e - Z.pos j)) with (Z.pos j) by lia.
    apply binary_round_aux_shift. fold E. lia.
  - replace (E - (e - Z.pos j)) with (Z.pos (k' + j)) by lia.
    apply binary_round_aux_shift. fold E. lia.
  - destruct (E - (e - Z.pos j)) as [| i | k] eqn:Hk.
    + assert (j = k') as -> by lia. f_equal; lia.
    + assert (j = (k' + i)%positive) as -> by lia.
      rewrite Pos.add_comm, Pos.iter_add.
      replace (e - Z.pos (i + k')) with (E - Z.pos i) by lia.
      apply binary_round_aux_shift. rewrite digits2_pos_shift.
      replace (Z.pos (digits2_pos m + k') + E) with (Z.pos (digits2_pos m) + e) by lia.
      fold E. lia.
    + assert (k' = (k + j)%positive) as -> by lia.
      now rewrite Pos.iter_add.
Qed.

(** A valid double is its own rounding. *)
Lemma binary_round_aux_valid (m : positive) (e : Z) :
  bounded prec emax m e = true ->
  binary_round_aux prec emax false (Z.pos m) e loc_Exact = S754_finite false m e.
Proof.
  unfold bounded, canonical_mantissa. intros H.
  apply andb_prop in H as [Hc He]. apply Z.eqb_eq in Hc.
  unfold binary_round_aux, shr_fexp. cbn [Zdigits2 shr_record_of_loc].
  rewrite Hc, Z.sub_diag.
  cbn [shr shr_m loc_of_shr_record round_nearest_even Zdigits2 shr_record_of_loc].
  rewrite Hc, Z.sub_diag. cbn [shr shr_m]. now rewrite He.
Qed.

Lemma binary_round_valid (m : positive) (e : Z) :
  bounded prec emax m e = true ->
  binary_round prec emax false m e = S754_finite false m e.
Proof.
  intros H. unfold binary_round, shl_align.
  pose proof H as H'. unfold bounded, canonical_mantissa in H'.
  apply andb_prop in H' as [Hc _]. apply Z.eqb_eq in Hc.
  rewrite Hc, Z.sub_diag. now apply binary_round_aux_valid.
Qed.

(** *** Shifting right with a round bit and a sticky bit *)

Lemma shr_1_spec (q : Z) (r s : bool) :
  0 <= q ->
  exists q' r', shr_1 {| shr_m := q; shr_r := r; shr_s := s |}
                = {| shr_m := q'; shr_r := r'; shr_s := r || s |}
                /\ 0 <= q' /\ q = 2 * q' + Z.b2z r'.
Proof.
  intros Hq. destruct q as [| [p | p |] | p]; try lia; cbn.
  - exists 0, false. repeat split; lia.
  - exists (Z.pos p), true. repeat split; cbn; lia.
  - exists (Z.pos p), false. repeat split; cbn; lia.
  - exists 0, true. repeat split; cbn; lia.
Qed.

Lemma shr_iter_spec (u k : positive) :
  exists q r s,
    SpecFloat.iter_pos shr_1 k {| shr_m := Z.pos u; shr_r := false; shr_s := false |}
    = {| shr_m := q; shr_r := r; shr_s := s |}
    /\ Shifted (Z.pos u) (2 ^ (Z.pos k - 1)) q r s.
Proof.
  rewrite iter_pos_iter.
  induction k as [| k (q & r & s & Hk & t & Hq & Ht & Hu & Hs)] using Pos.peano_ind.
  - destruct (shr_1_spec (Z.pos u) false false) as (q' & r' & E & Hq' & Hu); [lia |].
    exists q', r', false. split; [exact E |]. exists 0.
    change (2 ^ (1 - 1)) with 1. repeat split; try lia; discriminate.
  - rewrite Pos.iter_succ, Hk.
    destruct (shr_1_spec q r s Hq) as (q' & r' & E & Hq' & Hqq).
    exists q', r', (r || s). split; [exact E |].
    exists (Z.b2z r * 2 ^ (Z.pos k - 1) + t).
    replace (Z.pos (Pos.succ k) - 1) with (Z.succ (Z.pos k - 1)) by lia.
    rewrite Z.pow_succ_r by lia.
    assert (HP : 0 < 2 ^ (Z.pos k - 1)) by (apply Z.pow_pos_nonneg; lia).
    set (P := 2 ^ (Z.pos k - 1)) in *.
    split; [exact Hq' |]. split; [destruct r; cbn; lia |].
    split; [subst q; rewrite Hu; ring |].
    destruct r, s; cbn; split; intros H; try reflexivity; try lia; try discriminate;
      try (apply Hs; reflexivity); try (apply Hs in H; discriminate).
Qed.

Lemma RoundedUp_bounds (q : Z) (r s : bool) :
  q <= RoundedUp q r s <= q + 1.
Proof.
  unfold RoundedUp. destruct r, s; cbn; try lia. destruct (IntDef.Z.even q); lia.
Qed.

Lemma RoundedUp_mono (u1 u2 P q1 q2 : Z) (r1 s1 r2 s2 : bool) :
  0 < P -> u1 <= u2 ->
  Shifted u1 P q1 r1 s1 -> Shifted u2 P q2 r2 s2 ->
  RoundedUp q1 r1 s1 <= RoundedUp q2 r2 s2.
Proof.
  intros HP Hu (t1 & Hq1 & Ht1 & E1 & Hs1) (t2 & Hq2 & Ht2 & E2 & Hs2).
  pose proof (RoundedUp_bounds q1 r1 s1) as B1.
  pose proof (RoundedUp_bounds q2 r2 s2) as B2.
  destruct (Z.lt_trichotomy q1 q2) as [Hlt | [Heq | Hgt]]; [lia | |].
  - subst q2. unfold RoundedUp in *.
    assert (Hrt : Z.b2z r1 * P + t1 <= Z.b2z r2 * P + t2) by nia.
    destruct r1, s1, r2, s2; cbn in *; try lia;
      try destruct (IntDef.Z.even q1); try lia;
      exfalso;
      repeat match goal with
      | H : true = true <-> _ |- _ =>
          let H' := fresh in pose proof (proj1 H eq_refl) as H'; clear H
      | H : false = true <-> _ |- _ =>
          let H' := fresh in
          assert (H' : ~ 0 < _) by (intros X; apply H in X; discriminate); clear H
      end; nia.
  - exfalso. assert (Z.b2z r1 >= 0) by (destruct r1; cbn; lia).
    assert (Z.b2z r2 <= 1) by (destruct r2; cbn; lia). nia.
Qed.

(** *** Rounding a value counted in units of the least subnormal *)

Lemma SFleb_finite (m1 m2 : positive) (e1 e2 : Z) :
  SFleb (S754_finite false m1 e1) (S754_finite false m2 e2) = true
  <-> e1 < e2 \/ (e1 = e2 /\ (m1 <= m2)%positive).
Proof.
  unfold SFleb, SFcompare.
  destruct (Z.compare_spec e1 e2) as [-> | H | H].
  - fold (Pos.compare m1 m2).
    destruct (Pos.compare_spec m1 m2) as [-> | H | H]; split; intros H';
      try reflexivity; try discriminate; try lia.
  - split; [lia | reflexivity].
  - split; [discriminate | lia].
Qed.

Lemma digits2_pos_mono (u1 u2 : positive) :
  (u1 <= u2)%positive -> Z.pos (digits2_pos u1) <= Z.pos (digits2_pos u2).
Proof.
  intros Hu. pose proof (digits2_pos_bounds u1) as [B1 _].
  pose proof (digits2_pos_bounds u2) as [_ B2].
  assert (H : 2 ^ (Z.pos (digits2_pos u1) - 1) < 2 ^ Z.pos (digits2_pos u2)) by lia.
  apply Z.pow_lt_mono_r_iff in H; lia.
Qed.

Lemma binary_round_small (u : positive) :
  Z.pos (digits2_pos u) <= 53 ->
  binary_round prec emax false u (-1074) = S754_finite false u (-1074).
Proof.
  intros Hd. apply binary_round_valid.
  unfold bounded, canonical_mantissa. rewrite fexp_emin.
  apply andb_true_intro. split; [apply Z.eqb_eq; lia | reflexivity].
Qed.

Lemma binary_round_large (u k : positive) :
  Z.pos (digits2_pos u) = 53 + Z.pos k ->
  exists q r s,
    Shifted (Z.pos u) (2 ^ (Z.pos k - 1)) q r s
    /\ 2 ^ 52 <= q < 2 ^ 53
    /\ binary_round prec emax false u (-1074)
       = Renormalised (RoundedUp q r s) (-1074 + Z.pos k).
Proof.
  intros Hd.
  destruct (shr_iter_spec u k) as (q & r & s & Hshr & Hsh).
  exists q, r, s. split; [exact Hsh |].
  assert (HP : 0 < 2 ^ (Z.pos k - 1)) by (apply Z.pow_pos_nonneg; lia).
  assert (Hq : 2 ^ 52 <= q < 2 ^ 53).
  { pose proof (digits2_pos_bounds u) as [Blo Bhi]. rewrite Hd in Blo, Bhi.
    replace (53 + Z.pos k - 1) with (52 + 1 + (Z.pos k - 1)) in Blo by lia.
    replace (53 + Z.pos k) with (53 + 1 + (Z.pos k - 1)) in Bhi by lia.
    rewrite !Z.pow_add_r in Blo, Bhi by lia.
    change (2 ^ 52) with 4503599627370496 in *.
    change (2 ^ 53) with 9007199254740992 in *. change (2 ^ 1) with 2 in *.
    destruct Hsh as (t & Hq0 & Ht & Hu & _).
    assert (0 <= Z.b2z r <= 1) by (destruct r; cbn; lia).
    set (P := 2 ^ (Z.pos k - 1)) in *. nia. }
  split; [exact Hq |].
  unfold binary_round. rewrite Hd, fexp_emin.
  replace (Z.max (53 + Z.pos k + -1074 - 53) (-1074)) with (-1074 + Z.pos k) by lia.
  unfold shl_align. replace (-1074 + Z.pos k - -1074) with (Z.pos k) by lia.
  unfold binary_round_aux. unfold shr_fexp at 1. cbn [Zdigits2 shr_record_of_loc].
  rewrite Hd, fexp_emin.
  replace (Z.max (53 + Z.pos k + -1074 - 53) (-1074) - -1074) with (Z.pos k) by lia.
  cbn [shr]. rewrite Hshr. cbn [shr_m]. fold (RoundedUp q r s).
  pose proof (RoundedUp_bounds q r s) as HM.
  set (M := RoundedUp q r s) in *.
  change (2 ^ 52) with 4503599627370496 in *.
  change (2 ^ 53) with 9007199254740992 in *.
  unfold Renormalised, Packed, shr_fexp. change (2 ^ 53) with 9007199254740992.
  destruct M as [| pm | pm] eqn:EM; try lia. cbn [Zdigits2 shr_record_of_loc].
  destruct (Z.ltb_spec (Z.pos pm) 9007199254740992) as [Hlt | Hge].
  - assert (Hdm : Z.pos (digits2_pos pm) = 53)
      by (apply digits2_pos_unique; [change (2 ^ (53 - 1)) with 4503599627370496;
            change (2 ^ 53) with 9007199254740992; lia | lia]).
    rewrite Hdm, fexp_emin.
    replace (Z.max (53 + (-1074 + Z.pos k) - 53) (-1074) - (-1074 + Z.pos k)) with 0 by lia.
    cbn [shr shr_m]. rewrite Pos2Z.id. reflexivity.
  - assert (pm = 9007199254740992%positive) as -> by lia.
    change (digits2_pos 9007199254740992) with 54%positive. rewrite fexp_emin.
    replace (Z.max (54 + (-1074 + Z.pos k) - 53) (-1074) - (-1074 + Z.pos k)) with 1 by lia.
    cbn [shr]. cbn [SpecFloat.iter_pos shr_1 shr_m]. cbn [shr_m].
    reflexivity.
Qed.

Lemma SFleb_Packed (M1 M2 e1 e2 : Z) :
  0 < M1 -> 0 < M2 -> e1 < e2 \/ (e1 = e2 /\ M1 <= M2) ->
  SFleb (Packed M1 e1) (Packed M2 e2) = true.
Proof.
  intros H1 H2 H. unfold Packed.
  destruct (Z.leb_spec e1 971), (Z.leb_spec e2 971); try reflexivity; [| lia].
  apply SFleb_finite. destruct H as [H | [-> H]]; [now left | right].
  split; [reflexivity |]. lia.
Qed.

Lemma SFleb_Renormalised (M1 M2 e1 e2 : Z) :
  2 ^ 52 <= M1 <= 2 ^ 53 -> 2 ^ 52 <= M2 <= 2 ^ 53 ->
  e1 < e2 \/ (e1 = e2 /\ M1 <= M2) ->
  SFleb (Renormalised M1 e1) (Renormalised M2 e2) = true.
Proof.
  change (2 ^ 52) with 4503599627370496. change (2 ^ 53) with 9007199254740992.
  intros H1 H2 H. unfold Renormalised.
  change (2 ^ 52) with 4503599627370496. change (2 ^ 53) with 9007199254740992.
  destruct (Z.ltb_spec M1 9007199254740992), (Z.ltb_spec M2 9007199254740992);
    apply SFleb_Packed; lia.
Qed.

Lemma SFleb_small_Renormalised (u : positive) (M e : Z) :
  2 ^ 52 <= M <= 2 ^ 53 -> -1074 < e ->
  SFleb (S754_finite false u (-1074)) (Renormalised M e) = true.
Proof.
  change (2 ^ 52) with 4503599627370496. change (2 ^ 53) with 9007199254740992.
  intros HM He.
  change (S754_finite false u (-1074)) with (Packed (Z.pos u) (-1074)).
  unfold Renormalised. change (2 ^ 52) with 4503599627370496.
  destruct (M <? 2 ^ 53); apply SFleb_Packed; lia.
Qed.

Lemma SFleb_zero_Renormalised (M e : Z) :
  SFleb (S754_zero false) (Renormalised M e) = true.
Proof.
  unfold Renormalised, Packed.
  destruct (M <? 2 ^ 53), (e <=? 971), (e + 1 <=? 971); reflexivity.
Qed.

(** The way a positive count of units rounds: it is kept when it has at most
    53 bits, and otherwise shifted, rounded and renormalised. *)
Lemma binary_round_cases (u : positive) :
  (Z.pos (digits2_pos u) <= 53
   /\ binary_round prec emax false u (-1074) = S754_finite false u (-1074))
  \/ (exists k q r s,
        Z.pos (digits2_pos u) = 53 + Z.pos k
        /\ Shifted (Z.pos u) (2 ^ (Z.pos k - 1)) q r s
        /\ 2 ^ 52 <= RoundedUp q r s <= 2 ^ 53
        /\ binary_round prec emax false u (-1074)
           = Renormalised (RoundedUp q r s) (-1074 + Z.pos k)).
Proof.
  destruct (Z_le_gt_dec (Z.pos (digits2_pos u)) 53) as [Hd | Hd].
  - left. split; [exact Hd | now apply binary_round_small].
  - right. set (k := Z.to_pos (Z.pos (digits2_pos u) - 53)).
    assert (Hk : Z.pos (digits2_pos u) = 53 + Z.pos k) by (unfold k; lia).
    destruct (binary_round_large u k Hk) as (q & r & s & Hsh & Hq & E).
    exists k, q, r, s. pose proof (RoundedUp_bounds q r s).
    repeat split; auto; lia.
Qed.

Lemma binary_round_mono (u1 u2 : positive) :
  (u1 <= u2)%positive ->
  SFleb (binary_round prec emax false u1 (-1074))
        (binary_round prec emax false u2 (-1074)) = true.
Proof.
  intros Hu. pose proof (digits2_pos_mono u1 u2 Hu) as Hd.
  destruct (binary_round_cases u1)
    as [[Hd1 ->] | (k1 & q1 & r1 & s1 & Hk1 & Hs1 & HM1 & ->)],
     (binary_round_cases u2)
    as [[Hd2 ->] | (k2 & q2 & r2 & s2 & Hk2 & Hs2 & HM2 & ->)].
  - apply SFleb_finite. right. split; [reflexivity | exact Hu].
  - apply SFleb_small_Renormalised; [exact HM2 | lia].
  - lia.
  - apply SFleb_Renormalised; [exact HM1 | exact HM2 |].
    destruct (Pos.eq_dec k1 k2) as [<- | Hne]; [right | left; lia].
    split; [reflexivity |].
    apply (RoundedUp_mono (Z.pos u1) (Z.pos u2) (2 ^ (Z.pos k1 - 1)));
      [apply Z.pow_pos_nonneg; lia | lia | exact Hs1 | exact Hs2].
Qed.

Lemma binary_round_nonneg (u : positive) :
  SFleb (S754_zero false) (binary_round prec emax false u (-1074)) = true.
Proof.
  destruct (binary_round_cases u) as [[_ ->] | (k & q & r & s & _ & _ & _ & ->)];
    [reflexivity | apply SFleb_zero_Renormalised].
Qed.

Lemma RoundUlps_mono (U1 U2 : Z) :
  0 <= U1 <= U2 -> SFleb (RoundUlps U1) (RoundUlps U2) = true.
Proof.
  intros H. unfold RoundUlps, binary_normalize.
  destruct U1 as [| u1 | u1], U2 as [| u2 | u2]; try lia.
  - reflexivity.
  - apply binary_round_nonneg.
  - apply binary_round_mono. lia.
Qed.

(** *** Sums of doubles that are not negative *)

Lemma bounded_range (m : positive) (e : Z) :
  bounded prec emax m e = true ->
  -1074 <= e <= 971 /\ Z.pos (digits2_pos m) <= 53
  /\ (-1074 < e -> Z.pos (digits2_pos m) = 53).
Proof.
  unfold bounded, canonical_mantissa. intros H.
  apply andb_prop in H as [Hc He]. apply Z.eqb_eq in Hc. apply Z.leb_le in He.
  rewrite fexp_emin in Hc. unfold prec, emax in He. lia.
Qed.

Lemma Ulps_nonneg (x : spec_float) : 0 <= Ulps x.
Proof.
  destruct x as [s | s | | [|] m e]; cbn [Ulps]; try lia.
Qed.

Lemma shl_align_value (m : positive) (e ez : Z) :
  ez <= e -> Z.pos (fst (shl_align m e ez)) = Z.pos m * 2 ^ (e - ez).
Proof.
  intros H. unfold shl_align.
  destruct (ez - e) as [| k | k] eqn:Hk; cbn [fst]; try lia.
  - replace (e - ez) with 0 by lia. cbn. lia.
  - rewrite shift_value. do 2 f_equal. lia.
Qed.

Lemma binary_round_ulps (m : positive) (e : Z) :
  -1074 <= e ->
  binary_round prec emax false m e = RoundUlps (Z.pos m * 2 ^ (e + 1074)).
Proof.
  intros He. unfold RoundUlps.
  destruct (e + 1074) as [| j | j] eqn:Hj; try lia.
  - replace e with (-1074) by lia. cbn [Z.pow]. rewrite Z.mul_1_r. reflexivity.
  - rewrite <- shift_value. cbn [binary_normalize].
    replace (-1074) with (e - Z.pos j) by lia. now rewrite binary_round_shift.
Qed.

Lemma SFadd_finite_ulps (ma mc : positive) (ea ec : Z) :
  -1074 <= ea -> -1074 <= ec ->
  SFadd prec emax (S754_finite false ma ea) (S754_finite false mc ec)
  = RoundUlps (Ulps (S754_finite false ma ea) + Ulps (S754_finite false mc ec)).
Proof.
  intros Ha Hc. cbn [SFadd cond_Zopp Ulps].
  change IntDef.Z.min with Z.min. set (ez := Z.min ea ec).
  rewrite !shl_align_value by (unfold ez; lia).
  assert (Hpa : 0 < 2 ^ (ea - ez)) by (apply Z.pow_pos_nonneg; unfold ez; lia).
  assert (Hpc : 0 < 2 ^ (ec - ez)) by (apply Z.pow_pos_nonneg; unfold ez; lia).
  destruct (Z.pos ma * 2 ^ (ea - ez) + Z.pos mc * 2 ^ (ec - ez)) as [| s | s] eqn:Hs;
    try nia.
  cbn [binary_normalize]. rewrite binary_round_ulps by (unfold ez; lia).
  f_equal. rewrite <- Hs, Z.mul_add_distr_r, <- !Z.mul_assoc, <- !Z.pow_add_r
    by (unfold ez; lia).
  do 2 f_equal; f_equal; lia.
Qed.

Lemma SFcompare_zero_l (s : bool) (y : spec_float) :
  SFcompare (S754_zero s) y = SFcompare (S754_zero false) y.
Proof. destruct y; reflexivity. Qed.

Lemma RoundUlps_finite (m : positive) (e : Z) :
  bounded prec emax m e = true ->
  RoundUlps (Ulps (S754_finite false m e)) = S754_finite false m e.
Proof.
  intros H. pose proof (bounded_range m e H) as (He & _).
  cbn [Ulps]. rewrite <- binary_round_ulps by lia. now apply binary_round_valid.
Qed.

(** A sum of two such doubles is the rounding of the sum of their values
    (up to the sign of a zero, which no comparison sees). *)
Lemma SFadd_ulps (A C : spec_float) :
  FiniteNonneg A -> FiniteNonneg C ->
  forall y, SFcompare (SFadd prec emax A C) y
            = SFcompare (RoundUlps (Ulps A + Ulps C)) y.
Proof.
  intros HA HC y.
  destruct A as [sa | sa | | [|] ma ea], C as [sc | sc | | [|] mc ec];
    cbn [FiniteNonneg] in HA, HC; try contradiction.
  - cbn [Ulps]. change (RoundUlps (0 + 0)) with (S754_zero false).
    destruct sa, sc; cbn [SFadd]; apply SFcompare_zero_l.
  - cbn [SFadd]. change (Ulps (S754_zero sa)) with 0. rewrite Z.add_0_l.
    now rewrite RoundUlps_finite.
  - cbn [SFadd]. change (Ulps (S754_zero sc)) with 0. rewrite Z.add_0_r.
    now rewrite RoundUlps_finite.
  - pose proof (bounded_range _ _ HA) as (Ha & _).
    pose proof (bounded_range _ _ HC) as (Hc & _).
    rewrite SFadd_finite_ulps by lia. reflexivity.
Qed.

Lemma SFleb_ulps (A B : spec_float) :
  FiniteNonneg A -> FiniteNonneg B -> SFleb A B = true -> Ulps A <= Ulps B.
Proof.
  intros HA HB Hle.
  destruct A as [sa | sa | | [|] ma ea]; cbn [FiniteNonneg] in HA; try contradiction;
    [apply Ulps_nonneg |].
  destruct B as [sb | sb | | [|] mb eb]; cbn [FiniteNonneg] in HB; try contradiction;
    [discriminate |].
  apply SFleb_finite in Hle. cbn [Ulps].
  pose proof (bounded_range _ _ HA) as (Ha & Hda & _).
  pose proof (bounded_range _ _ HB) as (Hb & _ & Hdb).
  destruct Hle as [Hlt | [-> Hm]].
  - specialize (Hdb ltac:(lia)).
    pose proof (digits2_pos_bounds ma) as [_ Ba].
    pose proof (digits2_pos_bounds mb) as [Bb _]. rewrite Hdb in Bb.
    assert (Hma : Z.pos ma < 2 ^ 53).
    { eapply Z.lt_le_trans; [exact Ba |]. apply Z.pow_le_mono_r; lia. }
    change (2 ^ (53 - 1)) with 4503599627370496 in Bb.
    change (2 ^ 53) with 9007199254740992 in Hma.
    replace (eb + 1074) with ((ea + 1074) + (eb - ea)) by lia.
    rewrite (Z.pow_add_r 2 (ea + 1074) (eb - ea)) by lia.
    assert (0 < 2 ^ (ea + 1074)) by (apply Z.pow_pos_nonneg; lia).
    assert (2 ^ 1 <= 2 ^ (eb - ea)) by (apply Z.pow_le_mono_r; lia).
    change (2 ^ 1) with 2 in *.
    set (X := 2 ^ (ea + 1074)) in *. set (Y := 2 ^ (eb - ea)) in *.
    assert (H1 : Z.pos ma * X <= 9007199254740992 * X)
      by (apply Z.mul_le_mono_nonneg_r; lia).
    assert (H2 : 2 * X <= X * Y) by nia.
    assert (H3 : 4503599627370496 * (X * Y) <= Z.pos mb * (X * Y))
      by (apply Z.mul_le_mono_nonneg_r; nia).
    lia.
  - apply Z.mul_le_mono_nonneg_r; [apply Z.pow_nonneg; lia | lia].
Qed.

Lemma RoundUlps_le_infinity (U : Z) :
  0 <= U -> SFleb (RoundUlps U) (S754_infinity false) = true.
Proof.
  intros HU. unfold RoundUlps, binary_normalize.
  destruct U as [| u | u]; try lia; [reflexivity |].
  destruct (binary_round_cases u) as [[_ ->] | (k & q & r & s & _ & _ & _ & ->)];
    [reflexivity |].
  generalize (RoundedUp q r s) (-1074 + Z.pos k). intros M e.
  unfold Renormalised, Packed.
  destruct (M <? 2 ^ 53), (e <=? 971), (e + 1 <=? 971); reflexivity.
Qed.

Lemma Nonneg_cases (x : spec_float) :
  Nonneg x -> FiniteNonneg x \/ x = S754_infinity false.
Proof.
  intros [Hv Hle].
  destruct x as [s | [|] | | [|] m e]; cbn in *; try discriminate; auto.
Qed.

Lemma SFadd_le_infinity (A C : spec_float) :
  Nonneg A -> Nonneg C ->
  SFleb (SFadd prec emax A C) (S754_infinity false) = true.
Proof.
  intros HA HC.
  destruct (Nonneg_cases A HA) as [FA | ->], (Nonneg_cases C HC) as [FC | ->].
  - unfold SFleb. rewrite SFadd_ulps by assumption.
    apply RoundUlps_le_infinity.
    pose proof (Ulps_nonneg A). pose proof (Ulps_nonneg C). lia.
  - destruct A as [sa | sa | | [|] ma ea]; cbn in FA; try contradiction; reflexivity.
  - destruct C as [sa | sa | | [|] ma ea]; cbn in FC; try contradiction; reflexivity.
  - reflexivity.
Qed.

Lemma SFadd_infinity (B D : spec_float) :
  Nonneg B -> Nonneg D ->
  B = S754_infinity false \/ D = S754_infinity false ->
  SFadd prec emax B D = S754_infinity false.
Proof.
  intros HB HD H.
  destruct (Nonneg_cases B HB) as [FB | ->], (Nonneg_cases D HD) as [FD | ->];
    try reflexivity.
  - destruct H as [-> | ->]; contradiction.
  - destruct B as [sa | sa | | [|] ma ea]; cbn in FB; try contradiction; reflexivity.
  - destruct D as [sa | sa | | [|] ma ea]; cbn in FD; try contradiction; reflexivity.
Qed.

Lemma SFleb_finite_below (A B : spec_float) :
  Nonneg A -> FiniteNonneg B -> SFleb A B = true -> FiniteNonneg A.
Proof.
  intros HA FB Hle. destruct (Nonneg_cases A HA) as [FA | ->]; [exact FA |].
  destruct B as [sa | sa | | [|] ma ea]; cbn in FB; try contradiction; discriminate.
Qed.

(** Sums of doubles that are not negative are monotone. *)
Lemma SFadd_mono (A B C D : spec_float) :
  Nonneg A -> Nonneg B -> Nonneg C -> Nonneg D ->
  SFleb A B = true -> SFleb C D = true ->
  SFleb (SFadd prec emax A C) (SFadd prec emax B D) = true.
Proof.
  intros HA HB HC HD HAB HCD.
  destruct (Nonneg_cases B HB) as [FB | EB].
  - destruct (Nonneg_cases D HD) as [FD | ED].
    + pose proof (SFleb_finite_below A B HA FB HAB) as FA.
      pose proof (SFleb_finite_below C D HC FD HCD) as FC.
      unfold SFleb. rewrite SFadd_ulps by assumption.
      pose proof (SFcompare_swap (RoundUlps (Ulps A + Ulps C))
                    (SFadd prec emax B D)) as Hsw.
      rewrite SFadd_ulps in Hsw by assumption.
      pose proof (SFcompare_swap (RoundUlps (Ulps A + Ulps C))
                    (RoundUlps (Ulps B + Ulps D))) as Hsw'.
      rewrite Hsw in Hsw'.
      assert (E : SFcompare (RoundUlps (Ulps A + Ulps C)) (SFadd prec emax B D)
                  = SFcompare (RoundUlps (Ulps A + Ulps C))
                      (RoundUlps (Ulps B + Ulps D))).
      { destruct (SFcompare (RoundUlps (Ulps A + Ulps C)) (SFadd prec emax B D))
          as [[| |] |],
          (SFcompare (RoundUlps (Ulps A + Ulps C)) (RoundUlps (Ulps B + Ulps D)))
          as [[| |] |]; cbn in Hsw'; congruence. }
      rewrite E. apply RoundUlps_mono.
      pose proof (SFleb_ulps A B FA FB HAB). pose proof (SFleb_ulps C D FC FD HCD).
      pose proof (Ulps_nonneg A). pose proof (Ulps_nonneg C). lia.
    + rewrite (SFadd_infinity B D) by auto. now apply SFadd_le_infinity.
  - rewrite (SFadd_infinity B D) by auto. now apply SFadd_le_infinity.
Qed.

Lemma SFmul_one (X : spec_float) :
  Nonneg X ->
  SFmul prec emax X (S754_finite false 4503599627370496 (-52)) = X.
Proof.
  intros HX. destruct (Nonneg_cases X HX) as [FX | ->]; [| reflexivity].
  destruct X as [s | s | | [|] m e]; cbn [FiniteNonneg] in FX; try contradiction.
  - cbn. now rewrite xorb_false_r.
  - cbn [SFmul xorb].
    assert (E : (m * 4503599627370496)%positive = Pos.iter xO m 52).
    { apply Pos2Z.inj. rewrite shift_value, Pos2Z.inj_mul. reflexivity. }
    rewrite E. change (e + -52) with (e - Z.pos 52).
    rewrite binary_round_aux_shift.
    + now apply binary_round_aux_valid.
    + unfold bounded, canonical_mantissa in FX.
      apply andb_prop in FX as [Hc _]. apply Z.eqb_eq in Hc. lia.
Qed.

(** *** Rounding a value counted in units of the least product *)

Lemma binary_round_fine_cases (u : positive) :
  exists k q r s,
    Z.pos k = Z.max (Z.pos (digits2_pos u) - 53) 1074
    /\ Shifted (Z.pos u) (2 ^ (Z.pos k - 1)) q r s
    /\ 0 <= RoundedUp q r s <= 2 ^ 53
    /\ (1074 < Z.pos k -> 2 ^ 52 <= q)
    /\ binary_round prec emax false u (-2148)
       = Rounded (RoundedUp q r s) (-2148 + Z.pos k).
Proof.
  set (d := Z.pos (digits2_pos u)).
  set (k := Z.to_pos (Z.max (d - 53) 1074)).
  assert (Hk : Z.pos k = Z.max (d - 53) 1074) by (unfold k; lia).
  destruct (shr_iter_spec u k) as (q & r & s & Hshr & Hsh).
  exists k, q, r, s. split; [exact Hk |]. split; [exact Hsh |].
  assert (HP : 0 < 2 ^ (Z.pos k - 1)) by (apply Z.pow_pos_nonneg; lia).
  pose proof (digits2_pos_bounds u) as [Blo Bhi]. fold d in Blo, Bhi.
  pose proof (RoundedUp_bounds q r s) as HM.
  assert (Hq : 0 <= q < 2 ^ 53 /\ (1074 < Z.pos k -> 2 ^ 52 <= q)).
  { destruct Hsh as (t & Hq0 & Ht & Hu & _).
    assert (Hr : 0 <= Z.b2z r <= 1) by (destruct r; cbn; lia).
    set (P := 2 ^ (Z.pos k - 1)) in *.
    assert (Hd : 2 ^ d <= 2 ^ 53 * (2 * P)).
    { unfold P. rewrite <- (Z.pow_succ_r 2 (Z.pos k - 1)) by lia.
      rewrite <- Z.pow_add_r by lia. apply Z.pow_le_mono_r; lia. }
    split; [split; [exact Hq0 | nia] |].
    intros Hbig.
    assert (Hd' : 2 ^ (d - 1) = 2 ^ 52 * (2 * P)).
    { unfold P. rewrite <- (Z.pow_succ_r 2 (Z.pos k - 1)) by lia.
      rewrite <- Z.pow_add_r by lia. f_equal. lia. }
    change (2 ^ 52) with 4503599627370496 in *. nia. }
  destruct Hq as [Hq Hbig].
  split; [lia |]. split; [exact Hbig |].
  unfold binary_round. fold d. rewrite fexp_emin.
  unfold shl_align.
  destruct (Z.max (d + -2148 - 53) (-1074) - -2148) as [| a | a] eqn:Ha; try lia.
  unfold binary_round_aux. unfold shr_fexp at 1. cbn [Zdigits2 shr_record_of_loc].
  fold d. rewrite fexp_emin.
  replace (Z.max (d + -2148 - 53) (-1074) - -2148) with (Z.pos k) by lia.
  replace (Z.max (d + -2148 - 53) (-1074)) with (-2148 + Z.pos k) by lia.
  cbn [shr]. rewrite Hshr. cbn [shr_m]. fold (RoundedUp q r s).
  set (M := RoundedUp q r s) in *.
  change (2 ^ 53) with 9007199254740992 in *.
  unfold Rounded, Renormalised, Packed, shr_fexp.
  change (2 ^ 53) with 9007199254740992.
  destruct M as [| pm | pm] eqn:EM; try lia.
  { cbn [Z.eqb Zdigits2 shr_record_of_loc]. rewrite fexp_emin.
    destruct (Z.max (0 + (-2148 + Z.pos k) - 53) (-1074) - (-2148 + Z.pos k))
      as [| b | b] eqn:Hb; try lia; reflexivity. }
  cbn [Z.eqb Zdigits2 shr_record_of_loc].
  destruct (Z.ltb_spec (Z.pos pm) 9007199254740992) as [Hlt | Hge].
  - assert (Hdm : Z.pos (digits2_pos pm) <= 53).
    { pose proof (digits2_pos_bounds pm) as [B1 _].
      destruct (Z_le_gt_dec (Z.pos (digits2_pos pm)) 53) as [H | H]; [exact H |].
      exfalso. assert (2 ^ 53 <= 2 ^ (Z.pos (digits2_pos pm) - 1))
        by (apply Z.pow_le_mono_r; lia).
      change (2 ^ 53) with 9007199254740992 in *. lia. }
    assert (Hnormal : 1074 < Z.pos k -> Z.pos (digits2_pos pm) = 53).
    { intros Hb. specialize (Hbig Hb).
      apply digits2_pos_unique; [| lia].
      change (2 ^ (53 - 1)) with 4503599627370496.
      change (2 ^ 52) with 4503599627370496 in Hbig.
      change (2 ^ 53) with 9007199254740992. lia. }
    rewrite fexp_emin.
    destruct (Z.max (Z.pos (digits2_pos pm) + (-2148 + Z.pos k) - 53) (-1074)
              - (-2148 + Z.pos k)) as [| b | b] eqn:Hb;
      [| exfalso; destruct (Z_le_gt_dec (Z.pos k) 1074); [lia |];
         specialize (Hnormal ltac:(lia)); lia |];
      cbn [shr shr_m]; rewrite ?Pos2Z.id;
      replace (Z.max (Z.pos (digits2_pos pm) + (-2148 + Z.pos k) - 53) (-1074))
        with (-2148 + Z.pos k) by lia; reflexivity.
  - assert (pm = 9007199254740992%positive) as -> by lia.
    change (digits2_pos 9007199254740992) with 54%positive. rewrite fexp_emin.
    replace (Z.max (54 + (-2148 + Z.pos k) - 53) (-1074) - (-2148 + Z.pos k))
      with 1 by lia.
    cbn [shr]. cbn [SpecFloat.iter_pos shr_1 shr_m]. cbn [shr_m].
    replace (Z.max (54 + (-2148 + Z.pos k) - 53) (-1074))
      with (-2148 + Z.pos k + 1) by lia.
    reflexivity.
Qed.

Lemma SFleb_Renormalised_same (M1 M2 e : Z) :
  0 < M1 <= M2 -> M2 <= 2 ^ 53 ->
  SFleb (Renormalised M1 e) (Renormalised M2 e) = true.
Proof.
  change (2 ^ 53) with 9007199254740992.
  intros H1 H2. unfold Renormalised.
  change (2 ^ 52) with 4503599627370496. change (2 ^ 53) with 9007199254740992.
  destruct (Z.ltb_spec M1 9007199254740992), (Z.ltb_spec M2 9007199254740992);
    apply SFleb_Packed; lia.
Qed.

Lemma SFleb_Renormalised_below (M1 M2 e1 e2 : Z) :
  0 < M1 <= 2 ^ 53 -> 2 ^ 52 <= M2 <= 2 ^ 53 -> e1 < e2 ->
  SFleb (Renormalised M1 e1) (Renormalised M2 e2) = true.
Proof.
  change (2 ^ 52) with 4503599627370496. change (2 ^ 53) with 9007199254740992.
  intros H1 H2 He. unfold Renormalised.
  change (2 ^ 52) with 4503599627370496. change (2 ^ 53) with 9007199254740992.
  destruct (Z.ltb_spec M1 9007199254740992), (Z.ltb_spec M2 9007199254740992);
    apply SFleb_Packed; lia.
Qed.

Lemma SFleb_zero_Rounded (M e : Z) :
  SFleb (S754_zero false) (Rounded M e) = true.
Proof.
  unfold Rounded. destruct (M =? 0); [reflexivity | apply SFleb_zero_Renormalised].
Qed.

Lemma binary_round_fine_mono (u1 u2 : positive) :
  (u1 <= u2)%positive ->
  SFleb (binary_round prec emax false u1 (-2148))
        (binary_round prec emax false u2 (-2148)) = true.
Proof.
  intros Hu. pose proof (digits2_pos_mono u1 u2 Hu) as Hd.
  destruct (binary_round_fine_cases u1)
    as (k1 & q1 & r1 & s1 & Hk1 & Hs1 & HM1 & Hn1 & ->),
     (binary_round_fine_cases u2)
    as (k2 & q2 & r2 & s2 & Hk2 & Hs2 & HM2 & Hn2 & ->).
  pose proof (RoundedUp_bounds q2 r2 s2) as HB2.
  unfold Rounded at 1.
  destruct (Z.eqb_spec (RoundedUp q1 r1 s1) 0) as [E1 | N1];
    [apply SFleb_zero_Rounded |].
  destruct (Pos.eq_dec k1 k2) as [<- | Hne].
  - assert (Hle : RoundedUp q1 r1 s1 <= RoundedUp q2 r2 s2).
    { apply (RoundedUp_mono (Z.pos u1) (Z.pos u2) (2 ^ (Z.pos k1 - 1)));
        [apply Z.pow_pos_nonneg; lia | lia | exact Hs1 | exact Hs2]. }
    unfold Rounded.
    destruct (Z.eqb_spec (RoundedUp q2 r2 s2) 0) as [E2 | N2]; [lia |].
    apply SFleb_Renormalised_same; lia.
  - assert (Hlt : Z.pos k1 < Z.pos k2) by lia.
    specialize (Hn2 ltac:(lia)).
    unfold Rounded.
    destruct (Z.eqb_spec (RoundedUp q2 r2 s2) 0) as [E2 | N2];
      [change (2 ^ 52) with 4503599627370496 in Hn2; lia |].
    apply SFleb_Renormalised_below; lia.
Qed.

Lemma RoundFine_nonneg (U : Z) :
  0 <= U -> SFleb (S754_zero false) (RoundFine U) = true.
Proof.
  intros HU. unfold RoundFine, binary_normalize.
  destruct U as [| u | u]; try lia; [reflexivity |].
  destruct (binary_round_fine_cases u) as (k & q & r & s & _ & _ & _ & _ & ->).
  apply SFleb_zero_Rounded.
Qed.

Lemma RoundFine_mono (U1 U2 : Z) :
  0 <= U1 <= U2 -> SFleb (RoundFine U1) (RoundFine U2) = true.
Proof.
  intros H. destruct U1 as [| u1 | u1]; try lia.
  - apply RoundFine_nonneg. lia.
  - destruct U2 as [| u2 | u2]; try lia.
    unfold RoundFine, binary_normalize. apply binary_round_fine_mono. lia.
Qed.

(** *** Products of doubles that are not negative *)

Lemma digits2_pos_mul (mx my : positive) :
  Z.pos (digits2_pos mx) + Z.pos (digits2_pos my) - 1
  <= Z.pos (digits2_pos (mx * my)).
Proof.
  pose proof (digits2_pos_bounds mx) as [Bx _].
  pose proof (digits2_pos_bounds my) as [By _].
  pose proof (digits2_pos_bounds (mx * my)) as [_ Bxy].
  set (dx := Z.pos (digits2_pos mx)) in *. set (dy := Z.pos (digits2_pos my)) in *.
  set (d := Z.pos (digits2_pos (mx * my))) in *.
  assert (H : 2 ^ (dx - 1 + (dy - 1)) < 2 ^ d).
  { rewrite Z.pow_add_r by (unfold dx, dy; lia).
    assert (0 < 2 ^ (dx - 1)) by (apply Z.pow_pos_nonneg; unfold dx; lia).
    assert (0 < 2 ^ (dy - 1)) by (apply Z.pow_pos_nonneg; unfold dy; lia).
    rewrite Pos2Z.inj_mul in Bxy. nia. }
  apply Z.pow_lt_mono_r_iff in H; unfold d; lia.
Qed.

(** The product of two valid doubles is exact before it is rounded, so it is
    the rounding of the product of their values. *)
Lemma SFmul_finite_fine (mx my : positive) (ex ey : Z) :
  bounded prec emax mx ex = true -> bounded prec emax my ey = true ->
  SFmul prec emax (S754_finite false mx ex) (S754_finite false my ey)
  = RoundFine (Ulps (S754_finite false mx ex) * Ulps (S754_finite false my ey)).
Proof.
  intros Hx Hy.
  pose proof (bounded_range _ _ Hx) as (Hex & Hdx & Hnx).
  pose proof (bounded_range _ _ Hy) as (Hey & Hdy & Hny).
  pose proof (digits2_pos_mul mx my) as Hd.
  assert (Hfit : ex + ey <= fexp prec emax (Z.pos (digits2_pos (mx * my)) + (ex + ey))).
  { rewrite fexp_emin.
    destruct (Z_le_gt_dec 53 (Z.pos (digits2_pos (mx * my)))) as [H | H]; [lia |].
    destruct (Z.eq_dec ex (-1074)) as [Ex | Nx]; [| specialize (Hnx ltac:(lia)); lia].
    destruct (Z.eq_dec ey (-1074)) as [Ey | Ny]; [| specialize (Hny ltac:(lia)); lia].
    lia. }
  cbn [SFmul xorb Ulps].
  replace (Z.pos mx * 2 ^ (ex + 1074) * (Z.pos my * 2 ^ (ey + 1074)))
    with (Z.pos (mx * my) * 2 ^ (ex + ey + 2148)).
  2:{ replace (ex + ey + 2148) with ((ex + 1074) + (ey + 1074)) by lia.
      rewrite Z.pow_add_r, Pos2Z.inj_mul by lia. ring. }
  unfold RoundFine.
  assert (Hnoshift : forall u : positive,
             binary_round prec emax false u (-2148)
             = binary_round_aux prec emax false (Z.pos u) (-2148) loc_Exact).
  { intros u. unfold binary_round. rewrite fexp_emin. unfold shl_align.
    destruct (Z.max (Z.pos (digits2_pos u) + -2148 - 53) (-1074) - -2148)
      as [| a | a] eqn:Ha; try lia. reflexivity. }
  destruct (ex + ey + 2148) as [| i | i] eqn:Hi; try lia.
  - cbn [Z.pow]. rewrite Z.mul_1_r. cbn [binary_normalize].
    rewrite Hnoshift. f_equal. lia.
  - rewrite <- shift_value. cbn [binary_normalize]. rewrite Hnoshift.
    replace (-2148) with (ex + ey - Z.pos i) by lia.
    now rewrite binary_round_aux_shift.
Qed.

(** A product of two such doubles is the rounding of the product of their
    values (up to the sign of a zero, which no comparison sees). *)
Lemma SFmul_ulps (A C : spec_float) :
  FiniteNonneg A -> FiniteNonneg C ->
  forall y, SFcompare (SFmul prec emax A C) y
            = SFcompare (RoundFine (Ulps A * Ulps C)) y.
Proof.
  intros HA HC y.
  destruct A as [sa | sa | | [|] ma ea], C as [sc | sc | | [|] mc ec];
    cbn [FiniteNonneg] in HA, HC; try contradiction.
  - cbn [SFmul Ulps]. apply SFcompare_zero_l.
  - cbn [SFmul Ulps]. apply SFcompare_zero_l.
  - cbn [SFmul]. change (Ulps (S754_zero sc)) with 0. rewrite Z.mul_0_r.
    apply SFcompare_zero_l.
  - now rewrite SFmul_finite_fine.
Qed.

Lemma SFleb_compare (X X' Y Y' : spec_float) :
  (forall y, SFcompare X y = SFcompare X' y) ->
  (forall y, SFcompare Y y = SFcompare Y' y) ->
  SFleb X Y = SFleb X' Y'.
Proof.
  intros HX HY. unfold SFleb. rewrite HX.
  pose proof (SFcompare_swap X' Y) as H1. rewrite HY in H1.
  pose proof (SFcompare_swap X' Y') as H2. rewrite H1 in H2.
  destruct (SFcompare X' Y) as [[| |] |], (SFcompare X' Y') as [[| |] |];
    cbn in H2; congruence.
Qed.

Lemma SFmul_nonneg (A C : spec_float) :
  FiniteNonneg A -> FiniteNonneg C ->
  SFleb (S754_zero false) (SFmul prec emax A C) = true.
Proof.
  intros HA HC.
  rewrite (SFleb_compare _ (S754_zero false) _ (RoundFine (Ulps A * Ulps C)));
    [| reflexivity | now apply SFmul_ulps].
  apply RoundFine_nonneg.
  pose proof (Ulps_nonneg A). pose proof (Ulps_nonneg C). nia.
Qed.

(** Products of finite doubles that are not negative are monotone. *)
Lemma SFmul_mono (A B C D : spec_float) :
  Nonneg A -> FiniteNonneg B -> Nonneg C -> FiniteNonneg D ->
  SFleb A B = true -> SFleb C D = true ->
  SFleb (SFmul prec emax A C) (SFmul prec emax B D) = true.
Proof.
  intros HA FB HC FD HAB HCD.
  pose proof (SFleb_finite_below A B HA FB HAB) as FA.
  pose proof (SFleb_finite_below C D HC FD HCD) as FC.
  rewrite (SFleb_compare _ (RoundFine (Ulps A * Ulps C))
             _ (RoundFine (Ulps B * Ulps D)));
    [| now apply SFmul_ulps | now apply SFmul_ulps].
  apply RoundFine_mono.
  pose proof (SFleb_ulps A B FA FB HAB). pose proof (SFleb_ulps C D FC FD HCD).
  pose proof (Ulps_nonneg A). pose proof (Ulps_nonneg C). nia.
Qed.

(** A double that is at least zero and not an infinity is finite. *)

Lemma is_infinity_Prim2SF (x : float) (s : bool) :
  PrimFloat.is_infinity x = false -> Prim2SF x <> S754_infinity s.
Proof.
  unfold PrimFloat.is_infinity.
  rewrite FloatAxioms.eqb_spec, FloatAxioms.abs_spec. intros H E.
  rewrite E in H. discriminate.
Qed.

Lemma Nonneg_finite (x : float) :
  PrimFloat.leb 0 x = true -> PrimFloat.is_infinity x = false ->
  FiniteNonneg (Prim2SF x).
Proof.
  intros H0 Hi. rewrite FloatAxioms.leb_spec in H0.
  destruct (Nonneg_cases (Prim2SF x)) as [F | E]; [| exact F |].
  - split; [apply Prim2SF_valid | exact H0].
  - now destruct (is_infinity_Prim2SF x false Hi).
Qed.

Section UnitSteps.
Import BinInteraction.

Lemma RepeatedSum_one_double (n : nat) :
  Z.of_nat n < 2 ^ 53 ->
  Prim2SF (RepeatedSum 1%float n) = IntegerAsDouble (Z.of_nat n).
Proof.
  induction n as [| n IH]; intros Hn; [reflexivity |].
  change (RepeatedSum 1%float (S n))
    with (PrimFloat.add (RepeatedSum 1%float n) 1%float).
  rewrite FloatAxioms.add_spec, IH by lia.
  change (Prim2SF 1) with (S754_finite false 4503599627370496 (-52)).
  destruct n as [| n']; [reflexivity |].
  apply (ExactInteger_unique (Z.of_nat (S (S n')))).
  - replace (Z.of_nat (S (S n'))) with (Z.of_nat (S n') + 1) by lia.
    apply SFadd_one_exact; [lia | lia |]. apply IntegerAsDouble_exact. lia.
  - apply IntegerAsDouble_exact. lia.
Qed.

(** In binary64 the weight the kernel reaches by adding [1.0] once per
    sample is the count itself: the double a conversion of the count gives,
    and exactly that integer. *)
Lemma CountAsFloat_double (cSamples : Z) :
  0 < cSamples < 2 ^ 53 ->
  CountAsFloat cSamples = PrimFloat.of_uint63 (Uint63.of_Z cSamples)
  /\ ExactInteger cSamples (Prim2SF (CountAsFloat (FloatFast := float) cSamples)).
Proof.
  intros Hc. unfold CountAsFloat.
  assert (E : Prim2SF (RepeatedSum 1%float (Z.to_nat cSamples)) = IntegerAsDouble cSamples).
  { rewrite RepeatedSum_one_double by lia. f_equal. lia. }
  split.
  - apply Prim2SF_inj. cbn [fone double_ops]. rewrite E, FloatAxioms.of_uint63_spec.
    unfold IntegerAsDouble. f_equal. rewrite Uint63.of_Z_spec. symmetry. apply Z.mod_small.
    assert (2 ^ 53 < Uint63.wB) by reflexivity. lia.
  - cbn [fone double_ops]. rewrite E. apply IntegerAsDouble_exact. exact Hc.
Qed.

(** A quarter of an exact integer, and what a further quarter adds. *)
Lemma SFmul_quarter_exact (n : Z) (X : spec_float) :
  ExactInteger n X ->
  exists Y, SFmul prec emax (S754_finite false 4503599627370496 (-54)) X = Y
            /\ FiniteNonneg Y /\ Ulps Y = n * 2 ^ 1072
            /\ RoundUlps (Ulps Y) = Y.
Proof.
  intros (m & e & -> & Hd & He & Hm).
  assert (Hb : bounded prec emax m (e - 2) = true).
  { unfold bounded, canonical_mantissa. rewrite Hd, fexp_emin.
    apply andb_true_intro. split; [apply Z.eqb_eq; lia | apply Z.leb_le].
    unfold prec, emax. lia. }
  exists (S754_finite false m (e - 2)). split; [| split; [exact Hb | split]].
  - cbn [SFmul xorb].
    assert (E : (4503599627370496 * m)%positive = Pos.iter xO m 52).
    { apply Pos2Z.inj. rewrite shift_value, Pos2Z.inj_mul.
      change (2 ^ Z.pos 52) with (Z.pos 4503599627370496). lia. }
    rewrite E. replace (-54 + e) with (e - 2 - Z.pos 52) by lia.
    rewrite binary_round_aux_shift by (rewrite Hd, fexp_emin; lia).
    now apply binary_round_aux_valid.
  - cbn [Ulps]. rewrite Hm, <- Z.mul_assoc, <- Z.pow_add_r by lia.
    do 2 f_equal. lia.
  - now apply RoundUlps_finite.
Qed.

Lemma RepeatedSum_quarter_double (n : nat) :
  Z.of_nat n < 2 ^ 53 ->
  Prim2SF (RepeatedSum 0.25%float n)
  = SFmul prec emax (Prim2SF 0.25) (IntegerAsDouble (Z.of_nat n)).
Proof.
  induction n as [| n IH]; intros Hn; [reflexivity |].
  change (RepeatedSum 0.25%float (S n))
    with (PrimFloat.add (RepeatedSum 0.25%float n) 0.25%float).
  rewrite FloatAxioms.add_spec, IH by lia.
  change (Prim2SF 0.25) with (S754_finite false 4503599627370496 (-54)).
  destruct n as [| n']; [reflexivity |].
  assert (H1 : 0 < Z.of_nat (S n') < 2 ^ 53) by lia.
  assert (H2 : 0 < Z.of_nat (S (S n')) < 2 ^ 53) by lia.
  destruct (SFmul_quarter_exact _ _ (IntegerAsDouble_exact _ H1))
    as (Y & -> & FY & UY & _).
  destruct (SFmul_quarter_exact _ _ (IntegerAsDouble_exact _ H2))
    as (Y' & -> & FY' & UY' & RY').
  rewrite <- RY', UY'.
  destruct Y as [s | s | | [|] m e]; cbn [FiniteNonneg] in FY; try contradiction.
  - cbn [Ulps] in UY. lia.
  - pose proof (bounded_range _ _ FY) as (He & _).
    unfold SF64add. rewrite SFadd_finite_ulps by lia. rewrite UY.
    f_equal. change (Ulps (S754_finite false 4503599627370496 (-54))) with (2 ^ 1072).
    lia.
Qed.

(** In binary64 the bound [0.25] added up count times is [0.25 * count]. *)
Lemma quarter_bound_double (cSamples : Z) :
  0 <= cSamples < 2 ^ 53 ->
  RepeatedSum 0.25%float (Z.to_nat cSamples)
  = (0.25 * PrimFloat.of_uint63 (Uint63.of_Z cSamples))%float.
Proof.
  intros Hc. apply Prim2SF_inj.
  rewrite RepeatedSum_quarter_double, FloatAxioms.mul_spec by lia.
  rewrite FloatAxioms.of_uint63_spec, Uint63.of_Z_spec, Z.mod_small.
  - unfold IntegerAsDouble. do 2 f_equal. lia.
  - assert (2 ^ 53 < Uint63.wB) by reflexivity. lia.
Qed.

Lemma SFleb_zero_trans (A B : spec_float) :
  SFleb (S754_zero false) A = true -> SFleb A B = true ->
  SFleb (S754_zero false) B = true.
Proof.
  destruct A as [sa | [|] | | [|] ma ea], B as [sb | [|] | | [|] mb eb]; cbn;
    intros H1 H2; try reflexivity; try discriminate.
Qed.

(** Binary64 has monotone sums. *)
Lemma double_monotone_sums : @MonotoneSums float double_ops.
Proof.
  split; cbn [fzero fone fadd fmul fle double_ops].
  - reflexivity.
  - reflexivity.
  - intros x Hx. rewrite FloatAxioms.leb_spec in Hx.
    apply Prim2SF_inj. rewrite FloatAxioms.mul_spec.
    apply SFmul_one. split; [apply Prim2SF_valid | exact Hx].
  - intros a b c d Ha Hab Hc Hcd.
    rewrite FloatAxioms.leb_spec in Ha, Hab, Hc, Hcd.
    rewrite FloatAxioms.leb_spec, !FloatAxioms.add_spec.
    apply SFadd_mono; try assumption;
      (split; [apply Prim2SF_valid |]); try assumption.
    + exact (SFleb_zero_trans _ _ Ha Hab).
    + exact (SFleb_zero_trans _ _ Hc Hcd).
Qed.

(** Binary64 has monotone products below finite bounds. *)
Lemma double_monotone_products (hessianMax weightMax : float) :
  PrimFloat.is_infinity hessianMax = false ->
  PrimFloat.is_infinity weightMax = false ->
  @MonotoneProducts float double_ops hessianMax weightMax.
Proof.
  intros Hih Hiw.
  split; cbn [fzero fmul fle double_ops]; intros h w Hh0 Hh1 Hw0 Hw1.
  - assert (FH : FiniteNonneg (Prim2SF hessianMax)).
    { apply Nonneg_finite; [| exact Hih]. rewrite FloatAxioms.leb_spec in *.
      exact (SFleb_zero_trans _ _ Hh0 Hh1). }
    assert (FW : FiniteNonneg (Prim2SF weightMax)).
    { apply Nonneg_finite; [| exact Hiw]. rewrite FloatAxioms.leb_spec in *.
      exact (SFleb_zero_trans _ _ Hw0 Hw1). }
    rewrite FloatAxioms.leb_spec in *. rewrite FloatAxioms.mul_spec.
    apply SFmul_nonneg.
    + apply (SFleb_finite_below _ (Prim2SF hessianMax)); auto.
      split; [apply Prim2SF_valid | exact Hh0].
    + apply (SFleb_finite_below _ (Prim2SF weightMax)); auto.
      split; [apply Prim2SF_valid | exact Hw0].
  - assert (FH : FiniteNonneg (Prim2SF hessianMax)).
    { apply Nonneg_finite; [| exact Hih]. rewrite FloatAxioms.leb_spec in *.
      exact (SFleb_zero_trans _ _ Hh0 Hh1). }
    assert (FW : FiniteNonneg (Prim2SF weightMax)).
    { apply Nonneg_finite; [| exact Hiw]. rewrite FloatAxioms.leb_spec in *.
      exact (SFleb_zero_trans _ _ Hw0 Hw1). }
    rewrite FloatAxioms.leb_spec in *. rewrite !FloatAxioms.mul_spec.
    apply SFmul_mono; auto; split; try apply Prim2SF_valid; assumption.
Qed.

End UnitSteps.

(** ** BinInteraction.cpp: the histogram, the weights and the entry point *)

Section HistogramFacts.
Context {FloatFast : Type} {ops : FloatOps FloatFast}.
Import EbmInternal BinInteraction.

Lemma wrap_add_one (x : Z) : SizeT.add (SizeT.wrap x) 1 = SizeT.wrap (x + 1).
Proof.
  unfold SizeT.add, SizeT.wrap. apply Zplus_mod_idemp_l.
Qed.

(** The count of a bin after a run of samples: one more for each sample
    that leads to it, in [size_t] arithmetic. *)
Lemma foldl_SpecStep_count (bClassification : bool) (cScores : nat)
  (pDataSet : DataSetInteraction FloatFast) (pTerm : Term)
  (samples : list nat) (aBins : list (Bin FloatFast)) (j : nat) (c : Z) :
  m_cSamples <$> aBins !! j = Some (SizeT.wrap c) ->
  m_cSamples
    <$> foldl (SpecStep bClassification cScores pDataSet pTerm) aBins samples !! j
  = Some (SizeT.wrap
            (c + Z.of_nat
                   (length (filter (fun iSample =>
                                      Z.to_nat (SampleIndex pDataSet pTerm iSample) = j)
                                   samples)))).
Proof.
  revert aBins c. induction samples as [| s samples IH]; intros aBins c Hj.
  - cbn. rewrite Hj. do 2 f_equal. lia.
  - cbn [foldl]. rewrite filter_cons. case_decide as E.
    + rewrite (IH _ (c + 1)).
      * cbn [length]. do 2 f_equal. lia.
      * rewrite SpecStep_lookup. rewrite decide_True by (symmetry; exact E).
        destruct (aBins !! j) as [bin |]; [| discriminate].
        cbn in Hj |- *. injection Hj as Hj. rewrite Hj. f_equal. apply wrap_add_one.
    + rewrite (IH _ c); [reflexivity |].
      rewrite SpecStep_lookup. rewrite decide_False by (intros X; apply E; now symmetry).
      exact Hj.
Qed.

Lemma foldl_SpecStep_hessians (cScores : nat)
  (pDataSet : DataSetInteraction FloatFast) (pTerm : Term)
  (samples : list nat) (aBins : list (Bin FloatFast)) :
  HessianSums (foldl (SpecStep false cScores pDataSet pTerm) aBins samples)
  = HessianSums aBins.
Proof.
  revert aBins. induction samples as [| s samples IH]; intros aBins; [reflexivity |].
  cbn [foldl]. rewrite IH. unfold HessianSums, SpecStep.
  apply list_eq. intros j. rewrite !list_lookup_fmap.
  destruct (decide (j = Z.to_nat (SampleIndex pDataSet pTerm s))) as [-> | Hne].
  - rewrite list_lookup_alter_eq. destruct (aBins !! _) as [bin |]; [| reflexivity].
    cbn. f_equal. apply list_eq. intros k.
    rewrite !list_lookup_fmap, list_lookup_imap.
    destruct (m_aGradientPairs bin !! k); reflexivity.
  - now rewrite list_lookup_alter_ne by congruence.
Qed.


Lemma TensorIndexLoop_columns (pDataSet pDataSet' : DataSetInteraction FloatFast)
  (iSample : nat) (cDimensions : Z) (entries : list Feature)
  (cTensorBins iTensorBin iDimension : Z) :
  m_aaInputData pDataSet = m_aaInputData pDataSet' ->
  TensorIndexLoop pDataSet iSample cDimensions entries cTensorBins iTensorBin iDimension
  = TensorIndexLoop pDataSet' iSample cDimensions entries cTensorBins iTensorBin
      iDimension.
Proof.
  intros E. revert cTensorBins iTensorBin iDimension.
  induction entries as [| pFeature entries IH]; intros cTensorBins iTensorBin iDimension;
    [reflexivity |].
  cbn [TensorIndexLoop]. rewrite E.
  destruct (m_aaInputData pDataSet' !! m_iFeatureData pFeature) as [column |];
    [| reflexivity].
  cbn. destruct (column !! iSample) as [iBin |]; [| reflexivity]. cbn.
  destruct (_ <? _); [apply IH | reflexivity].
Qed.

(** A weight array of ones and no weight array take the sample loop through
    the same states. *)
Lemma SampleLoop_unit_weights (bClassification : bool) (cScores cDimensions : Z)
  (pDataSet : DataSetInteraction FloatFast) (pTerm : Term) (cOnes : nat)
  (pGradientsAndHessiansEnd n iSample pGradientAndHessian : nat)
  (aBins : list (Bin FloatFast)) :
  (iSample + n <= cOnes)%nat ->
  SampleLoop bClassification cScores cDimensions
    {| m_cSamplesData := m_cSamplesData pDataSet;
       m_aGradientsAndHessians := m_aGradientsAndHessians pDataSet;
       m_aWeights := Some (replicate cOnes fone);
       m_aaInputData := m_aaInputData pDataSet |}
    pTerm pGradientsAndHessiansEnd n iSample pGradientAndHessian (Some iSample) aBins
  = SampleLoop bClassification cScores cDimensions
      {| m_cSamplesData := m_cSamplesData pDataSet;
         m_aGradientsAndHessians := m_aGradientsAndHessians pDataSet;
         m_aWeights := None;
         m_aaInputData := m_aaInputData pDataSet |}
      pTerm pGradientsAndHessiansEnd n iSample pGradientAndHessian None aBins.
Proof.
  revert iSample pGradientAndHessian aBins.
  induction n as [| n IH]; intros iSample pGradientAndHessian aBins Hn;
    [reflexivity |].
  cbn [SampleLoop].
  destruct (Nat.eqb pGradientsAndHessiansEnd pGradientAndHessian); [reflexivity |].
  rewrite (TensorIndexLoop_columns _
             {| m_cSamplesData := m_cSamplesData pDataSet;
                m_aGradientsAndHessians := m_aGradientsAndHessians pDataSet;
                m_aWeights := None;
                m_aaInputData := m_aaInputData pDataSet |}) by reflexivity.
  destruct (TensorIndexLoop _ iSample cDimensions (m_aTermEntries pTerm) 1 0 0)
    as [iTensorBin |]; [| reflexivity].
  cbn [mbind option_bind].
  destruct (aBins !! Z.to_nat iTensorBin) as [pBin |]; [| reflexivity].
  cbn [mbind option_bind m_aWeights m_aGradientsAndHessians].
  rewrite lookup_replicate_2 by lia. cbn [mbind option_bind].
  destruct (ScoreLoop bClassification (m_aGradientsAndHessians pDataSet) fone
              (Z.to_nat cScores) 0 pGradientAndHessian (m_aGradientPairs pBin))
    as [[pGradientPair pGradientAndHessian'] |]; [| reflexivity].
  cbn [mbind option_bind]. apply IH. lia.
Qed.

Lemma BinSumsInteractionInternal_parameters
  (cCompilerClasses cCompilerClasses' cCompilerDimensions cCompilerDimensions' : Z)
  (pInteractionShell : InteractionShell FloatFast) (pTerm : Term) :
  IsClassification cCompilerClasses = IsClassification cCompilerClasses' ->
  GET_COUNT_CLASSES cCompilerClasses (m_cClasses (m_pInteractionCore pInteractionShell))
  = GET_COUNT_CLASSES cCompilerClasses'
      (m_cClasses (m_pInteractionCore pInteractionShell)) ->
  GET_DIMENSIONS cCompilerDimensions (m_cSignificantDimensions pTerm)
  = GET_DIMENSIONS cCompilerDimensions' (m_cSignificantDimensions pTerm) ->
  BinSumsInteractionInternal cCompilerClasses cCompilerDimensions
    pInteractionShell pTerm
  = BinSumsInteractionInternal cCompilerClasses' cCompilerDimensions'
      pInteractionShell pTerm.
Proof.
  intros E1 E2 E3. unfold BinSumsInteractionInternal. now rewrite E1, E2, E3.
Qed.

Lemma FlatIndex_injective (cs bs bs' : list Z) :
  Forall2 (fun c b => 0 <= b < c) cs bs ->
  Forall2 (fun c b => 0 <= b < c) cs bs' ->
  FlatIndex cs bs = FlatIndex cs bs' -> bs = bs'.
Proof.
  intros H. revert bs'. induction H as [| c b cs bs Hb H IH]; intros bs' H' E.
  - now inversion H'.
  - inversion H' as [| c' b' cs' bs'' Hb' H'' ]; subst. cbn [FlatIndex] in E.
    pose proof (FlatIndex_bounds _ _ H) as B1.
    pose proof (FlatIndex_bounds _ _ H'') as B2.
    assert (E' : FlatIndex cs bs = FlatIndex cs bs'').
    { destruct (Z.lt_trichotomy (FlatIndex cs bs) (FlatIndex cs bs''))
        as [Hlt | [Heq | Hgt]]; [exfalso; nia | exact Heq | exfalso; nia]. }
    assert (b = b') as -> by (rewrite E' in E; lia).
    f_equal. now apply IH.
Qed.

End HistogramFacts.

Section KernelExtras.
Context {FloatFast : Type} {ops : FloatOps FloatFast}.
Import EbmInternal BinInteraction.

(** X1.  The kernel makes a histogram: on well-formed arguments the count of
    every bin goes up by the number of samples whose bin indices lead to
    that bin, in [size_t] arithmetic; on a bin that starts at zero the count
    afterwards is that number. *)
Theorem X1_bin_counts_histogram (cCompilerClasses cCompilerDimensions : Z)
  (pInteractionShell : InteractionShell FloatFast) (pTerm : Term) :
  let bClassification := IsClassification cCompilerClasses in
  let pInteractionCore := m_pInteractionCore pInteractionShell in
  let cScores := GetCountScores
                   (GET_COUNT_CLASSES cCompilerClasses (m_cClasses pInteractionCore)) in
  let cDimensions :=
    GET_DIMENSIONS cCompilerDimensions (m_cSignificantDimensions pTerm) in
  let pDataSet := m_dataSet pInteractionCore in
  WellFormed bClassification cScores cDimensions pDataSet pTerm
    (m_aBinsFast pInteractionShell) ->
  Forall (fun bin => SizeT.in_range (m_cSamples bin)) (m_aBinsFast pInteractionShell) ->
  exists pInteractionShell',
    BinSumsInteractionInternal cCompilerClasses cCompilerDimensions
      pInteractionShell pTerm = Some pInteractionShell'
    /\ forall (j : nat) (bin : Bin FloatFast),
         m_aBinsFast pInteractionShell !! j = Some bin ->
         m_cSamples <$> m_aBinsFast pInteractionShell' !! j
         = Some (SizeT.wrap (m_cSamples bin
                             + Z.of_nat (length (SamplesAt pDataSet pTerm j))))
         /\ (m_cSamples bin = 0 ->
             m_cSamples <$> m_aBinsFast pInteractionShell' !! j
             = Some (Z.of_nat (length (SamplesAt pDataSet pTerm j)))).
Proof.
  intros bC core cScores cDimensions pDataSet Hwf Hrange.
  eexists. split; [apply BinSumsInteractionInternal_refines; exact Hwf |].
  cbn [m_aBinsFast]. fold bC core cScores cDimensions pDataSet.
  intros j bin Hbin.
  pose proof (Forall_lookup_1 _ _ _ _ Hrange Hbin) as Hc. cbn beta in Hc.
  assert (E : m_cSamples
                <$> SpecBinSums bC (Z.to_nat cScores) pDataSet pTerm
                      (m_aBinsFast pInteractionShell) !! j
              = Some (SizeT.wrap (m_cSamples bin
                                  + Z.of_nat (length (SamplesAt pDataSet pTerm j))))).
  { unfold SpecBinSums, SamplesAt. apply foldl_SpecStep_count.
    rewrite Hbin. cbn. f_equal. symmetry. apply Z.mod_small. exact Hc. }
  split; [exact E |].
  intros H0. rewrite E, H0, Z.add_0_l. f_equal. apply Z.mod_small.
  pose proof (wf_samples _ _ _ _ _ _ Hwf) as Hn.
  pose proof (length_filter
                (fun iSample => Z.to_nat (SampleIndex pDataSet pTerm iSample) = j)
                (seq 0 (Z.to_nat (m_cSamplesData pDataSet)))) as Hle.
  rewrite length_seq in Hle. unfold SamplesAt. fold pDataSet in Hn. lia.
Qed.

(** X2.  The regression kernel never touches a Hessian sum: on well-formed
    arguments every bin comes back with the Hessian sums it had, score by
    score. *)
Theorem X2_regression_keeps_hessians (cCompilerClasses cCompilerDimensions : Z)
  (pInteractionShell : InteractionShell FloatFast) (pTerm : Term) :
  let bClassification := IsClassification cCompilerClasses in
  let pInteractionCore := m_pInteractionCore pInteractionShell in
  let cScores := GetCountScores
                   (GET_COUNT_CLASSES cCompilerClasses (m_cClasses pInteractionCore)) in
  let cDimensions :=
    GET_DIMENSIONS cCompilerDimensions (m_cSignificantDimensions pTerm) in
  let pDataSet := m_dataSet pInteractionCore in
  bClassification = false ->
  WellFormed bClassification cScores cDimensions pDataSet pTerm
    (m_aBinsFast pInteractionShell) ->
  exists pInteractionShell',
    BinSumsInteractionInternal cCompilerClasses cCompilerDimensions
      pInteractionShell pTerm = Some pInteractionShell'
    /\ HessianSums (m_aBinsFast pInteractionShell')
       = HessianSums (m_aBinsFast pInteractionShell).
Proof.
  intros bC core cScores cDimensions pDataSet HbC Hwf.
  eexists. split; [apply BinSumsInteractionInternal_refines; exact Hwf |].
  cbn [m_aBinsFast]. fold bC. rewrite HbC. apply foldl_SpecStep_hessians.
Qed.

(** X3.  A weight array that holds a one for every sample gives the tensor
    that no weight array gives, bin for bin and bit for bit, on every shell
    and term (also where the kernel runs off its arguments). *)
Theorem X3_unit_weights_as_no_weights (cCompilerClasses cCompilerDimensions : Z)
  (pInteractionShell : InteractionShell FloatFast) (pTerm : Term) :
  let cSamples :=
    Z.to_nat (m_cSamplesData (m_dataSet (m_pInteractionCore pInteractionShell))) in
  m_aBinsFast
    <$> BinSumsInteractionInternal cCompilerClasses cCompilerDimensions
          (WithWeights (Some (replicate cSamples fone)) pInteractionShell) pTerm
  = m_aBinsFast
      <$> BinSumsInteractionInternal cCompilerClasses cCompilerDimensions
            (WithWeights None pInteractionShell) pTerm.
Proof.
  intros cSamples. unfold BinSumsInteractionInternal, WithWeights.
  cbn [m_pInteractionCore m_dataSet m_cClasses m_aBinsFast m_cSamplesData
       m_aWeights fmap option_fmap option_map].
  fold cSamples.
  rewrite (SampleLoop_unit_weights _ _ _
             (m_dataSet (m_pInteractionCore pInteractionShell))) by lia.
  destruct (SampleLoop _ _ _ _ _ _ _ _ _ None _); reflexivity.
Qed.

(** X5.  The flat index tells the cells of the tensor apart: on well-formed
    arguments the index loop gives every sample a bin of the tensor, and two
    samples the same bin exactly when they have the same bin index in every
    feature of the term. *)
Theorem X5_same_bin_same_indices (bClassification : bool) (cScores cDimensions : Z)
  (pDataSet : DataSetInteraction FloatFast) (pTerm : Term)
  (aBins : list (Bin FloatFast)) (iSample iSample' : nat) :
  WellFormed bClassification cScores cDimensions pDataSet pTerm aBins ->
  (iSample < Z.to_nat (m_cSamplesData pDataSet))%nat ->
  (iSample' < Z.to_nat (m_cSamplesData pDataSet))%nat ->
  exists iTensorBin iTensorBin',
    TensorIndexLoop pDataSet iSample cDimensions (m_aTermEntries pTerm) 1 0 0
    = Some iTensorBin
    /\ TensorIndexLoop pDataSet iSample' cDimensions (m_aTermEntries pTerm) 1 0 0
       = Some iTensorBin'
    /\ 0 <= iTensorBin < Z.of_nat (length aBins)
    /\ (iTensorBin = iTensorBin'
        <-> SampleBin pDataSet iSample <$> m_aTermEntries pTerm
            = SampleBin pDataSet iSample' <$> m_aTermEntries pTerm).
Proof.
  intros Hwf Hs Hs'.
  pose proof (WellFormed_readable _ _ _ _ _ _ iSample Hwf Hs) as Hr.
  pose proof (WellFormed_readable _ _ _ _ _ _ iSample' Hwf Hs') as Hr'.
  destruct (wf_dimensions _ _ _ _ _ _ Hwf) as [Hd1 Hd].
  destruct (wf_tensor _ _ _ _ _ _ Hwf) as [Ht Htm].
  assert (Hne : m_aTermEntries pTerm <> []).
  { intros E. rewrite E in Hd. cbn in Hd. lia. }
  exists (0 + 1 * FlatIndex (m_cBins <$> m_aTermEntries pTerm)
                    (SampleBin pDataSet iSample <$> m_aTermEntries pTerm)),
         (0 + 1 * FlatIndex (m_cBins <$> m_aTermEntries pTerm)
                    (SampleBin pDataSet iSample' <$> m_aTermEntries pTerm)).
  split; [| split; [| split]].
  - apply TensorIndexLoop_FlatIndex; auto; try lia.
    unfold TensorSize in Htm. lia.
  - apply TensorIndexLoop_FlatIndex; auto; try lia.
    unfold TensorSize in Htm. lia.
  - pose proof (WellFormed_SampleIndex _ _ _ _ _ _ iSample Hwf Hs) as Hi.
    unfold SampleIndex in Hi. lia.
  - split.
    + intros E. apply (FlatIndex_injective (m_cBins <$> m_aTermEntries pTerm)).
      * now apply FeatureReadable_bins.
      * now apply FeatureReadable_bins.
      * lia.
    + intros ->. reflexivity.
Qed.

End KernelExtras.

Section DispatchExtras.
Context {ladder : EbmInternal.Ladder}.
Context {FloatFast : Type} {ops : FloatOps FloatFast}.
Import EbmInternal BinInteraction.

(** X4.  The entry point computes what the generic kernel of the objective
    computes: whatever the ladders select, for every class count (also
    below 2 or above [K_MAX]) and every dimension count, [BinSumsInteraction]
    returns the result of the kernel with dynamic classes (or regression)
    and dynamic dimensions. *)
Theorem X4_dispatch_is_generic (pInteractionShell : InteractionShell FloatFast)
  (pTerm : Term) :
  BinSumsInteraction pInteractionShell pTerm
  = BinSumsInteractionInternal
      (GenericClasses (m_cClasses (m_pInteractionCore pInteractionShell)))
      k_dynamicDimensions pInteractionShell pTerm.
Proof.
  unfold BinSumsInteraction.
  rewrite (BinSumsInteractionDispatch_select
             (fun C D => BinSumsInteractionInternal C D pInteractionShell pTerm)).
  set (K := m_cClasses (m_pInteractionCore pInteractionShell)).
  set (D := m_cSignificantDimensions pTerm).
  apply BinSumsInteractionInternal_parameters; fold K D.
  - unfold LadderClasses, GenericClasses.
    destruct (IsClassification K) eqn:EK; [| reflexivity].
    destruct ((2 <=? K) && (K <=? k_cCompilerClassesMax)); [exact EK | reflexivity].
  - unfold LadderClasses, GenericClasses.
    destruct (IsClassification K) eqn:EK; [| reflexivity].
    destruct (2 <=? K) eqn:E2; cbn [andb]; [| reflexivity].
    destruct (K <=? k_cCompilerClassesMax); [| reflexivity].
    unfold GET_COUNT_CLASSES, k_dynamicClassification.
    apply Z.leb_le in E2. destruct (0 =? K) eqn:E0; [lia | reflexivity].
  - unfold LadderDimensions.
    destruct (2 <=? D) eqn:E2; cbn [andb]; [| reflexivity].
    destruct (D <=? k_cCompilerOptimizedCountDimensionsMax); [| reflexivity].
    unfold GET_DIMENSIONS, k_dynamicDimensions.
    apply Z.leb_le in E2. destruct (0 =? D) eqn:E0; [lia | reflexivity].
Qed.

End DispatchExtras.

(** ** libebm_test.cpp: what IsApproxEqual accepts *)

Lemma binary_round_aux_sign (mx ex : Z) (lx : location) :
  binary_round_aux prec emax true mx ex lx
  = SFopp (binary_round_aux prec emax false mx ex lx).
Proof.
  unfold binary_round_aux.
  destruct (shr_fexp prec emax mx ex lx) as [mrs' e'].
  destruct (shr_fexp prec emax _ e' loc_Exact) as [mrs'' e''].
  destruct (shr_m mrs''); try reflexivity.
  destruct (e'' <=? emax - prec); reflexivity.
Qed.

(** Multiplying a double by one gives the double back. *)
Lemma mul_one_double (x : float) : (x * 1)%float = x.
Proof.
  apply Prim2SF_inj. rewrite FloatAxioms.mul_spec.
  change (Prim2SF 1) with (S754_finite false 4503599627370496 (-52)).
  pose proof (Prim2SF_valid x) as Hv.
  destruct (Prim2SF x) as [s | s | | s m e].
  - cbn. now rewrite xorb_false_r.
  - cbn. now rewrite xorb_false_r.
  - reflexivity.
  - cbn [SF64mul SFmul]. rewrite xorb_false_r.
    assert (E : (m * 4503599627370496)%positive = Pos.iter xO m 52).
    { apply Pos2Z.inj. rewrite shift_value, Pos2Z.inj_mul. reflexivity. }
    rewrite E. change (e + -52) with (e - Z.pos 52).
    cbn [valid_binary SpecFloat.valid_binary] in Hv.
    assert (Hc : e <= fexp prec emax (Z.pos (digits2_pos m) + e)).
    { unfold bounded, canonical_mantissa in Hv.
      apply andb_prop in Hv as [Hc _]. apply Z.eqb_eq in Hc. lia. }
    destruct s.
    + rewrite binary_round_aux_sign, binary_round_aux_shift by exact Hc.
      now rewrite binary_round_aux_valid.
    + rewrite binary_round_aux_shift by exact Hc.
      now apply binary_round_aux_valid.
Qed.

Lemma fcompare_zero_l (x y : float) :
  fcompare 0 x = Some Eq -> fcompare x y = fcompare 0 y.
Proof.
  unfold fcompare. rewrite Prim2SF_zero.
  destruct (Prim2SF x) as [s | [|] | | [|] m e]; cbn; try discriminate.
  intros _. destruct (Prim2SF y); reflexivity.
Qed.

Lemma fcompare_refl_sign (x y : float) (c : comparison) :
  fcompare x y = Some Eq -> fcompare 0 x = Some c -> fcompare 0 y = Some c.
Proof.
  unfold fcompare. rewrite Prim2SF_zero. intros Hxy Hx.
  apply SFcompare_Eq in Hxy as [<- | (sx & sy & Ex & Ey)]; [exact Hx |].
  rewrite Ex in Hx. rewrite Ey. exact Hx.
Qed.

(** X8.  With a percentage of zero the comparison is the equality of
    doubles: on values that are neither a NaN nor an infinity,
    [IsApproxEqual val expected 0] says what [val == expected] says. *)
Theorem X8_IsApproxEqual_zero_percentage (val expected : float) (g : Z) :
  ApproxEqual.isnan val = false -> ApproxEqual.isinf val = false ->
  ApproxEqual.isnan expected = false -> ApproxEqual.isinf expected = false ->
  fst (ApproxEqual.IsApproxEqual val expected 0 g) = PrimFloat.eqb val expected.
Proof.
  intros Nv Iv Ne Ie.
  unfold ApproxEqual.IsApproxEqual, ApproxEqual.isEqual. cbn [fst].
  rewrite Nv, Iv, Ne, Ie. cbn [negb].
  change (PrimFloat.sub 1 0) with 1%float. change (PrimFloat.add 1 0) with 1%float.
  rewrite !mul_one_double.
  unfold ApproxEqual.isnan in Nv, Ne.
  destruct (fcompare_defined val expected Nv Ne) as [c Hc].
  destruct (fcompare_defined 0 val eq_refl Nv) as [c1 H1].
  destruct (fcompare_defined 0 expected eq_refl Ne) as [c2 H2].
  pose proof (fcompare_swap val expected) as Hc'. rewrite Hc in Hc'.
  pose proof (fcompare_swap 0 val) as H1'. rewrite H1 in H1'.
  pose proof (fcompare_swap 0 expected) as H2'. rewrite H2 in H2'.
  rewrite (ltb_fcompare 0 val), (ltb_fcompare 0 expected),
    (ltb_fcompare val 0), (ltb_fcompare expected 0),
    (leb_fcompare val expected), (leb_fcompare expected val),
    (eqb_fcompare 0 expected), (eqb_fcompare val expected).
  rewrite Hc, Hc', H1, H1', H2, H2'.
  destruct c1.
  - (* val is a zero *)
    rewrite (fcompare_zero_l val expected H1), H2 in Hc. injection Hc as <-.
    cbn [option_map CompOpp]. destruct c2; reflexivity.
  - destruct c2, c; cbn [option_map CompOpp]; try reflexivity;
      pose proof (fcompare_refl_sign _ _ _ Hc H1) as X; rewrite H2 in X;
      discriminate.
  - destruct c2, c; cbn [option_map CompOpp]; try reflexivity;
      pose proof (fcompare_refl_sign _ _ _ Hc H1) as X; rewrite H2 in X;
      discriminate.
Qed.

Lemma X8_IsApproxEqual_zero_percentage_witness :
  fst (ApproxEqual.IsApproxEqual 1 1 0 0) = true
  /\ fst (ApproxEqual.IsApproxEqual 1 0x1.0000000000001p+0 0 0) = false.
Proof.
  split.
  - rewrite (X8_IsApproxEqual_zero_percentage 1 1 0); reflexivity.
  - rewrite (X8_IsApproxEqual_zero_percentage 1 0x1.0000000000001p+0 0); reflexivity.
Defined.

(** X9.  Whatever the percentage, two values that [IsApproxEqual] accepts
    are neither a NaN nor an infinity and lie on the same side of zero:
    both above it, both below it, or both a zero. *)
Theorem X9_IsApproxEqual_same_sign (val expected percentage : float) (g : Z) :
  fst (ApproxEqual.IsApproxEqual val expected percentage g) = true ->
  ApproxEqual.isnan val = false /\ ApproxEqual.isinf val = false
  /\ ApproxEqual.isnan expected = false /\ ApproxEqual.isinf expected = false
  /\ ((PrimFloat.ltb 0 val = true /\ PrimFloat.ltb 0 expected = true)
      \/ (PrimFloat.ltb val 0 = true /\ PrimFloat.ltb expected 0 = true)
      \/ (PrimFloat.eqb 0 val = true /\ PrimFloat.eqb 0 expected = true)).
Proof.
  unfold ApproxEqual.IsApproxEqual, ApproxEqual.isEqual. cbn [fst].
  destruct (ApproxEqual.isnan val) eqn:Nv; cbn [negb]; [discriminate |].
  destruct (ApproxEqual.isnan expected) eqn:Ne; cbn [negb]; [discriminate |].
  destruct (ApproxEqual.isinf val) eqn:Iv; cbn [negb]; [discriminate |].
  destruct (ApproxEqual.isinf expected) eqn:Ie; cbn [negb]; [discriminate |].
  intros H. repeat (split; [reflexivity |]).
  destruct (PrimFloat.ltb 0 val) eqn:Lv.
  - destruct (PrimFloat.ltb 0 expected) eqn:Le; [| discriminate]. left. now split.
  - destruct (PrimFloat.ltb val 0) eqn:Gv.
    + destruct (PrimFloat.ltb expected 0) eqn:Ge; [| discriminate].
      right; left. now split.
    + right; right.
      destruct (PrimFloat.eqb 0 expected) eqn:Ee; [| discriminate].
      split; [| reflexivity].
      unfold ApproxEqual.isnan in Nv.
      destruct (fcompare_defined 0 val eq_refl Nv) as [c1 H1].
      pose proof (fcompare_swap 0 val) as H1'. rewrite H1 in H1'.
      rewrite (ltb_fcompare 0 val), H1 in Lv.
      rewrite (ltb_fcompare val 0), H1' in Gv.
      rewrite (eqb_fcompare 0 val), H1.
      destruct c1; cbn in *; congruence.
Qed.

Lemma X9_IsApproxEqual_same_sign_witness :
  PrimFloat.ltb 100 0 = true /\ PrimFloat.ltb 101 0 = true
  \/ PrimFloat.ltb 0 100 = true /\ PrimFloat.ltb 0 101 = true.
Proof.
  destruct (X9_IsApproxEqual_same_sign 100 101 0.015625 0 eq_refl)
    as (_ & _ & _ & _ & [H | [H | [H _]]]).
  - right. exact H.
  - left. exact H.
  - discriminate H.
Defined.

Lemma is_nan_true_Prim2SF (x : float) :
  PrimFloat.is_nan x = true -> Prim2SF x = S754_nan.
Proof.
  intros H. destruct (Prim2SF x) as [s | s | | s m e] eqn:E; [| | reflexivity |];
    (assert (Hn : PrimFloat.is_nan x = false)
       by (apply is_nan_Prim2SF; rewrite E; discriminate));
    congruence.
Qed.

Lemma fcompare_nan_l (x y : float) :
  Prim2SF x = S754_nan -> fcompare x y = None.
Proof. unfold fcompare. intros ->. reflexivity. Qed.

Lemma fcompare_nan_r (x y : float) :
  Prim2SF y = S754_nan -> fcompare x y = None.
Proof. unfold fcompare. intros ->. now destruct (Prim2SF x). Qed.

Lemma mul_nan_r (x y : float) :
  Prim2SF y = S754_nan -> Prim2SF (x * y) = S754_nan.
Proof.
  intros H. rewrite FloatAxioms.mul_spec, H. unfold SF64mul.
  now destruct (Prim2SF x).
Qed.

Lemma is_infinity_true_eqb_zero (x : float) :
  PrimFloat.is_infinity x = true -> PrimFloat.eqb 0 x = false.
Proof.
  unfold PrimFloat.is_infinity.
  rewrite !FloatAxioms.eqb_spec, FloatAxioms.abs_spec, Prim2SF_zero.
  destruct (Prim2SF x) as [s | s | | s m e]; cbn; try discriminate.
  now destruct s.
Qed.

(** X19.  A tolerance that is a NaN: [IsApproxEqual] then accepts two zeros
    and nothing else, since no comparison with a NaN bound holds. *)
Theorem X19_IsApproxEqual_nan_percentage (val expected percentage : float)
  (g : Z) :
  ApproxEqual.isnan percentage = true ->
  fst (ApproxEqual.IsApproxEqual val expected percentage g)
  = PrimFloat.eqb 0 val && PrimFloat.eqb 0 expected.
Proof.
  intros Np. apply is_nan_true_Prim2SF in Np.
  assert (Hs : Prim2SF (1 - percentage) = S754_nan).
  { rewrite FloatAxioms.sub_spec, Np. reflexivity. }
  assert (Hb : Prim2SF (1 + percentage) = S754_nan).
  { rewrite FloatAxioms.add_spec, Np. reflexivity. }
  assert (Hls : forall x y, PrimFloat.leb (x * (1 - percentage)) y = false).
  { intros x y. rewrite leb_fcompare, fcompare_nan_l; [reflexivity |].
    now apply mul_nan_r. }
  assert (Hlb : forall x y, PrimFloat.leb (x * (1 + percentage)) y = false).
  { intros x y. rewrite leb_fcompare, fcompare_nan_l; [reflexivity |].
    now apply mul_nan_r. }
  unfold ApproxEqual.IsApproxEqual, ApproxEqual.isEqual. cbn [fst].
  rewrite !Hls, !Hlb. cbn [andb].
  destruct (ApproxEqual.isnan val) eqn:Nv; cbn [negb].
  { rewrite (eqb_fcompare 0 val), fcompare_nan_r; [reflexivity |].
    now apply is_nan_true_Prim2SF. }
  destruct (ApproxEqual.isnan expected) eqn:Ne; cbn [negb].
  { rewrite (eqb_fcompare 0 expected), fcompare_nan_r;
      [now rewrite andb_false_r |].
    now apply is_nan_true_Prim2SF. }
  destruct (ApproxEqual.isinf val) eqn:Iv; cbn [negb].
  { now rewrite (is_infinity_true_eqb_zero val Iv). }
  destruct (ApproxEqual.isinf expected) eqn:Ie; cbn [negb].
  { now rewrite (is_infinity_true_eqb_zero expected Ie), andb_false_r. }
  unfold ApproxEqual.isnan in Nv.
  destruct (fcompare_defined 0 val eq_refl Nv) as [c1 H1].
  pose proof (fcompare_swap 0 val) as H1'. rewrite H1 in H1'.
  rewrite (ltb_fcompare 0 val), (ltb_fcompare val 0), (eqb_fcompare 0 val),
    H1, H1'.
  destruct c1; cbn [option_map CompOpp andb].
  - now destruct (PrimFloat.eqb 0 expected).
  - destruct (PrimFloat.ltb 0 expected); [| reflexivity].
    now destruct (PrimFloat.leb val expected).
  - destruct (PrimFloat.ltb expected 0); [| reflexivity].
    now destruct (PrimFloat.leb expected val).
Qed.

Lemma X19_IsApproxEqual_nan_percentage_witness :
  fst (ApproxEqual.IsApproxEqual 1 1 nan 0) = false
  /\ fst (ApproxEqual.IsApproxEqual 0 (-0) nan 0) = true.
Proof.
  split.
  - rewrite (X19_IsApproxEqual_nan_percentage 1 1 nan 0); reflexivity.
  - rewrite (X19_IsApproxEqual_nan_percentage 0 (-0) nan 0); reflexivity.
Defined.

(** ** The scenarios: the kernel evaluated, and the theorems applied *)

Section ScenarioFacts.
Import EbmInternal BinInteraction Scenarios.

(** Discharges [WellFormed] on a literal data set. *)
Ltac literal_Forall tac :=
  repeat (apply List.Forall_cons; [cbn; tac |]); apply List.Forall_nil.

Ltac literal_well_formed :=
  constructor; cbn;
  [ lia
  | unfold SizeT.modulus; lia
  | reflexivity
  | try (intros ? [= <-]; reflexivity); try discriminate
  | split; [lia | reflexivity]
  | literal_Forall
      ltac:(split; [lia | eexists; split; [reflexivity | split; [reflexivity |]];
            literal_Forall ltac:(lia)])
  | split; [reflexivity | unfold TensorSize, SizeT.modulus; cbn; lia]
  | literal_Forall ltac:(reflexivity) ].

Ltac literal_zeroed :=
  unfold ZeroedTensor; cbn;
  literal_Forall
    ltac:(split; [reflexivity | split; [reflexivity |]];
          literal_Forall ltac:(reflexivity)).

Lemma S1_well_formed :
  WellFormed false 1 1 (m_dataSet (m_pInteractionCore S1)) Term3 (m_aBinsFast S1).
Proof. literal_well_formed. Qed.

Lemma S2_well_formed :
  WellFormed false 1 1 (m_dataSet (m_pInteractionCore S2)) Term3 (m_aBinsFast S2).
Proof. literal_well_formed. Qed.

Lemma Unweighted_well_formed :
  WellFormed false 1 1 (m_dataSet (m_pInteractionCore Unweighted)) Term3
    (m_aBinsFast Unweighted).
Proof. literal_well_formed. Qed.

Lemma S4Weighted_well_formed :
  WellFormed true 1 1 (m_dataSet (m_pInteractionCore S4Weighted)) Term3
    (m_aBinsFast S4Weighted).
Proof. literal_well_formed. Qed.

Lemma TwoBinary_well_formed :
  WellFormed true 1 1 (m_dataSet (m_pInteractionCore TwoBinary)) Term3
    (m_aBinsFast TwoBinary).
Proof. literal_well_formed. Qed.

(** S1 to S4, as the specification lists their outcomes. *)
Example S1_bin_sums :
  m_aBinsFast <$> BinSumsInteraction (ladder := {| k_cCompilerClassesMax := 8;
      k_cCompilerOptimizedCountDimensionsMax := 2 |}) S1 Term3
  = Some [ ZeroBin 1;
           {| m_cSamples := 1; m_weight := 1%float;
              m_aGradientPairs := [ {| m_sumGradients := (-3)%float;
                                       m_sumHessians := 0%float |} ] |};
           ZeroBin 1 ].
Proof. reflexivity. Qed.

Example S2_bin_sums :
  (BinSumsInteractionInternal k_regression k_dynamicDimensions S2 Term3
   ≫= fun shell => m_aBinsFast shell !! 0%nat)
  = Some {| m_cSamples := 2; m_weight := 5%float;
            m_aGradientPairs := [ {| m_sumGradients := (-1)%float;
                                     m_sumHessians := 0%float |} ] |}.
Proof. reflexivity. Qed.

Example S3_bin_sums :
  SampleIndex (m_dataSet (m_pInteractionCore S3)) TermAB 0 = 5
  /\ (BinSumsInteractionInternal k_regression 2 S3 TermAB
      ≫= fun shell => Some (m_cSamples <$> m_aBinsFast shell))
     = Some [0; 0; 0; 0; 0; 1].
Proof. split; reflexivity. Qed.

Example S4_bin_sums :
  (BinSumsInteractionInternal 2 k_dynamicDimensions S4 Term3
   ≫= fun shell => m_aBinsFast shell !! 0%nat)
  = Some {| m_cSamples := 1; m_weight := 1%float;
            m_aGradientPairs := [ {| m_sumGradients := (-0.5)%float;
                                     m_sumHessians := 0.25%float |} ] |}.
Proof. reflexivity. Qed.

Lemma C1_bin_sums_update_witness :
  BinSumsInteractionInternal k_regression k_dynamicDimensions S2 Term3
  = Some {| m_pInteractionCore := m_pInteractionCore S2;
            m_aBinsFast :=
              [ {| m_cSamples := 2; m_weight := 5%float;
                   m_aGradientPairs := [ {| m_sumGradients := (-1)%float;
                                            m_sumHessians := 0%float |} ] |};
                ZeroBin 1; ZeroBin 1 ] |}.
Proof.
  destruct (C1_bin_sums_update k_regression k_dynamicDimensions S2 Term3
              S2_well_formed) as [Hrun _].
  rewrite Hrun. reflexivity.
Defined.

Lemma C8_bin_sums_frame_witness :
  exists pInteractionShell',
    BinSumsInteractionInternal k_regression k_dynamicDimensions S1 Term3
    = Some pInteractionShell'
    /\ m_pInteractionCore pInteractionShell' = m_pInteractionCore S1
    /\ m_aBinsFast pInteractionShell' !! 0%nat = Some (ZeroBin 1)
    /\ m_aBinsFast pInteractionShell' !! 2%nat = Some (ZeroBin 1).
Proof.
  destruct (C8_bin_sums_frame k_regression k_dynamicDimensions S1 Term3
              S1_well_formed) as (shell' & Hrun & Hcore & _ & Hframe).
  exists shell'. split; [exact Hrun |]. split; [exact Hcore |].
  split; rewrite Hframe; try reflexivity;
    intros iSample Hs; cbn in Hs;
    assert (iSample = 0%nat) as -> by lia; cbn; lia.
Defined.

Lemma C6_specialized_is_generic_witness :
  BinSumsInteractionInternal 3 2 ThreeClasses TermAB
  = BinSumsInteractionInternal k_dynamicClassification k_dynamicDimensions
      ThreeClasses TermAB.
Proof.
  apply (C6_specialized_is_generic 3 2 ThreeClasses TermAB);
    [reflexivity | right; lia | reflexivity | lia].
Defined.

Lemma C4_counts_and_unit_weights_witness :
  exists pInteractionShell',
    BinSumsInteractionInternal k_regression k_dynamicDimensions Unweighted Term3
    = Some pInteractionShell'
    /\ SumCounts (m_aBinsFast pInteractionShell') = 3
    /\ Forall (fun bin => m_weight bin = CountAsFloat (m_cSamples bin))
         (m_aBinsFast pInteractionShell').
Proof.
  destruct (C4_counts_and_unit_weights k_regression k_dynamicDimensions
              Unweighted Term3 Unweighted_well_formed)
    as (shell' & Hrun & Hsum & Hw).
  - literal_zeroed.
  - exists shell'. split; [exact Hrun |]. split; [exact Hsum |].
    apply Hw. reflexivity.
Defined.

Lemma C5_hessian_bounds_witness :
  (exists pInteractionShell',
     BinSumsInteractionInternal 2 k_dynamicDimensions TwoBinary Term3
     = Some pInteractionShell'
     /\ HessianSumsWithin 0.25%float (m_aBinsFast pInteractionShell'))
  /\ (exists pInteractionShell',
        BinSumsInteractionInternal 2 k_dynamicDimensions S4Weighted Term3
        = Some pInteractionShell'
        /\ HessianSumsWithin (0.25 * 2)%float (m_aBinsFast pInteractionShell')).
Proof.
  split.
  - destruct (C5_hessian_bounds 2 k_dynamicDimensions TwoBinary Term3
                0.25%float double_monotone_sums eq_refl TwoBinary_well_formed)
      as (shell' & Hrun & Hnone & _).
    + literal_zeroed.
    + intros iSample iScore Hs Hk. cbn in Hs, Hk.
      assert (iScore = 0%nat) as -> by lia.
      assert (iSample = 0%nat \/ iSample = 1%nat) as [-> | ->] by lia;
        split; reflexivity.
    + exists shell'. split; [exact Hrun | exact (Hnone eq_refl)].
  - destruct (C5_hessian_bounds 2 k_dynamicDimensions S4Weighted Term3
                0.25%float double_monotone_sums eq_refl S4Weighted_well_formed)
      as (shell' & Hrun & _ & Hweighted).
    + literal_zeroed.
    + intros iSample iScore Hs Hk. cbn in Hs, Hk.
      assert (iScore = 0%nat) as -> by lia.
      assert (iSample = 0%nat) as -> by lia. split; reflexivity.
    + exists shell'. split; [exact Hrun |].
      apply (Hweighted 2%float).
      * apply double_monotone_products; reflexivity.
      * intros iSample Hs. cbn in Hs.
        assert (iSample = 0%nat) as -> by lia. split; reflexivity.
Defined.

(** C5 as stated fails on a weighted sample: its gradient and Hessian are
    within the assumed ranges, yet the Hessian sum of its bin is [0.5], twice
    [0.25 * count], which no rounding slack accounts for. *)
Lemma C5_weighted_hessian_counterexample :
  (BinSumsInteractionInternal 2 k_dynamicDimensions S4Weighted Term3
   ≫= fun shell => m_aBinsFast shell !! 0%nat)
  = Some {| m_cSamples := 1; m_weight := 2%float;
            m_aGradientPairs := [ {| m_sumGradients := (-1)%float;
                                     m_sumHessians := 0.5%float |} ] |}
  /\ PrimFloat.leb (-1) (-0.5) = true /\ PrimFloat.leb (-0.5) 1 = true
  /\ PrimFloat.leb 0 0.25 = true /\ PrimFloat.leb 0.25 0.25 = true
  /\ PrimFloat.leb 0.5 (0.25 * 1 + 0.125) = false.
Proof. repeat split; reflexivity. Qed.

Lemma X1_bin_counts_histogram_witness :
  exists pInteractionShell',
    BinSumsInteractionInternal k_regression k_dynamicDimensions Unweighted Term3
    = Some pInteractionShell'
    /\ m_cSamples <$> m_aBinsFast pInteractionShell' !! 0%nat = Some 2
    /\ m_cSamples <$> m_aBinsFast pInteractionShell' !! 1%nat = Some 0
    /\ m_cSamples <$> m_aBinsFast pInteractionShell' !! 2%nat = Some 1.
Proof.
  destruct (X1_bin_counts_histogram k_regression k_dynamicDimensions Unweighted Term3
              Unweighted_well_formed)
    as (shell' & Hrun & Hcount).
  - cbn. repeat (apply List.Forall_cons;
                 [cbn; unfold SizeT.in_range, SizeT.modulus; lia |]).
    apply List.Forall_nil.
  - exists shell'. split; [exact Hrun |].
    destruct (Hcount 0%nat (ZeroBin 1) eq_refl) as [_ H0].
    destruct (Hcount 1%nat (ZeroBin 1) eq_refl) as [_ H1].
    destruct (Hcount 2%nat (ZeroBin 1) eq_refl) as [_ H2].
    split; [exact (H0 eq_refl) | split; [exact (H1 eq_refl) | exact (H2 eq_refl)]].
Defined.

Lemma X2_regression_keeps_hessians_witness :
  exists pInteractionShell',
    BinSumsInteractionInternal k_regression k_dynamicDimensions S2 Term3
    = Some pInteractionShell'
    /\ HessianSums (m_aBinsFast pInteractionShell') = [[0]; [0]; [0]]%float.
Proof.
  destruct (X2_regression_keeps_hessians k_regression k_dynamicDimensions S2 Term3
              eq_refl S2_well_formed) as (shell' & Hrun & Hh).
  exists shell'. split; [exact Hrun |]. rewrite Hh. reflexivity.
Defined.

Lemma X5_same_bin_same_indices_witness :
  exists iTensorBin iTensorBin',
    TensorIndexLoop (m_dataSet (m_pInteractionCore Unweighted)) 0 1
      (m_aTermEntries Term3) 1 0 0 = Some iTensorBin
    /\ TensorIndexLoop (m_dataSet (m_pInteractionCore Unweighted)) 2 1
         (m_aTermEntries Term3) 1 0 0 = Some iTensorBin'
    /\ iTensorBin = iTensorBin'.
Proof.
  destruct (X5_same_bin_same_indices false 1 1
              (m_dataSet (m_pInteractionCore Unweighted)) Term3
              (m_aBinsFast Unweighted) 0 2 Unweighted_well_formed)
    as (i & i' & H1 & H2 & _ & Hiff).
  - cbn. lia.
  - cbn. lia.
  - exists i, i'. split; [exact H1 |]. split; [exact H2 |].
    apply Hiff. reflexivity.
Defined.

End ScenarioFacts.

(** ** InitializeGradientsAndHessians.cpp: the write cursor *)

Section CursorFacts.
Context {FloatFast : Type} {ops : FloatOps FloatFast}
  {conv : InitGrad.FromDouble FloatFast}.
Import InitGrad.

Lemma concat_insert_inner {A} (ls : list (list A)) (i j : nat) (v : A) (l : list A) :
  ls !! i = Some l -> (j < length l)%nat ->
  concat (<[i := <[j := v]> l]> ls)
  = <[(length (concat (take i ls)) + j)%nat := v]> (concat ls).
Proof.
  revert i. induction ls as [| x ls IH]; intros [| i] Hl Hj; try discriminate.
  - injection Hl as ->. cbn. now rewrite insert_app_l.
  - cbn in Hl. cbn [concat take]. change (<[S i:=<[j:=v]> l]> (x :: ls))
      with (x :: <[i:=<[j:=v]> l]> ls).
    cbn [concat]. rewrite (IH i Hl Hj). rewrite length_app, <- Nat.add_assoc.
    now rewrite insert_app_r.
Qed.

Lemma Flat_split (aSubsets : list (DataSubset FloatFast)) (i : nat)
  (subset : DataSubset FloatFast) :
  aSubsets !! i = Some subset ->
  Flat aSubsets
  = Flat (take i aSubsets) ++ m_aGradHess subset ++ Flat (drop (S i) aSubsets).
Proof.
  intros H. unfold Flat. rewrite <- (take_drop_middle _ _ _ H) at 1.
  rewrite fmap_app, concat_app. reflexivity.
Qed.

(** The subsets after a store at [(i, p)]: the shape is kept and the flat
    view changes at one position. *)
Lemma store_subsets (aSubsets : list (DataSubset FloatFast)) (i p : nat)
  (subset : DataSubset FloatFast) (g : FloatFast) :
  aSubsets !! i = Some subset -> (p < length (m_aGradHess subset))%nat ->
  let subset' := {| m_cSamples := m_cSamples subset;
                    m_aGradHess := <[p := g]> (m_aGradHess subset);
                    m_aWeights := m_aWeights subset |} in
  let aSubsets' := <[i := subset']> aSubsets in
  m_cSamples <$> aSubsets' = m_cSamples <$> aSubsets
  /\ m_aWeights <$> aSubsets' = m_aWeights <$> aSubsets
  /\ Flat aSubsets'
     = <[(length (Flat (take i aSubsets)) + p)%nat := g]> (Flat aSubsets)
  /\ Flat (take i aSubsets') = Flat (take i aSubsets)
  /\ Flat (take (S i) aSubsets')
     = Flat (take i aSubsets) ++ <[p := g]> (m_aGradHess subset)
  /\ aSubsets' !! i = Some subset'.
Proof.
  intros Hi Hp subset' aSubsets'. unfold aSubsets'.
  pose proof (lookup_lt_Some _ _ _ Hi) as Hlt.
  repeat split.
  - rewrite list_fmap_insert. apply list_insert_id.
    rewrite list_lookup_fmap, Hi. reflexivity.
  - rewrite list_fmap_insert. apply list_insert_id.
    rewrite list_lookup_fmap, Hi. reflexivity.
  - unfold Flat. rewrite list_fmap_insert. cbn [m_aGradHess subset'].
    rewrite fmap_take.
    apply concat_insert_inner; [| exact Hp].
    rewrite list_lookup_fmap, Hi. reflexivity.
  - rewrite take_insert_ge by lia. reflexivity.
  - rewrite (take_S_r _ _ subset') by (apply list_lookup_insert_eq; exact Hlt).
    rewrite take_insert_ge by lia. unfold Flat.
    rewrite fmap_app, concat_app. cbn. now rewrite app_nil_r.
  - apply list_lookup_insert_eq. exact Hlt.
Qed.

Lemma CursorInv_room (aSubsets0 : list (DataSubset FloatFast)) pSubsetsEnd
  (c : Cursor FloatFast) k written :
  CursorInv aSubsets0 pSubsetsEnd c k written ->
  (k < length (Flat aSubsets0))%nat /\ length written = k.
Proof.
  intros [He Hs Hw Hb (subset & Hsub & Hend) Ho Hc Hp Hwr].
  pose proof (Forall_lookup_1 _ _ _ _ Hb Hsub) as [_ Hlen].
  assert (Hk : (k < length (Flat (aSubsets c)))%nat).
  { rewrite (Flat_split _ _ _ Hsub), !length_app. lia. }
  split; [lia |]. rewrite <- Hwr, length_take. lia.
Qed.

(** One store: the gradient lands at flat position [k], and the cursor
    either moves on by one or the function returns with every slot written. *)
Lemma StoreGradient_spec (aSubsets0 : list (DataSubset FloatFast)) pSubsetsEnd
  (c : Cursor FloatFast) k written g :
  CursorInv aSubsets0 pSubsetsEnd c k written ->
  exists out, StoreGradient pSubsetsEnd g c = Some out
    /\ match out with
       | Returned aSubsets' =>
         Finished aSubsets0 aSubsets' (written ++ [g])
         /\ S (pGradientAndHessian c) = pGradientAndHessianEnd c
       | Running (c', entered) =>
         CursorInv aSubsets0 pSubsetsEnd c' (S k) (written ++ [g])
         /\ if (entered : bool)
            then pSubset c' = S (pSubset c) /\ pGradientAndHessian c' = 0%nat
                 /\ S (pGradientAndHessian c) = pGradientAndHessianEnd c
            else pSubset c' = pSubset c
                 /\ pGradientAndHessian c' = S (pGradientAndHessian c)
                 /\ pGradientAndHessianEnd c' = pGradientAndHessianEnd c
       end.
Proof.
  intros Hinv.
  destruct (CursorInv_room _ _ _ _ _ Hinv) as [Hroom Hlw].
  destruct Hinv as [He Hs Hw Hb (subset & Hsub & Hend) Ho Hc Hp Hwr].
  pose proof (Forall_lookup_1 _ _ _ _ Hb Hsub) as [Hpos Hlen].
  assert (Hpl : (pGradientAndHessian c < length (m_aGradHess subset))%nat) by lia.
  destruct (store_subsets (aSubsets c) (pSubset c) (pGradientAndHessian c)
              subset g Hsub Hpl) as (Es & Ew & Ef & Et & Et' & El).
  set (subset' := {| m_cSamples := m_cSamples subset;
                     m_aGradHess := <[pGradientAndHessian c := g]> (m_aGradHess subset);
                     m_aWeights := m_aWeights subset |}) in *.
  set (aSubsets' := <[pSubset c := subset']> (aSubsets c)) in *.
  rewrite <- Hp in Ef.
  assert (Hb' : Forall (fun subset => (1 <= m_cSamples subset)%nat
                  /\ length (m_aGradHess subset) = m_cSamples subset) aSubsets').
  { apply Forall_insert; [exact Hb |]. cbn. rewrite length_insert. auto. }
  assert (Hcap : length (Flat aSubsets') = length (Flat aSubsets0))
    by (rewrite Ef, length_insert; exact Hc).
  assert (Hwr' : take (S k) (Flat aSubsets') = written ++ [g]).
  { rewrite Ef. rewrite (take_S_r _ _ g) by (apply list_lookup_insert_eq; lia).
    rewrite take_insert_ge by lia. now rewrite Hwr. }
  unfold StoreGradient. rewrite Hsub. cbn [mbind option_bind].
  rewrite decide_True by exact Hpl. fold subset' aSubsets'.
  destruct (Nat.eqb_spec (pGradientAndHessianEnd c) (S (pGradientAndHessian c)))
    as [Hfull | Hmore].
  - destruct (Nat.eqb_spec pSubsetsEnd (S (pSubset c))) as [Hlast | Hnext].
    + eexists. split; [reflexivity |]. cbn beta iota.
      assert (Hall : S k = length (Flat aSubsets')).
      { assert (Hts : take (S (pSubset c)) aSubsets' = aSubsets').
        { apply take_ge. unfold aSubsets'. rewrite length_insert.
          apply (f_equal length) in Hs. rewrite !length_fmap in Hs. lia. }
        rewrite <- Hts at 1. rewrite Et', length_app, length_insert. lia. }
      repeat split; auto.
      * rewrite <- Hwr'. rewrite Hall. now rewrite take_ge by lia.
      * rewrite length_app. cbn. lia.
      * now rewrite Es.
      * now rewrite Ew.
    + assert (Hin : (S (pSubset c) < length aSubsets')%nat).
      { unfold aSubsets'. rewrite length_insert.
        apply (f_equal length) in Hs. rewrite !length_fmap in Hs.
        pose proof (lookup_lt_Some _ _ _ Hsub). lia. }
      destruct (lookup_lt_is_Some_2 _ _ Hin) as [subset2 Hsub2].
      rewrite Hsub2. cbn [mbind option_bind].
      eexists. split; [reflexivity |]. cbn beta iota.
      split; [| auto].
      pose proof (Forall_lookup_1 _ _ _ _ Hb' Hsub2) as [Hpos2 _].
      split; cbn [aSubsets pSubset pGradientAndHessian pGradientAndHessianEnd];
        auto; try congruence; try lia; eauto.
      rewrite Et', length_app, length_insert. lia.
  - eexists. split; [reflexivity |]. cbn beta iota.
    split; [| auto].
    split; cbn [aSubsets pSubset pGradientAndHessian pGradientAndHessianEnd];
      auto; try congruence; try lia.
    + exists subset'. split; [exact El | exact Hend].
    + rewrite Et. lia.
Qed.

(** The write loop of the boosting initializer stores [m] copies when the
    replication is [m] in the direction of the pass, or as many as there is
    room for when the function returns first. *)
Lemma WriteLoopBoosting_spec (aSubsets0 : list (DataSubset FloatFast))
  pSubsetsEnd (direction : Z) g (fuel m : nat) (c : Cursor FloatFast) k written :
  direction = 1 \/ direction = -1 ->
  (1 <= m)%nat ->
  CursorInv aSubsets0 pSubsetsEnd c k written ->
  (length (Flat aSubsets0) - k <= fuel)%nat ->
  exists out,
    WriteLoopBoosting fuel pSubsetsEnd direction g (direction * Z.of_nat m) c
    = Some out
    /\ match out with
       | Returned aSubsets' =>
         exists n, (1 <= n <= m)%nat
                   /\ Finished aSubsets0 aSubsets' (written ++ replicate n g)
       | Running c' =>
         CursorInv aSubsets0 pSubsetsEnd c' (k + m) (written ++ replicate m g)
       end.
Proof.
  intros Hdir. revert m c k written.
  induction fuel as [| fuel IH]; intros m c k written Hm Hinv Hfuel.
  - destruct (CursorInv_room _ _ _ _ _ Hinv). lia.
  - cbn [WriteLoopBoosting].
    destruct (StoreGradient_spec _ _ _ _ _ g Hinv) as (out & Hout & Hspec).
    rewrite Hout. cbn [mbind option_bind].
    destruct out as [aSubsets' | [c' entered]].
    + eexists. split; [reflexivity |]. exists 1%nat. split; [lia | apply Hspec].
    + destruct Hspec as [Hinv' _].
      replace (direction * Z.of_nat m - direction)
        with (direction * Z.of_nat (m - 1)) by nia.
      destruct (Nat.eq_dec m 1%nat) as [-> | Hm1].
      * replace (direction * Z.of_nat (1 - 1)%nat =? 0) with true
          by (symmetry; apply Z.eqb_eq; lia).
        eexists. split; [reflexivity |]. cbn [replicate].
        now rewrite Nat.add_1_r.
      * replace (direction * Z.of_nat (m - 1) =? 0) with false
          by (symmetry; apply Z.eqb_neq; nia).
        destruct (IH (m - 1)%nat c' (S k) (written ++ [g])) as (out & Hrun & Hres);
          [lia | exact Hinv' | lia |].
        exists out. split; [exact Hrun |].
        destruct out as [aSubsets' | c''].
        -- destruct Hres as (n & Hn & Hfin). exists (S n). split; [lia |].
           cbn [replicate]. now rewrite <- app_assoc in Hfin.
        -- replace (k + m)%nat with (S k + (m - 1))%nat by lia.
           replace (replicate m g) with (g :: replicate (m - 1) g)
             by (destruct m; [lia |]; cbn; now rewrite Nat.sub_0_r).
           now rewrite <- app_assoc in Hres.
Qed.

(** The scan of the bag finds the next selected sample. *)
Lemma ScanBagBoosting_selected (isLoopValidation : bool) (bag : list Z)
  (pTargetData cInitAdvances : nat) :
  match ScanBagBoosting isLoopValidation bag pTargetData cInitAdvances with
  | None => forall iInit, SelectedFrom isLoopValidation bag pTargetData iInit = []
  | Some (replication, bag', pTargetData', cInitAdvances') =>
    replication <> 0 /\ (replication <? 0) = isLoopValidation
    /\ (pTargetData < pTargetData')%nat /\ (cInitAdvances < cInitAdvances')%nat
    /\ forall iInit,
         SelectedFrom isLoopValidation bag pTargetData iInit
         = (Nat.pred pTargetData',
            (iInit + (cInitAdvances' - cInitAdvances) - 1)%nat,
            Z.abs_nat replication)
           :: SelectedFrom isLoopValidation bag' pTargetData'
                (iInit + (cInitAdvances' - cInitAdvances))%nat
  end.
Proof.
  revert pTargetData cInitAdvances.
  induction bag as [| r bag IH]; intros pT cI; [cbn; intros; reflexivity |].
  cbn [ScanBagBoosting SelectedFrom].
  destruct (r =? 0) eqn:Hr.
  - specialize (IH (S pT) cI).
    destruct (ScanBagBoosting isLoopValidation bag (S pT) cI)
      as [[[[r' bag'] pT'] cI'] |]; [| exact IH].
    destruct IH as (H1 & H2 & H3 & H4 & H5). repeat split; auto. lia.
  - apply Z.eqb_neq in Hr.
    destruct (Bool.eqb isLoopValidation (r <? 0)) eqn:Hsign; cbn [negb].
    + apply Bool.eqb_prop in Hsign. repeat split; auto; try lia.
      intros iInit. cbn [Nat.pred].
      replace (iInit + (S cI - cI) - 1)%nat with iInit by lia.
      replace (iInit + (S cI - cI))%nat with (S iInit) by lia.
      reflexivity.
    + specialize (IH (S pT) (S cI)).
      destruct (ScanBagBoosting isLoopValidation bag (S pT) (S cI))
        as [[[[r' bag'] pT'] cI'] |]; [| intros iInit; apply IH].
      destruct IH as (H1 & H2 & H3 & H4 & H5). repeat split; auto; try lia.
      intros iInit. rewrite H5.
      replace (iInit + (cI' - cI))%nat with (S iInit + (cI' - S cI))%nat by lia.
      reflexivity.
Qed.

Lemma Emitted_cons (aTargets : list FloatFast) (aInitScores : option (list float))
  (iTarget iInit cCopies : nat) (selected : list (nat * nat * nat)) :
  Emitted aTargets aInitScores ((iTarget, iInit, cCopies) :: selected)
  = replicate cCopies (GradientAt aTargets aInitScores iTarget iInit)
    ++ Emitted aTargets aInitScores selected.
Proof. reflexivity. Qed.

Lemma replication_of_direction (direction r : Z) :
  direction = 1 \/ direction = -1 -> r <> 0 -> (r <? 0) = (direction <? 0) ->
  r = direction * Z.of_nat (Z.abs_nat r) /\ (1 <= Z.abs_nat r)%nat.
Proof.
  intros [-> | ->] Hr Hs; cbn in Hs.
  - apply Z.ltb_ge in Hs. lia.
  - apply Z.ltb_lt in Hs. lia.
Qed.

(** One pass of the outer loop: the gradient of the sample it takes. *)
Lemma OuterLoopBoosting_spec (aSubsets0 : list (DataSubset FloatFast))
  pSubsetsEnd (direction : Z) (aTargets : list FloatFast)
  (aInitScores : option (list float)) (fuel : nat)
  (pSampleReplication : option (list Z)) (pTargetData pInitScore iInit : nat)
  (c : Cursor FloatFast) k written :
  direction = 1 \/ direction = -1 ->
  (pSampleReplication = None -> direction = 1) ->
  (forall scores, aInitScores = Some scores -> pInitScore = iInit) ->
  CursorInv aSubsets0 pSubsetsEnd c k written ->
  SelectionReadable aTargets aInitScores
    (RemainingSelected (direction <? 0) pSampleReplication pTargetData iInit
       (length (Flat aSubsets0) - k)) ->
  length (Emitted aTargets aInitScores
            (RemainingSelected (direction <? 0) pSampleReplication pTargetData iInit
               (length (Flat aSubsets0) - k)))
  = (length (Flat aSubsets0) - k)%nat ->
  (length (Flat aSubsets0) - k <= fuel)%nat ->
  exists aSubsets',
    OuterLoopBoosting fuel pSubsetsEnd direction aTargets aInitScores
      pSampleReplication pTargetData pInitScore c = Some aSubsets'
    /\ Finished aSubsets0 aSubsets'
         (written ++ Emitted aTargets aInitScores
            (RemainingSelected (direction <? 0) pSampleReplication pTargetData
               iInit (length (Flat aSubsets0) - k))).
Proof.
  intros Hdir. revert pSampleReplication pTargetData pInitScore iInit c k written.
  induction fuel as [| fuel IH];
    intros pSR pT pI iI c k written Hnone Hinit Hinv Hread Hexact Hfuel.
  - destruct (CursorInv_room _ _ _ _ _ Hinv). lia.
  - destruct (CursorInv_room _ _ _ _ _ Hinv) as [Hroom Hlw].
    set (N := length (Flat aSubsets0)) in *.
    (* the sample this pass takes, and what is left for the passes after it *)
    assert (Hnext : exists iTarget iInit' m r pSR' pT' pI' iI',
      RemainingSelected (direction <? 0) pSR pT iI (N - k)
      = (iTarget, iInit', m)
        :: RemainingSelected (direction <? 0) pSR' pT' iI' (N - (k + m))
      /\ r = direction * Z.of_nat m /\ (1 <= m)%nat
      /\ (pSR' = None -> direction = 1)
      /\ (forall scores, aInitScores = Some scores -> pI' = iI')
      /\ forall c0 : Cursor FloatFast,
           OuterLoopBoosting (S fuel) pSubsetsEnd direction aTargets aInitScores
             pSR pT pI c0
           = WriteLoopBoosting (S fuel) pSubsetsEnd direction
               (GradientAt aTargets aInitScores iTarget iInit') r c0
             ≫= fun out =>
             match out with
             | Returned aSubsets' => Some aSubsets'
             | Running c' =>
               OuterLoopBoosting fuel pSubsetsEnd direction aTargets aInitScores
                 pSR' pT' pI' c'
             end).
    { assert (Hgrad : forall iTarget iInit',
        (iTarget < length aTargets)%nat ->
        (forall scores, aInitScores = Some scores -> (iInit' < length scores)%nat) ->
        exists data, aTargets !! iTarget = Some data
          /\ match aInitScores with
             | Some scores => exists score, scores !! iInit' = Some score
                 /\ ComputeGradientRegressionRmseInit (SafeConvertFloat score) data
                    = GradientAt aTargets aInitScores iTarget iInit'
             | None => ComputeGradientRegressionRmseInit fzero data
                       = GradientAt aTargets aInitScores iTarget iInit'
             end).
      { intros iTarget iInit' HiT HiI.
        destruct (lookup_lt_is_Some_2 aTargets iTarget HiT) as [data Hdata].
        exists data. split; [exact Hdata |].
        unfold GradientAt, InitScoreAt. rewrite Hdata.
        destruct aInitScores as [scores |]; [| reflexivity].
        destruct (lookup_lt_is_Some_2 scores iInit' (HiI scores eq_refl)) as [sc Hsc].
        exists sc. rewrite Hsc. split; reflexivity. }
      destruct pSR as [bag |].
      - pose proof (ScanBagBoosting_selected (direction <? 0) bag pT 1) as Hscan.
        cbn [RemainingSelected] in *.
        destruct (ScanBagBoosting (direction <? 0) bag pT 1)
          as [[[[r bag'] pT'] cI'] |] eqn:Escan.
        + destruct Hscan as (Hr & Hsign & HpT & HcI & Hsel).
          destruct (replication_of_direction direction r Hdir Hr Hsign) as [Er Hm].
          rewrite Hsel in Hread. apply Forall_cons in Hread as [[HiT HiI] _].
          destruct (Hgrad _ _ HiT HiI) as (data & Hdata & Hg).
          exists (Nat.pred pT'), (iI + (cI' - 1) - 1)%nat, (Z.abs_nat r), r,
            (Some bag'), pT',
            (match aInitScores with
             | Some _ => (pI + Nat.pred cI')%nat | None => pI end),
            (iI + (cI' - 1))%nat.
          split; [apply Hsel |]. split; [exact Er |]. split; [exact Hm |].
          split; [discriminate |].
          split; [intros scores Hs; rewrite Hs, (Hinit scores Hs); lia |].
          intros c0. cbn [OuterLoopBoosting]. rewrite Escan.
          cbn [mbind option_bind]. rewrite Hdata. cbn [mbind option_bind].
          replace (S (Nat.pred pT')) with pT' by lia.
          destruct aInitScores as [scores |].
          * rewrite (Hinit scores eq_refl).
            replace (Nat.pred (iI + Nat.pred cI')) with (iI + (cI' - 1) - 1)%nat by lia.
            destruct Hg as (sc & Hsc & Hg). rewrite Hsc. cbn [mbind option_bind].
            rewrite Hg. reflexivity.
          * cbn [mbind option_bind]. rewrite Hg. reflexivity.
        + rewrite Hscan in Hexact. cbn in Hexact. lia.
      - specialize (Hnone eq_refl). subst direction.
        cbn [RemainingSelected] in *.
        assert (Hsel : (fun d => (pT + d, iI + d, 1))%nat <$> seq 0 (N - k)
                       = (pT, iI, 1%nat)
                         :: ((fun d => (S pT + d, S iI + d, 1))%nat
                             <$> seq 0 (N - (k + 1)))).
        { destruct (N - k)%nat as [| n] eqn:En; [lia |].
          replace (N - (k + 1))%nat with n by lia.
          cbn [seq fmap list_fmap]. rewrite !Nat.add_0_r. f_equal.
          rewrite <- fmap_S_seq, <- list_fmap_compose.
          apply list_fmap_ext. intros _ d _. cbn. repeat f_equal; lia. }
        rewrite Hsel in Hread. apply Forall_cons in Hread as [[HiT HiI] _].
        destruct (Hgrad _ _ HiT HiI) as (data & Hdata & Hg).
        exists pT, iI, 1%nat, 1, None, (S pT),
          (match aInitScores with Some _ => (pI + 1)%nat | None => pI end),
          (S iI).
        split; [exact Hsel |].
        split; [reflexivity |]. split; [lia |]. split; [reflexivity |].
        split; [intros scores Hs; rewrite Hs, (Hinit scores Hs); lia |].
        intros c0. cbn [OuterLoopBoosting mbind option_bind].
        rewrite Hdata. cbn [mbind option_bind].
        destruct aInitScores as [scores |].
        + rewrite (Hinit scores eq_refl).
          replace (Nat.pred (iI + 1)) with iI by lia.
          destruct Hg as (sc & Hsc & Hg). rewrite Hsc. cbn [mbind option_bind].
          rewrite Hg. reflexivity.
        + cbn [mbind option_bind]. rewrite Hg. reflexivity. }
    destruct Hnext as (iTarget & iInit' & m & r & pSR' & pT' & pI' & iI'
                       & Hsel & Hr & Hm & Hnone' & Hinit' & Hstep).
    rewrite Hsel in *. rewrite (Hstep c). clear Hstep.
    apply Forall_cons in Hread as [_ Hread].
    rewrite Emitted_cons in *. rewrite length_app, length_replicate in Hexact.
    rewrite Hr.
    destruct (WriteLoopBoosting_spec aSubsets0 pSubsetsEnd direction
                (GradientAt aTargets aInitScores iTarget iInit') (S fuel) m c k
                written Hdir Hm Hinv) as (out & Hout & Hres); [fold N; lia |].
    rewrite Hout. cbn [mbind option_bind].
    destruct out as [aSubsets' | c'].
    + destruct Hres as (n & Hn & Hfin). exists aSubsets'. split; [reflexivity |].
      destruct Hfin as (Hflat & Hlen & Hsz & Hwt).
      rewrite length_app, length_replicate in Hlen. fold N in Hlen.
      assert (n = m) as -> by lia.
      assert (Hrest : Emitted aTargets aInitScores
                        (RemainingSelected (direction <? 0) pSR' pT' iI'
                           (N - (k + m))) = []) by (apply length_zero_iff_nil; lia).
      rewrite Hrest, app_nil_r.
      repeat split; auto. rewrite length_app, length_replicate. fold N. lia.
    + destruct (IH pSR' pT' pI' iI' c' (k + m)%nat
                  (written ++ replicate m (GradientAt aTargets aInitScores iTarget iInit')))
        as (aSubsets' & Hrun & Hfin); auto; try (fold N; lia).
      exists aSubsets'. split; [exact Hrun |].
      fold N in Hfin. now rewrite <- app_assoc in Hfin.
Qed.

(** The selection of a pass is the list of the entries of the bag whose sign
    is that of the pass, in index order, each with its magnitude. *)
Lemma SelectedFrom_MatchingEntries (direction : Z) (bag : list Z)
  (iTarget iInit : nat) :
  direction = 1 \/ direction = -1 ->
  (fun '(i, _, m) => (i, m)) <$> SelectedFrom (direction <? 0) bag iTarget iInit
  = omap (fun '(i, replication) =>
            if decide (0 < direction * replication)
            then Some (i, Z.abs_nat replication) else None)
         (imap (fun i replication => ((iTarget + i)%nat, replication)) bag).
Proof.
  intros Hdir. revert iTarget iInit.
  induction bag as [| r bag IH]; intros iT iI; [reflexivity |].
  rewrite imap_cons. cbn [SelectedFrom omap list_omap].
  assert (Hshift : imap ((fun i replication => ((iT + i)%nat, replication)) ∘ S) bag
                   = imap (fun i replication => ((S iT + i)%nat, replication)) bag).
  { apply imap_ext. intros i x _. cbn. f_equal. lia. }
  rewrite Hshift, Nat.add_0_r.
  destruct (r =? 0) eqn:Hr.
  - apply Z.eqb_eq in Hr. subst r. rewrite decide_False by lia. apply IH.
  - apply Z.eqb_neq in Hr.
    destruct (Bool.eqb (direction <? 0) (r <? 0)) eqn:Hs.
    + apply Bool.eqb_prop in Hs.
      rewrite decide_True.
      * cbn [fmap list_fmap]. f_equal. apply IH.
      * destruct Hdir as [-> | ->]; cbn in Hs; symmetry in Hs;
          [apply Z.ltb_ge in Hs | apply Z.ltb_lt in Hs]; lia.
    + apply Bool.eqb_false_iff in Hs.
      rewrite decide_False; [apply IH |].
      intros Hpos. apply Hs.
      destruct Hdir as [-> | ->]; cbn; symmetry;
        [apply Z.ltb_ge | apply Z.ltb_lt]; lia.
Qed.

Lemma CursorInv_initial (pDataSet : DataSet FloatFast)
  (subset : DataSubset FloatFast) :
  SubsetsWellFormed pDataSet ->
  m_aSubsets pDataSet !! 0%nat = Some subset ->
  CursorInv (m_aSubsets pDataSet) (0 + m_cSubsets pDataSet)
    {| pSubset := 0;
       pGradientAndHessian := 0;
       pGradientAndHessianEnd := 0 + m_cSamples subset;
       aSubsets := m_aSubsets pDataSet |} 0 [].
Proof.
  intros (Hc1 & Hc & Hall) Hsub.
  pose proof (Forall_lookup_1 _ _ _ _ Hall Hsub) as (Hpos & Hlen & _).
  split; cbn; auto.
  - eapply Forall_impl; [exact Hall |]. intros s (H1 & H2 & _). auto.
  - eauto.
Qed.

(** C2.  The boosting initializer returns with every gradient slot written.
    Read end to end across the subsets, the slots hold, for each sample the
    pass selects and in bag order, |replication| copies of
    [initScore - target] (with [initScore = 0] when there are no init
    scores); the samples selected are exactly the entries of the bag whose
    sign is that of the pass, positive for training and negative for
    validation, zero entries being skipped; for the bag [+1, -2, 0, +3, -1]
    these are targets 0 and 3 with 1 and 3 copies, and targets 1 and 4 with
    2 and 1 copies. *)
Theorem C2_rmse_boosting_init (aTargets : list FloatFast) (direction : Z)
  (aBag : option (list Z)) (aInitScores : option (list float))
  (pDataSet : DataSet FloatFast) :
  let selected :=
    RemainingSelected (direction <? 0) aBag 0 0 (Capacity (m_aSubsets pDataSet)) in
  direction = 1 \/ direction = -1 ->
  (aBag = None -> direction = 1) ->
  SubsetsWellFormed pDataSet ->
  SelectionReadable aTargets aInitScores selected ->
  length (Emitted aTargets aInitScores selected) = Capacity (m_aSubsets pDataSet) ->
  (exists aSubsets',
     InitializeRmseGradientsAndHessiansBoosting aTargets direction aBag
       aInitScores pDataSet = Some aSubsets'
     /\ Flat aSubsets'
        = (selected ≫= fun '(iTarget, iInit, cCopies) =>
             replicate cCopies
               (fsub (InitScoreAt aInitScores iInit)
                     (default fzero (aTargets !! iTarget))))
     /\ m_cSamples <$> aSubsets' = m_cSamples <$> m_aSubsets pDataSet)
  /\ (forall iInit, @InitScoreAt FloatFast ops conv None iInit = fzero)
  /\ (forall bag, aBag = Some bag ->
        (fun '(i, _, m) => (i, m)) <$> selected = MatchingEntries direction bag)
  /\ MatchingEntries 1 [1; -2; 0; 3; -1] = [(0, 1); (3, 3)]%nat
  /\ MatchingEntries (-1) [1; -2; 0; 3; -1] = [(1, 2); (4, 1)]%nat.
Proof.
  intros selected Hdir Hnone Hwf Hread Hexact.
  split; [| split; [reflexivity | split; [| split; reflexivity]]].
  - unfold InitializeRmseGradientsAndHessiansBoosting.
    destruct Hwf as (Hc1 & Hc & Hall).
    destruct (lookup_lt_is_Some_2 (m_aSubsets pDataSet) 0) as [subset Hsub];
      [lia |].
    rewrite Hsub. cbn [mbind option_bind].
    pose proof (CursorInv_initial pDataSet subset (conj Hc1 (conj Hc Hall)) Hsub)
      as Hinv.
    unfold Capacity in *. fold (Flat (m_aSubsets pDataSet)) in *.
    destruct (OuterLoopBoosting_spec (m_aSubsets pDataSet)
                (0 + m_cSubsets pDataSet) direction aTargets aInitScores
                (length (Flat (m_aSubsets pDataSet))) aBag 0 0 0 _ 0 []
                Hdir Hnone (fun _ _ => eq_refl) Hinv)
      as (aSubsets' & Hrun & Hflat & _ & Hsz & _);
      rewrite ?Nat.sub_0_r; auto.
    exists aSubsets'. rewrite Nat.sub_0_r in Hflat.
    split; [exact Hrun |]. split; [exact Hflat | exact Hsz].
  - intros bag ->. unfold selected, MatchingEntries. cbn [RemainingSelected].
    apply (SelectedFrom_MatchingEntries direction bag 0 0 Hdir).
Qed.

End CursorFacts.

(** ** InitializeGradientsAndHessians.cpp: the interaction initializer *)

Section InteractionFacts.
Context {FloatFast : Type} {ops : FloatOps FloatFast}
  {conv : InitGrad.FromDouble FloatFast}.
Import InitGrad.






Lemma FlatWeights_shape (aSubsets aSubsets0 : list (DataSubset FloatFast)) :
  m_cSamples <$> aSubsets = m_cSamples <$> aSubsets0 ->
  m_aWeights <$> aSubsets = m_aWeights <$> aSubsets0 ->
  FlatWeights aSubsets = FlatWeights aSubsets0.
Proof.
  revert aSubsets0.
  induction aSubsets as [| s aSubsets IH]; intros [| s0 aSubsets0] Hs Hw;
    try discriminate; [reflexivity |].
  cbn in Hs, Hw. injection Hs as Hs1 Hs. injection Hw as Hw1 Hw.
  unfold FlatWeights in *. cbn [fmap list_fmap concat].
  rewrite Hs1, Hw1. f_equal. now apply IH.
Qed.













End InteractionFacts.

(** With init scores absent the initializers use a zero score.  In binary64
    the gradient [0 - target] then compares equal to [- target] for every
    target that is not a NaN (for the target [+0] it is [+0] where the
    negation is [-0]). *)
Lemma rmse_gradient_without_init_score (target : float) :
  PrimFloat.is_nan target = false ->
  PrimFloat.eqb (InitGrad.ComputeGradientRegressionRmseInit 0%float target)
    (- target) = true.
Proof.
  intros Hn. apply is_nan_Prim2SF in Hn.
  unfold InitGrad.ComputeGradientRegressionRmseInit. cbn [fsub double_ops].
  rewrite FloatAxioms.eqb_spec, FloatAxioms.sub_spec, FloatAxioms.opp_spec.
  rewrite Prim2SF_zero.
  destruct (Prim2SF target) as [s | s | | s m e]; try congruence.
  - destruct s; reflexivity.
  - destruct s; reflexivity.
  - cbn. unfold SFeqb, SFcompare. rewrite Z.compare_refl.
    assert (E : Pos.compare_cont Eq m m = Eq) by apply Pos.compare_refl.
    destruct s; cbn; rewrite E; reflexivity.
Qed.

(** ** InitializeGradientsAndHessians.cpp: the two initializers side by side *)

Section InitializerFacts.
Context {FloatFast : Type} {ops : FloatOps FloatFast}
  {conv : InitGrad.FromDouble FloatFast}.
Import InitGrad.

Lemma ScanBagInteraction_as_boosting (bag : list Z) (pTargetData cInitAdvances : nat) :
  ScanBagInteraction bag pTargetData cInitAdvances
  = ScanBagBoosting false bag pTargetData cInitAdvances.
Proof.
  revert pTargetData cInitAdvances.
  induction bag as [| replication bag IH]; intros pTargetData cInitAdvances;
    [reflexivity |].
  cbn [ScanBagInteraction ScanBagBoosting].
  destruct (replication =? 0); [apply IH |].
  destruct (replication <? 0); cbn [Bool.eqb negb]; [apply IH | reflexivity].
Qed.

Lemma StoreGradient_no_weights (pSubsetsEnd : nat) (gradient : FloatFast)
  (c : Cursor FloatFast) :
  NoWeights (aSubsets c) ->
  match StoreGradient pSubsetsEnd gradient c with
  | Some (Running (c', _)) => NoWeights (aSubsets c')
  | _ => True
  end.
Proof.
  intros Hnw. unfold StoreGradient.
  destruct (aSubsets c !! pSubset c) as [subset |] eqn:Hsub; [| exact I].
  cbn [mbind option_bind]. case_decide as Hlt; [| exact I].
  assert (Hnw' : NoWeights
                   (<[pSubset c := {| m_cSamples := m_cSamples subset;
                                      m_aGradHess := <[pGradientAndHessian c := gradient]>
                                                       (m_aGradHess subset);
                                      m_aWeights := m_aWeights subset |}]>
                      (aSubsets c))).
  { apply Forall_insert; [exact Hnw |]. cbn.
    exact (Forall_lookup_1 _ _ _ _ Hnw Hsub). }
  destruct (Nat.eqb _ _); [| exact Hnw'].
  destruct (Nat.eqb _ _); [exact I |].
  destruct (_ !! S (pSubset c)); [exact Hnw' | exact I].
Qed.

(** Without weights the write loop of the interaction initializer is the
    write loop of a training pass. *)
Lemma WriteLoopInteraction_no_weights (fuel pSubsetsEnd : nat)
  (gradient : FloatFast) (replication : Z) (c : Cursor FloatFast) :
  NoWeights (aSubsets c) ->
  match WriteLoopBoosting fuel pSubsetsEnd 1 gradient replication c with
  | Some (Returned aSubsets') =>
    WriteLoopInteraction fuel pSubsetsEnd gradient replication c None
    = Some (Returned aSubsets')
  | Some (Running c') =>
    WriteLoopInteraction fuel pSubsetsEnd gradient replication c None
    = Some (Running (c', None))
    /\ NoWeights (aSubsets c')
  | None =>
    WriteLoopInteraction fuel pSubsetsEnd gradient replication c None = None
  end.
Proof.
  revert replication c. induction fuel as [| fuel IH]; intros replication c Hnw;
    [reflexivity |].
  cbn [WriteLoopBoosting WriteLoopInteraction].
  pose proof (StoreGradient_no_weights pSubsetsEnd gradient c Hnw) as Hs.
  destruct (StoreGradient pSubsetsEnd gradient c) as [[aSubsets' | [c' entered]] |];
    cbn [mbind option_bind]; [reflexivity | | reflexivity].
  assert (Hw : (if entered
                then (fun _ : list FloatFast => 0%nat)
                     <$> (aSubsets c' !! pSubset c' ≫= m_aWeights)
                else None) = None).
  { destruct entered; [| reflexivity].
    destruct (aSubsets c' !! pSubset c') as [subset |] eqn:Hsub; [| reflexivity].
    cbn. now rewrite (Forall_lookup_1 _ _ _ _ Hs Hsub). }
  rewrite Hw. destruct (replication - 1 =? 0); [split; [reflexivity | exact Hs] |].
  apply IH. exact Hs.
Qed.

Lemma OuterLoopInteraction_no_weights (fuel pSubsetsEnd : nat)
  (aTargets : list FloatFast) (aInitScores : option (list float))
  (pSampleReplication : option (list Z)) (pTargetData pInitScore : nat)
  (c : Cursor FloatFast) :
  NoWeights (aSubsets c) ->
  OuterLoopInteraction fuel pSubsetsEnd aTargets aInitScores pSampleReplication
    pTargetData pInitScore c None
  = OuterLoopBoosting fuel pSubsetsEnd 1 aTargets aInitScores pSampleReplication
      pTargetData pInitScore c.
Proof.
  revert pSampleReplication pTargetData pInitScore c.
  induction fuel as [| fuel IH];
    intros pSampleReplication pTargetData pInitScore c Hnw; [reflexivity |].
  cbn [OuterLoopInteraction OuterLoopBoosting].
  change (1 <? 0) with false.
  assert (Hscan :
    match pSampleReplication with
    | Some bag =>
      ScanBagInteraction bag pTargetData 1
      ≫= (fun '(replication, bag, pTargetData, cInitAdvances) =>
             Some (replication, Some bag, Nat.pred pTargetData,
                   Nat.pred cInitAdvances))
    | None => Some (1, None, pTargetData, 1%nat)
    end
    = match pSampleReplication with
      | Some bag =>
        ScanBagBoosting false bag pTargetData 1
        ≫= (fun '(replication, bag, pTargetData, cInitAdvances) =>
               Some (replication, Some bag, Nat.pred pTargetData,
                     Nat.pred cInitAdvances))
      | None => Some (1, None, pTargetData, 1%nat)
      end).
  { destruct pSampleReplication; [| reflexivity].
    now rewrite ScanBagInteraction_as_boosting. }
  rewrite Hscan. clear Hscan.
  destruct (match pSampleReplication with
            | Some bag => _ | None => _ end)
    as [[[[replication pSampleReplication'] pTargetData'] cInitAdvances] |];
    [| reflexivity].
  cbn [mbind option_bind].
  destruct (aTargets !! pTargetData') as [data |]; [| reflexivity].
  cbn [mbind option_bind].
  destruct (match aInitScores with Some _ => _ | None => _ end)
    as [[initScore pInitScore'] |]; [| reflexivity].
  cbn [mbind option_bind].
  pose proof (WriteLoopInteraction_no_weights (S fuel) pSubsetsEnd
                (ComputeGradientRegressionRmseInit initScore data) replication c Hnw)
    as Hw.
  destruct (WriteLoopBoosting (S fuel) pSubsetsEnd 1
              (ComputeGradientRegressionRmseInit initScore data) replication c)
    as [[aSubsets' | c'] |].
  - rewrite Hw. reflexivity.
  - destruct Hw as [-> Hnw']. cbn [mbind option_bind]. now apply IH.
  - rewrite Hw. reflexivity.
Qed.

(** X6.  When no subset of the data set carries weights, the interaction
    initializer is the training pass of the boosting initializer: on every
    target array, bag, init scores and data set the two return the same
    subsets, or both run off their arguments. *)
Theorem X6_interaction_without_weights (aTargets : list FloatFast)
  (aBag : option (list Z)) (aInitScores : option (list float))
  (pDataSet : DataSet FloatFast) :
  NoWeights (m_aSubsets pDataSet) ->
  InitializeRmseGradientsAndHessiansInteraction aTargets aBag aInitScores pDataSet
  = InitializeRmseGradientsAndHessiansBoosting aTargets 1 aBag aInitScores pDataSet.
Proof.
  intros Hnw.
  unfold InitializeRmseGradientsAndHessiansInteraction,
    InitializeRmseGradientsAndHessiansBoosting.
  destruct (m_aSubsets pDataSet !! 0%nat) as [subset |] eqn:Hsub; [| reflexivity].
  cbn [mbind option_bind].
  rewrite (Forall_lookup_1 _ _ _ _ Hnw Hsub). cbn [fmap option_fmap option_map].
  now apply OuterLoopInteraction_no_weights.
Qed.

End InitializerFacts.

(** ** InitializeGradientsAndHessians.cpp: a bag that does not fit the data set *)

Section CapacityFacts.
Context {FloatFast : Type} {ops : FloatOps FloatFast}
  {conv : InitGrad.FromDouble FloatFast}.
Import InitGrad.

(** What a run of the write loop that comes to an end has done, whatever the
    bound on its passes. *)
Lemma WriteLoopBoosting_sound (aSubsets0 : list (DataSubset FloatFast))
  pSubsetsEnd (direction : Z) g (fuel m : nat) (c : Cursor FloatFast) k written
  out :
  direction = 1 \/ direction = -1 ->
  (1 <= m)%nat ->
  CursorInv aSubsets0 pSubsetsEnd c k written ->
  WriteLoopBoosting fuel pSubsetsEnd direction g (direction * Z.of_nat m) c
  = Some out ->
  match out with
  | Returned aSubsets' =>
    exists n, (1 <= n <= m)%nat
              /\ Finished aSubsets0 aSubsets' (written ++ replicate n g)
  | Running c' =>
    CursorInv aSubsets0 pSubsetsEnd c' (k + m) (written ++ replicate m g)
  end.
Proof.
  intros Hdir. revert m c k written.
  induction fuel as [| fuel IH]; intros m c k written Hm Hinv Hrun;
    [discriminate |].
  cbn [WriteLoopBoosting] in Hrun.
  destruct (StoreGradient_spec _ _ _ _ _ g Hinv) as (r & Hr & Hspec).
  rewrite Hr in Hrun. cbn [mbind option_bind] in Hrun.
  destruct r as [aSubsets' | [c' entered]].
  - injection Hrun as <-. exists 1%nat. split; [lia | apply Hspec].
  - destruct Hspec as [Hinv' _].
    replace (direction * Z.of_nat m - direction)
      with (direction * Z.of_nat (m - 1)) in Hrun by nia.
    destruct (Nat.eq_dec m 1%nat) as [-> | Hm1].
    + replace (direction * Z.of_nat (1 - 1)%nat =? 0) with true in Hrun
        by (symmetry; apply Z.eqb_eq; lia).
      injection Hrun as <-. cbn [replicate]. now rewrite Nat.add_1_r.
    + replace (direction * Z.of_nat (m - 1) =? 0) with false in Hrun
        by (symmetry; apply Z.eqb_neq; nia).
      pose proof (IH (m - 1)%nat c' (S k) (written ++ [g]) ltac:(lia) Hinv' Hrun)
        as Hres.
      destruct out as [aSubsets' | c''].
      * destruct Hres as (n & Hn & Hfin). exists (S n). split; [lia |].
        cbn [replicate]. now rewrite <- app_assoc in Hfin.
      * replace (k + m)%nat with (S k + (m - 1))%nat by lia.
        replace (replicate m g) with (g :: replicate (m - 1) g)
          by (destruct m; [lia |]; cbn; now rewrite Nat.sub_0_r).
        now rewrite <- app_assoc in Hres.
Qed.

(** A bag whose pass selects fewer copies than there is room left never
    lets the loop return: the scan runs off the end of the bag, or a target
    or init score is missing before that. *)
Lemma OuterLoopBoosting_short (aSubsets0 : list (DataSubset FloatFast))
  pSubsetsEnd (direction : Z) (aTargets : list FloatFast)
  (aInitScores : option (list float)) (fuel : nat)
  (bag : list Z) (pTargetData pInitScore iInit : nat)
  (c : Cursor FloatFast) k written :
  direction = 1 \/ direction = -1 ->
  CursorInv aSubsets0 pSubsetsEnd c k written ->
  (length (Emitted aTargets aInitScores
             (SelectedFrom (direction <? 0)%Z bag pTargetData iInit))
   < length (Flat aSubsets0) - k)%nat ->
  OuterLoopBoosting fuel pSubsetsEnd direction aTargets aInitScores
    (Some bag) pTargetData pInitScore c = None.
Proof.
  intros Hdir. revert bag pTargetData pInitScore iInit c k written.
  induction fuel as [| fuel IH]; intros bag pT pI iI c k written Hinv Hshort;
    [reflexivity |].
  cbn [OuterLoopBoosting].
  pose proof (ScanBagBoosting_selected (direction <? 0) bag pT 1) as Hscan.
  destruct (ScanBagBoosting (direction <? 0) bag pT 1)
    as [[[[r bag'] pT'] cI'] |]; [| reflexivity].
  destruct Hscan as (Hr & Hsign & HpT & HcI & Hsel).
  destruct (replication_of_direction direction r Hdir Hr Hsign) as [Er Hm].
  rewrite Hsel, Emitted_cons, length_app, length_replicate in Hshort.
  cbn [mbind option_bind].
  destruct (aTargets !! Nat.pred pT') as [data |]; [| reflexivity].
  cbn [mbind option_bind].
  set (scored := match aInitScores with
                 | Some aInitScores0 => _
                 | None => _
                 end).
  destruct scored as [[initScore pI'] |]; [| reflexivity].
  cbn [mbind option_bind].
  rewrite Er.
  destruct (WriteLoopBoosting (S fuel) pSubsetsEnd direction
              (ComputeGradientRegressionRmseInit initScore data)
              (direction * Z.of_nat (Z.abs_nat r)) c) as [out |] eqn:Hw;
    [| reflexivity].
  pose proof (WriteLoopBoosting_sound _ _ _ _ _ _ _ _ _ _ Hdir Hm Hinv Hw) as Hres.
  cbn [mbind option_bind].
  destruct out as [aSubsets' | c'].
  - exfalso. destruct Hres as (n & Hn & _ & Hlen & _).
    destruct (CursorInv_room _ _ _ _ _ Hinv) as [_ Hlw].
    rewrite length_app, length_replicate in Hlen. lia.
  - apply (IH bag' (S (Nat.pred pT')) pI' (iI + (cI' - 1))%nat c'
             (k + Z.abs_nat r)%nat _ Hres).
    replace (S (Nat.pred pT')) with pT' by lia. lia.
Qed.

(** A bag whose pass selects at least as many copies as there is room left:
    the loop returns on writing the last slot, with the gradients that fit. *)
Lemma OuterLoopBoosting_cut (aSubsets0 : list (DataSubset FloatFast))
  pSubsetsEnd (direction : Z) (aTargets : list FloatFast)
  (aInitScores : option (list float)) (fuel : nat)
  (bag : list Z) (pTargetData pInitScore iInit : nat)
  (c : Cursor FloatFast) k written :
  direction = 1 \/ direction = -1 ->
  (forall scores, aInitScores = Some scores -> pInitScore = iInit) ->
  CursorInv aSubsets0 pSubsetsEnd c k written ->
  SelectionReadable aTargets aInitScores
    (SelectedFrom (direction <? 0) bag pTargetData iInit) ->
  (length (Flat aSubsets0) - k
   <= length (Emitted aTargets aInitScores
                (SelectedFrom (direction <? 0)%Z bag pTargetData iInit)))%nat ->
  (length (Flat aSubsets0) - k <= fuel)%nat ->
  exists aSubsets',
    OuterLoopBoosting fuel pSubsetsEnd direction aTargets aInitScores
      (Some bag) pTargetData pInitScore c = Some aSubsets'
    /\ Flat aSubsets'
       = written ++ take (length (Flat aSubsets0) - k)
                      (Emitted aTargets aInitScores
                         (SelectedFrom (direction <? 0) bag pTargetData iInit))
    /\ m_cSamples <$> aSubsets' = m_cSamples <$> aSubsets0.
Proof.
  intros Hdir. revert bag pTargetData pInitScore iInit c k written.
  induction fuel as [| fuel IH];
    intros bag pT pI iI c k written Hinit Hinv Hread Hlong Hfuel.
  - destruct (CursorInv_room _ _ _ _ _ Hinv). lia.
  - destruct (CursorInv_room _ _ _ _ _ Hinv) as [Hroom Hlw].
    set (N := length (Flat aSubsets0)) in *.
    cbn [OuterLoopBoosting].
    pose proof (ScanBagBoosting_selected (direction <? 0) bag pT 1) as Hscan.
    destruct (ScanBagBoosting (direction <? 0) bag pT 1)
      as [[[[r bag'] pT'] cI'] |];
      [| rewrite Hscan in Hlong; cbn in Hlong; lia].
    destruct Hscan as (Hr & Hsign & HpT & HcI & Hsel).
    destruct (replication_of_direction direction r Hdir Hr Hsign) as [Er Hm].
    rewrite Hsel in *. clear Hsel. set (m := Z.abs_nat r) in *.
    apply Forall_cons in Hread as [[HiT HiI] Hread].
    rewrite Emitted_cons in *. rewrite length_app, length_replicate in Hlong.
    cbn [mbind option_bind].
    destruct (lookup_lt_is_Some_2 aTargets _ HiT) as [data Hdata].
    rewrite Hdata. cbn [mbind option_bind].
    set (g := GradientAt aTargets aInitScores (Nat.pred pT') (iI + (cI' - 1) - 1)).
    assert (Hg : ComputeGradientRegressionRmseInit
                   (InitScoreAt aInitScores (iI + (cI' - 1) - 1)) data = g)
      by (unfold g, GradientAt; now rewrite Hdata).
    assert (Hcont : forall pI',
      (forall scores, aInitScores = Some scores -> pI' = (iI + (cI' - 1))%nat) ->
      exists aSubsets',
        (WriteLoopBoosting (S fuel) pSubsetsEnd direction g r c
         ≫= fun out =>
            match out with
            | Returned aSubsets1 => Some aSubsets1
            | Running c0 =>
              OuterLoopBoosting fuel pSubsetsEnd direction aTargets aInitScores
                (Some bag') (S (Nat.pred pT')) pI' c0
            end) = Some aSubsets'
        /\ Flat aSubsets'
           = written ++ take (N - k)
               (replicate m g
                ++ Emitted aTargets aInitScores
                     (SelectedFrom (direction <? 0) bag' pT' (iI + (cI' - 1))))
        /\ m_cSamples <$> aSubsets' = m_cSamples <$> aSubsets0).
    { intros pI' HpI'. rewrite Er.
      destruct (WriteLoopBoosting_spec aSubsets0 pSubsetsEnd direction g (S fuel)
                  m c k written Hdir Hm Hinv) as (out & Hout & Hres);
        [fold N; lia |].
      rewrite Hout. cbn [mbind option_bind].
      destruct out as [aSubsets' | c'].
      - destruct Hres as (n & Hn & Hflat & Hlen & Hsz & _).
        exists aSubsets'. split; [reflexivity |]. split; [| exact Hsz].
        rewrite length_app, length_replicate in Hlen. fold N in Hlen.
        rewrite Hflat. f_equal.
        rewrite take_app_le by (rewrite length_replicate; lia).
        rewrite take_replicate. f_equal. lia.
      - destruct (CursorInv_room _ _ _ _ _ Hres) as [Hroom' _]. fold N in Hroom'.
        replace (S (Nat.pred pT')) with pT' by lia.
        destruct (IH bag' pT' pI' (iI + (cI' - 1))%nat c'
                    (k + m)%nat (written ++ replicate m g))
          as (aSubsets' & Hrun & Hflat & Hsz);
          try assumption; try (fold N; lia).
        exists aSubsets'. split; [exact Hrun |]. split; [| exact Hsz].
        rewrite Hflat. fold N. rewrite <- app_assoc. f_equal.
        rewrite take_app_ge by (rewrite length_replicate; lia).
        rewrite length_replicate. do 2 f_equal. lia. }
    destruct aInitScores as [scores |].
    + rewrite (Hinit scores eq_refl).
      replace (Nat.pred (iI + Nat.pred cI')) with (iI + (cI' - 1) - 1)%nat by lia.
      destruct (lookup_lt_is_Some_2 scores _ (HiI scores eq_refl)) as [sc Hsc].
      rewrite Hsc. cbn [mbind option_bind].
      unfold InitScoreAt in Hg. rewrite Hsc in Hg. cbn in Hg. rewrite Hg.
      apply Hcont. intros; lia.
    + cbn [mbind option_bind]. unfold InitScoreAt in Hg. rewrite Hg.
      apply Hcont. discriminate.
Qed.

(** X15.  A bag whose pass selects at least as many copies as the data set
    has slots: the boosting initializer returns on writing the last slot, in
    the middle of the copies of a sample if need be, and the slots hold the
    first [Capacity] gradients of the selection, so what the selection has
    beyond the room of the data set is dropped. *)
Theorem X15_boosting_bag_cut_off (aTargets : list FloatFast) (direction : Z)
  (bag : list Z) (aInitScores : option (list float))
  (pDataSet : DataSet FloatFast) :
  let selected := SelectedFrom (direction <? 0) bag 0 0 in
  direction = 1 \/ direction = -1 ->
  SubsetsWellFormed pDataSet ->
  SelectionReadable aTargets aInitScores selected ->
  (Capacity (m_aSubsets pDataSet)
   <= length (Emitted aTargets aInitScores selected))%nat ->
  exists aSubsets',
    InitializeRmseGradientsAndHessiansBoosting aTargets direction (Some bag)
      aInitScores pDataSet = Some aSubsets'
    /\ Flat aSubsets'
       = take (Capacity (m_aSubsets pDataSet))
           (Emitted aTargets aInitScores selected)
    /\ m_cSamples <$> aSubsets' = m_cSamples <$> m_aSubsets pDataSet.
Proof.
  intros selected Hdir Hwf Hread Hlong.
  unfold InitializeRmseGradientsAndHessiansBoosting.
  destruct Hwf as (Hc1 & Hc & Hall).
  destruct (lookup_lt_is_Some_2 (m_aSubsets pDataSet) 0) as [subset Hsub];
    [lia |].
  rewrite Hsub. cbn [mbind option_bind].
  pose proof (CursorInv_initial pDataSet subset (conj Hc1 (conj Hc Hall)) Hsub)
    as Hinv.
  unfold Capacity in *. fold (Flat (m_aSubsets pDataSet)) in *.
  destruct (OuterLoopBoosting_cut (m_aSubsets pDataSet)
              (0 + m_cSubsets pDataSet) direction aTargets aInitScores
              (length (Flat (m_aSubsets pDataSet))) bag 0 0 0 _ 0 []
              Hdir (fun _ _ => eq_refl) Hinv)
    as (aSubsets' & Hrun & Hflat & Hsz);
    rewrite ?Nat.sub_0_r; auto.
  exists aSubsets'. rewrite Nat.sub_0_r in Hflat.
  split; [exact Hrun |]. split; [exact Hflat | exact Hsz].
Qed.

(** X16.  A bag whose pass selects fewer copies than the data set has slots:
    the boosting initializer does not return.  Whatever the number of
    iterations its loop is allowed, it runs off the end of the bag (or off
    the targets or init scores before that) with slots still to fill. *)
Theorem X16_boosting_bag_too_short (aTargets : list FloatFast) (direction : Z)
  (bag : list Z) (aInitScores : option (list float))
  (pDataSet : DataSet FloatFast) :
  direction = 1 \/ direction = -1 ->
  SubsetsWellFormed pDataSet ->
  (length (Emitted aTargets aInitScores
             (SelectedFrom (direction <? 0)%Z bag 0%nat 0%nat))
   < Capacity (m_aSubsets pDataSet))%nat ->
  InitializeRmseGradientsAndHessiansBoosting aTargets direction (Some bag)
    aInitScores pDataSet = None
  /\ forall fuel subset,
       m_aSubsets pDataSet !! 0%nat = Some subset ->
       OuterLoopBoosting fuel (0 + m_cSubsets pDataSet) direction aTargets
         aInitScores (Some bag) 0 0
         {| pSubset := 0;
            pGradientAndHessian := 0;
            pGradientAndHessianEnd := 0 + m_cSamples subset;
            aSubsets := m_aSubsets pDataSet |} = None.
Proof.
  intros Hdir Hwf Hshort.
  assert (Hall : forall fuel subset,
            m_aSubsets pDataSet !! 0%nat = Some subset ->
            OuterLoopBoosting fuel (0 + m_cSubsets pDataSet) direction aTargets
              aInitScores (Some bag) 0 0
              {| pSubset := 0;
                 pGradientAndHessian := 0;
                 pGradientAndHessianEnd := 0 + m_cSamples subset;
                 aSubsets := m_aSubsets pDataSet |} = None).
  { intros fuel subset Hsub.
    pose proof (CursorInv_initial pDataSet subset Hwf Hsub) as Hinv.
    apply (OuterLoopBoosting_short (m_aSubsets pDataSet) _ direction aTargets
             aInitScores fuel bag 0 0 0 _ 0 [] Hdir Hinv).
    unfold Capacity in Hshort. fold (Flat (m_aSubsets pDataSet)) in Hshort. lia. }
  split; [| exact Hall].
  unfold InitializeRmseGradientsAndHessiansBoosting.
  destruct (m_aSubsets pDataSet !! 0%nat) as [subset |] eqn:Hsub;
    [| reflexivity].
  cbn [mbind option_bind]. now apply Hall.
Qed.

End CapacityFacts.

(** ** The initializers on literal data *)

Section InitScenarioFacts.
Import InitGrad InitScenarios.

Ltac literal_subsets :=
  split; [cbn; lia | split; [reflexivity |]]; cbn;
  repeat (apply List.Forall_cons;
          [cbn; split; [lia | split; [reflexivity |]];
           try (intros ? [= <-]; reflexivity); try discriminate |]);
  apply List.Forall_nil.

Ltac literal_readable :=
  unfold SelectionReadable; cbn;
  repeat (apply List.Forall_cons;
          [cbn; split; [lia |];
           try discriminate; try (intros ? [= <-]; cbn; lia) |]);
  apply List.Forall_nil.

(** Scenario 8 of the specification, training pass then validation pass. *)
Example bag_sign_selection :
  fmap (M := list) m_aGradHess
    <$> InitializeRmseGradientsAndHessiansBoosting Targets 1 (Some Bag) None
          TrainingSet
  = Some [[-10; -40]; [-40; -40]]%float
  /\ fmap (M := list) m_aGradHess
       <$> InitializeRmseGradientsAndHessiansBoosting Targets (-1) (Some Bag) None
             ValidationSet
     = Some [[-20; -20; -50]]%float.
Proof. split; reflexivity. Qed.

(** A run of copies that straddles the end of a subset: the source resets
    the weight cursor to the start of the weights of the subset it enters,
    so the sample after the run is multiplied by the weight of that subset's
    first slot (2) and not by the weight of its own slot (3). *)
Example interaction_straddling_run :
  (InitializeRmseGradientsAndHessiansInteraction Targets (Some StraddlingBag)
     None StraddledSet ≫= fun aSubsets' => Some (Flat aSubsets'))
  = Some [-20; -20; -40]%float
  /\ FlatWeights (m_aSubsets StraddledSet) !! 2%nat = Some (Some 3%float).
Proof. split; reflexivity. Qed.

Lemma C2_rmse_boosting_init_witness :
  exists aSubsets',
    InitializeRmseGradientsAndHessiansBoosting Targets 1 (Some Bag) None
      TrainingSet = Some aSubsets'
    /\ Flat aSubsets' = [-10; -40; -40; -40]%float
    /\ m_cSamples <$> aSubsets' = [2; 2]%nat.
Proof.
  destruct (C2_rmse_boosting_init Targets 1 (Some Bag) None TrainingSet)
    as [(aSubsets' & Hrun & Hflat & Hsizes) _].
  - now left.
  - discriminate.
  - literal_subsets.
  - literal_readable.
  - reflexivity.
  - exists aSubsets'. split; [exact Hrun |]. split; [| exact Hsizes].
    rewrite Hflat. reflexivity.
Defined.



Lemma X6_interaction_without_weights_witness :
  InitializeRmseGradientsAndHessiansInteraction Targets (Some Bag) (Some InitScores)
    TrainingSet
  = InitializeRmseGradientsAndHessiansBoosting Targets 1 (Some Bag) (Some InitScores)
      TrainingSet
  /\ (InitializeRmseGradientsAndHessiansBoosting Targets 1 (Some Bag)
        (Some InitScores) TrainingSet ≫= fun aSubsets' => Some (Flat aSubsets'))
     = Some [-9; -37; -37; -37]%float.
Proof.
  split; [| reflexivity].
  apply (X6_interaction_without_weights Targets (Some Bag) (Some InitScores)
           TrainingSet).
  unfold NoWeights. cbn.
  repeat (apply List.Forall_cons; [reflexivity |]). apply List.Forall_nil.
Defined.

(** The training pass of the bag of the specification's example selects
    four copies: two slots take the first two, and the three copies of
    target 3 are cut after one. *)
Lemma X15_boosting_bag_cut_off_witness :
  exists aSubsets',
    InitializeRmseGradientsAndHessiansBoosting Targets 1 (Some Bag) None
      TwoSlots = Some aSubsets'
    /\ Flat aSubsets' = [-10; -40]%float
    /\ m_cSamples <$> aSubsets' = [2]%nat.
Proof.
  destruct (X15_boosting_bag_cut_off Targets 1 Bag None TwoSlots)
    as (aSubsets' & Hrun & Hflat & Hsizes).
  - now left.
  - literal_subsets.
  - literal_readable.
  - vm_compute. lia.
  - exists aSubsets'. split; [exact Hrun |]. split; [| exact Hsizes].
    rewrite Hflat. reflexivity.
Defined.

(** Its validation pass selects three copies, one fewer than the training
    set has slots. *)
Lemma X16_boosting_bag_too_short_witness :
  InitializeRmseGradientsAndHessiansBoosting Targets (-1) (Some Bag) None
    TrainingSet = None.
Proof.
  destruct (X16_boosting_bag_too_short Targets (-1) Bag None TrainingSet)
    as [Hrun _].
  - now right.
  - literal_subsets.
  - vm_compute. lia.
  - exact Hrun.
Defined.

End InitScenarioFacts.

(** ** libebm_test.cpp: reading the scores of a term *)

Section HarnessFacts.
Import EbmInternal TestHarness.
#[local] Arguments SizeT.wrap : simpl never.
#[local] Arguments SizeT.add : simpl never.
#[local] Arguments SizeT.mul : simpl never.

Lemma At_lookup {A : Type} (v : list A) (i : Z) (a : A) :
  v !! Z.to_nat i = Some a -> At v i = Done a.
Proof. unfold At. now intros ->. Qed.

Lemma At_in_range {A : Type} (v : list A) (i : Z) :
  0 <= i < Z.of_nat (length v) -> exists a, At v i = Done a.
Proof.
  intros H. destruct (lookup_lt_is_Some_2 v (Z.to_nat i)) as [a Ha]; [lia |].
  exists a. now apply At_lookup.
Qed.

Lemma TermBins_cons features indexFeature featureIndexes cBins :
  TermBins features (indexFeature :: featureIndexes) = Some cBins ->
  exists feature cs,
    features !! Z.to_nat (SizeT.wrap indexFeature) = Some feature
    /\ TermBins features featureIndexes = Some cs
    /\ cBins = SizeT.wrap (m_countBins feature) :: cs.
Proof.
  unfold TermBins. intros H. apply mapM_Some in H.
  apply Forall2_cons_inv_l in H as (c & cs & Hc & Hcs & ->).
  unfold FeatureBins in Hc.
  destruct (features !! _) as [feature |]; [| discriminate].
  injection Hc as <-. exists feature, cs.
  split; [reflexivity | split; [now apply mapM_Some | reflexivity]].
Qed.

Lemma TermBins_length features featureIndexes cBins :
  TermBins features featureIndexes = Some cBins ->
  length cBins = length featureIndexes.
Proof.
  unfold TermBins. intros H. apply mapM_Some in H.
  symmetry. exact (Forall2_length _ _ _ H).
Qed.

Lemma TermBins_in_range features featureIndexes cBins :
  TermBins features featureIndexes = Some cBins -> Forall SizeT.in_range cBins.
Proof.
  revert cBins. induction featureIndexes as [| i l IH]; intros cBins H.
  - injection H as <-. constructor.
  - apply TermBins_cons in H as (f & cs & _ & H & ->).
    constructor; [apply wrap_in_range | now apply IH].
Qed.

(** An index at or beyond the number of bins of its feature, or a wrong
    number of indices, ends the loop in [exit(1)], whatever the arithmetic
    did before. *)
Lemma GetTermScoresLoop_exit features featureIndexes cBins perDim rest
  iDimension iVal multiple :
  TermBins features featureIndexes = Some cBins ->
  drop iDimension perDim = rest ->
  length rest = length featureIndexes ->
  ~ Forall2 (fun c b => 0 <= b < c) cBins rest ->
  Forall SizeT.in_range rest ->
  GetTermScoresLoop features featureIndexes perDim iDimension iVal multiple
  = Exit 1.
Proof.
  revert cBins rest iDimension iVal multiple.
  induction featureIndexes as [| i l IH];
    intros cBins rest iD iVal multiple Hbins Hdrop Hlen Hnot Hrange.
  - injection Hbins as <-. destruct rest; [| discriminate].
    exfalso. apply Hnot. constructor.
  - apply TermBins_cons in Hbins as (f & cs & Hf & Hcs & ->).
    destruct rest as [| b rest]; [discriminate |].
    apply Forall_cons in Hrange as [Hb Hrange].
    cbn [GetTermScoresLoop]. rewrite (At_lookup _ _ _ Hf). cbn.
    assert (Hb' : perDim !! iD = Some b).
    { rewrite <- (Nat.add_0_r iD), <- lookup_drop, Hdrop. reflexivity. }
    rewrite (At_lookup _ _ b) by now rewrite Nat2Z.id.
    cbn. destruct (Z.leb_spec (SizeT.wrap (m_countBins f)) b) as [| Hlt];
      [reflexivity |].
    apply (IH cs rest); try assumption.
    + replace (S iD) with (iD + 1)%nat by lia.
      rewrite <- drop_drop, Hdrop. reflexivity.
    + cbn in Hlen. lia.
    + intros H. apply Hnot. constructor; [| exact H].
      unfold SizeT.in_range in Hb. lia.
Qed.

(** Indices below the numbers of bins give the offset of the cell: the
    flat index of the kernel, counted in cells of [multiple] scores. *)
Lemma GetTermScoresLoop_offset features featureIndexes cBins perDim rest
  iDimension iVal multiple :
  TermBins features featureIndexes = Some cBins ->
  drop iDimension perDim = rest ->
  Forall2 (fun c b => 0 <= b < c) cBins rest ->
  0 <= iVal < multiple ->
  multiple * foldr Z.mul 1 cBins < SizeT.modulus ->
  GetTermScoresLoop features featureIndexes perDim iDimension iVal multiple
  = Done (iVal + multiple * BinInteraction.FlatIndex cBins rest).
Proof.
  revert cBins rest iDimension iVal multiple.
  induction featureIndexes as [| i l IH];
    intros cBins rest iD iVal multiple Hbins Hdrop Hall HiVal Hprod.
  - injection Hbins as <-. inversion Hall; subst. cbn. f_equal. lia.
  - apply TermBins_cons in Hbins as (f & cs & Hf & Hcs & ->).
    apply Forall2_cons_inv_l in Hall as (b & rest' & Hb & Hall' & E2).
    cbn [GetTermScoresLoop]. rewrite (At_lookup _ _ _ Hf). cbn.
    assert (Hb' : perDim !! iD = Some b).
    { rewrite <- (Nat.add_0_r iD), <- lookup_drop, Hdrop, E2. reflexivity. }
    rewrite E2 in Hdrop.
    rewrite (At_lookup _ _ b) by now rewrite Nat2Z.id.
    subst rest.
    cbn. destruct (Z.leb_spec (SizeT.wrap (m_countBins f)) b) as [| _];
      [exfalso; lia |].
    set (c := SizeT.wrap (m_countBins f)) in *.
    pose proof (FlatIndex_bounds _ _ Hall') as HF.
    cbn [foldr] in Hprod.
    assert (Hpos : 1 <= foldr Z.mul 1 cs) by lia.
    assert (Hc : c <= c * foldr Z.mul 1 cs) by nia.
    assert (Hmc : multiple * c <= multiple * (c * foldr Z.mul 1 cs))
      by (apply Z.mul_le_mono_nonneg_l; lia).
    assert (Hbm : (b + 1) * multiple <= c * multiple)
      by (apply Z.mul_le_mono_nonneg_r; lia).
    assert (0 <= b * multiple) by nia.
    unfold SizeT.add, SizeT.mul.
    rewrite (wrap_small (b * multiple)) by (unfold SizeT.in_range; lia).
    rewrite (wrap_small (iVal + b * multiple)) by (unfold SizeT.in_range; lia).
    rewrite (wrap_small (multiple * c)) by (unfold SizeT.in_range; nia).
    rewrite (IH cs rest' (S iD) _ _ Hcs).
    + f_equal. cbn [BinInteraction.FlatIndex]. lia.
    + replace (S iD) with (iD + 1)%nat by lia.
      rewrite <- drop_drop, Hdrop. reflexivity.
    + exact Hall'.
    + lia.
    + lia.
Qed.

Lemma GetCountScores_pos cClasses : 1 <= GetCountScores cClasses.
Proof. unfold GetCountScores. destruct (Z.leb_spec cClasses 2); lia. Qed.

Lemma GetTermScores_Done this iTerm featureIndexes cBins perDim :
  0 <= iTerm ->
  m_termFeatures this !! Z.to_nat iTerm = Some featureIndexes ->
  TermBins (m_features this) featureIndexes = Some cBins ->
  Forall2 (fun c b => 0 <= b < c) cBins perDim ->
  GetCountScores (m_cClasses this) * foldr Z.mul 1 cBins < SizeT.modulus ->
  GetTermScores this iTerm perDim
  = Done (GetCountScores (m_cClasses this)
          * BinInteraction.FlatIndex cBins perDim).
Proof.
  intros HiTerm Hterm Hbins Hall Hprod. unfold GetTermScores.
  pose proof (lookup_lt_Some _ _ _ Hterm) as Hlt.
  destruct (Z.leb_spec (Z.of_nat (length (m_termFeatures this))) iTerm); [lia |].
  rewrite (At_lookup _ _ _ Hterm). cbn.
  rewrite <- (TermBins_length _ _ _ Hbins), (Forall2_length _ _ _ Hall), Z.eqb_refl.
  cbn.
  rewrite (GetTermScoresLoop_offset _ _ cBins perDim perDim); try assumption;
    [f_equal | reflexivity |].
  pose proof (GetCountScores_pos (m_cClasses this)). lia.
Qed.

Lemma GetTermScores_Exit this iTerm featureIndexes cBins perDim :
  0 <= iTerm ->
  m_termFeatures this !! Z.to_nat iTerm = Some featureIndexes ->
  TermBins (m_features this) featureIndexes = Some cBins ->
  Forall SizeT.in_range perDim ->
  ~ Forall2 (fun c b => 0 <= b < c) cBins perDim ->
  GetTermScores this iTerm perDim = Exit 1.
Proof.
  intros HiTerm Hterm Hbins Hrange Hnot. unfold GetTermScores.
  destruct (Z.leb_spec (Z.of_nat (length (m_termFeatures this))) iTerm);
    [reflexivity |].
  rewrite (At_lookup _ _ _ Hterm). cbn.
  destruct (Z.eqb_spec (Z.of_nat (length perDim)) (Z.of_nat (length featureIndexes)))
    as [E |]; [| reflexivity].
  cbn. apply (GetTermScoresLoop_exit _ _ cBins perDim perDim); try assumption;
    [reflexivity | lia].
Qed.

Lemma CountTermScoresLoop_product features featureIndexes cBins multiple :
  TermBins features featureIndexes = Some cBins ->
  Forall (fun c => 0 < c) cBins ->
  0 <= multiple ->
  multiple * foldr Z.mul 1 cBins < SizeT.modulus ->
  CountTermScoresLoop features featureIndexes multiple
  = Done (multiple * foldr Z.mul 1 cBins).
Proof.
  revert cBins multiple.
  induction featureIndexes as [| i l IH]; intros cBins multiple Hbins Hpos Hm Hprod.
  - injection Hbins as <-. cbn. f_equal. lia.
  - apply TermBins_cons in Hbins as (f & cs & Hf & Hcs & ->).
    apply Forall_cons in Hpos as [Hc Hpos].
    cbn [CountTermScoresLoop]. rewrite (At_lookup _ _ _ Hf). cbn.
    cbn [foldr] in Hprod.
    set (c := SizeT.wrap (m_countBins f)) in *.
    assert (HP : 1 <= foldr Z.mul 1 cs).
    { clear -Hpos. induction Hpos; cbn; [lia | nia]. }
    assert (Hc' : c <= c * foldr Z.mul 1 cs) by nia.
    assert (Hmc : multiple * c <= multiple * (c * foldr Z.mul 1 cs))
      by (apply Z.mul_le_mono_nonneg_l; lia).
    assert (0 <= multiple * c) by nia.
    unfold SizeT.mul. rewrite wrap_small by (unfold SizeT.in_range; lia).
    rewrite (IH cs); [f_equal; lia | assumption | assumption | lia | lia].
Qed.

(** X10. [TestBoost::GetTermScores], for a term that exists and whose
    features exist, with [cBins] bins: when every index is below the number
    of bins of its feature, and [cScores] times the product of the numbers of
    bins fits a [size_t], the function returns the offset [cScores] times the
    flat index of the kernel, and a whole cell of [cScores] scores starting
    there lies inside a tensor of [cScores] times the product of the
    [cBins] scores; with any index out of range, or a wrong number of
    indices, it ends the process with [exit(1)]. *)
Theorem X10_term_scores_offset (this : TestBoost) (iTerm : Z)
  (featureIndexes cBins perDimensionIndexArrayForBinnedFeatures : list Z) :
  let cScores := GetCountScores (m_cClasses this) in
  0 <= iTerm ->
  m_termFeatures this !! Z.to_nat iTerm = Some featureIndexes ->
  TermBins (m_features this) featureIndexes = Some cBins ->
  Forall SizeT.in_range perDimensionIndexArrayForBinnedFeatures ->
  (Forall2 (fun cBin index => index < cBin) cBins
     perDimensionIndexArrayForBinnedFeatures ->
   cScores * foldr Z.mul 1 cBins < SizeT.modulus ->
   exists iVal,
     GetTermScores this iTerm perDimensionIndexArrayForBinnedFeatures = Done iVal
     /\ iVal = cScores * BinInteraction.FlatIndex cBins
                           perDimensionIndexArrayForBinnedFeatures
     /\ 0 <= iVal
     /\ iVal + cScores <= cScores * foldr Z.mul 1 cBins)
  /\ (~ Forall2 (fun cBin index => index < cBin) cBins
          perDimensionIndexArrayForBinnedFeatures ->
      GetTermScores this iTerm perDimensionIndexArrayForBinnedFeatures = Exit 1).
Proof.
  intros cScores HiTerm Hterm Hbins Hrange. split.
  - intros Hall Hprod.
    assert (Hall' : Forall2 (fun c b => 0 <= b < c) cBins
                      perDimensionIndexArrayForBinnedFeatures).
    { clear -Hall Hrange. induction Hall as [| c b cs bs Hb _ IH];
        [constructor |].
      apply Forall_cons in Hrange as [Hr Hrange].
      constructor; [unfold SizeT.in_range in Hr; lia | now apply IH]. }
    eexists. split; [now apply (GetTermScores_Done _ _ featureIndexes cBins) |].
    split; [reflexivity |].
    pose proof (FlatIndex_bounds _ _ Hall') as HF.
    pose proof (GetCountScores_pos (m_cClasses this)) as Hs. fold cScores in Hs.
    split; nia.
  - intros Hnot. apply (GetTermScores_Exit _ _ featureIndexes cBins);
      try assumption.
    intros Hall. apply Hnot. eapply Forall2_impl; [exact Hall |].
    cbn. intros; lia.
Qed.

(** X11. The cells [TestBoost::GetTermScores] returns for two different
    index vectors of one term never overlap: their offsets are at least
    [cScores] apart. *)
Theorem X11_term_scores_cells_disjoint (this : TestBoost) (iTerm : Z)
  (featureIndexes cBins indexes indexes' : list Z) (iVal iVal' : Z) :
  let cScores := GetCountScores (m_cClasses this) in
  0 <= iTerm ->
  m_termFeatures this !! Z.to_nat iTerm = Some featureIndexes ->
  TermBins (m_features this) featureIndexes = Some cBins ->
  Forall SizeT.in_range indexes ->
  Forall SizeT.in_range indexes' ->
  cScores * foldr Z.mul 1 cBins < SizeT.modulus ->
  GetTermScores this iTerm indexes = Done iVal ->
  GetTermScores this iTerm indexes' = Done iVal' ->
  indexes <> indexes' ->
  iVal + cScores <= iVal' \/ iVal' + cScores <= iVal.
Proof.
  intros cScores HiTerm Hterm Hbins Hr Hr' Hprod HD HD' Hne.
  destruct (decide (Forall2 (fun c b => 0 <= b < c) cBins indexes)) as [Hall |Hn];
    [| rewrite (GetTermScores_Exit _ _ featureIndexes cBins) in HD
         by assumption; discriminate].
  destruct (decide (Forall2 (fun c b => 0 <= b < c) cBins indexes')) as [Hall' |Hn];
    [| rewrite (GetTermScores_Exit _ _ featureIndexes cBins) in HD'
         by assumption; discriminate].
  rewrite (GetTermScores_Done _ _ featureIndexes cBins) in HD by assumption.
  rewrite (GetTermScores_Done _ _ featureIndexes cBins) in HD' by assumption.
  injection HD as <-. injection HD' as <-.
  pose proof (GetCountScores_pos (m_cClasses this)) as Hs. fold cScores in Hs.
  destruct (Z.lt_trichotomy (BinInteraction.FlatIndex cBins indexes)
              (BinInteraction.FlatIndex cBins indexes')) as [Hlt | [Heq | Hgt]].
  - left. nia.
  - exfalso. apply Hne. now apply (FlatIndex_injective cBins).
  - right. nia.
Qed.

Lemma GetTermScore_reads (this : TestBoost) (iTerm : Z)
  (featureIndexes cBins : list Z) (aTermScores : list float)
  (indexes : list Z) (iClassOrZero : Z) :
  let cScores := GetCountScores (m_cClasses this) in
  CheckZeroClassificationLogit (m_cClasses this) (m_iZeroClassificationLogit this)
  = Done tt ->
  0 <= iTerm ->
  m_termFeatures this !! Z.to_nat iTerm = Some featureIndexes ->
  TermBins (m_features this) featureIndexes = Some cBins ->
  cScores * foldr Z.mul 1 cBins < SizeT.modulus ->
  Z.of_nat (length aTermScores) = cScores * foldr Z.mul 1 cBins ->
  Forall SizeT.in_range indexes ->
  SizeT.in_range iClassOrZero ->
  GetTermScore false this iTerm aTermScores indexes iClassOrZero <> Undefined.
Proof.
  intros cScores Hcheck HiTerm Hterm Hbins Hprod Hlen Hr Hclass.
  unfold GetTermScore.
  destruct (decide (Forall2 (fun c b => 0 <= b < c) cBins indexes)) as [Hall |Hn];
    [| rewrite (GetTermScores_Exit _ _ featureIndexes cBins) by assumption;
       discriminate].
  rewrite (GetTermScores_Done _ _ featureIndexes cBins) by assumption.
  fold cScores. cbn [mbind Run_bind].
  pose proof (FlatIndex_bounds _ _ Hall) as HF.
  pose proof (GetCountScores_pos (m_cClasses this)) as Hs. fold cScores in Hs.
  set (iVal := cScores * BinInteraction.FlatIndex cBins indexes).
  assert (HiVal : 0 <= iVal /\ iVal + cScores <= Z.of_nat (length aTermScores))
    by (subst iVal; rewrite Hlen; split; nia).
  assert (Hread : forall k, 0 <= k < cScores ->
            exists a, At aTermScores (iVal + k) = Done a)
    by (intros k Hk; apply At_in_range; lia).
  unfold CheckZeroClassificationLogit in Hcheck.
  unfold IsClassification in *. unfold SizeT.in_range in Hclass.
  pose proof (wrap_in_range (m_cClasses this)) as Hw.
  unfold SizeT.in_range in Hw.
  assert (Hwle : 0 <= m_cClasses this -> SizeT.wrap (m_cClasses this) <= m_cClasses this).
  { intros H0. destruct (Z.lt_ge_cases (m_cClasses this) SizeT.modulus);
      [rewrite wrap_small by (unfold SizeT.in_range; lia); lia | lia]. }
  assert (Hc : cScores = 1 /\ m_cClasses this <= 2
               \/ cScores = m_cClasses this /\ 2 < m_cClasses this).
  { subst cScores iVal. unfold GetCountScores.
    destruct (Z.leb_spec (m_cClasses this) 2); [left | right]; lia. }
  destruct (Z.leb_spec 0 (m_cClasses this)) as [H0 | H0]; cbn [negb].
  - destruct (Z.leb_spec (m_cClasses this) (m_iZeroClassificationLogit this));
      [discriminate |].
    destruct (Z.leb_spec (SizeT.wrap (m_cClasses this)) iClassOrZero);
      [discriminate |].
    destruct Hc as [[Hc H2] | [Hc H2]].
    + destruct (Z.eqb_spec OutputType_BinaryClassification (m_cClasses this)).
      * destruct (_ <? 0); [destruct (0 =? _) | destruct (_ =? iClassOrZero)];
          try discriminate;
          destruct (Hread 0 ltac:(lia)) as [a ->]; discriminate.
      * unfold OutputType_BinaryClassification in *.
        destruct (Z.ltb_spec (m_iZeroClassificationLogit this) 0).
        -- destruct (Hread iClassOrZero ltac:(lia)) as [a ->]; discriminate.
        -- destruct (Hread iClassOrZero ltac:(lia)) as [a ->].
           destruct (Hread (m_iZeroClassificationLogit this) ltac:(lia))
             as [a' ->]. discriminate.
    + destruct (Z.eqb_spec OutputType_BinaryClassification (m_cClasses this));
        [unfold OutputType_BinaryClassification in *; lia |].
      destruct (Z.ltb_spec (m_iZeroClassificationLogit this) 0).
      * destruct (Hread iClassOrZero ltac:(lia)) as [a ->]; discriminate.
      * destruct (Hread iClassOrZero ltac:(lia)) as [a ->].
        destruct (Hread (m_iZeroClassificationLogit this) ltac:(lia))
          as [a' ->]. discriminate.
  - destruct (0 =? iClassOrZero); cbn [negb]; [| discriminate].
    destruct (Hread 0 ltac:(lia)) as [a ->]; discriminate.
Qed.

(** X12. [TestBoost::GetBestTermScore] and [TestBoost::GetCurrentTermScore]
    (compiled without [EXPAND_BINARY_LOGITS]) never index a vector outside
    its size: for an object the constructor accepts, a term whose features
    exist and have at least one bin each, a tensor whose size fits a
    [size_t] and a library call that stays within the buffer, every call
    either returns a score or ends in [exit(1)]. *)
Theorem X12_library_term_score_in_bounds (Error_None : Z)
  (LibraryTermScores : Z -> list float -> Z * list float)
  (this : TestBoost) (iTerm : Z) (featureIndexes cBins indexes : list Z)
  (iScore : Z) :
  (forall i buffer, length (LibraryTermScores i buffer).2 = length buffer) ->
  CheckZeroClassificationLogit (m_cClasses this) (m_iZeroClassificationLogit this)
  = Done tt ->
  0 <= iTerm ->
  m_termFeatures this !! Z.to_nat iTerm = Some featureIndexes ->
  TermBins (m_features this) featureIndexes = Some cBins ->
  Forall (fun cBin => 0 < cBin) cBins ->
  GetCountScores (m_cClasses this) * foldr Z.mul 1 cBins < SizeT.modulus ->
  Forall SizeT.in_range indexes ->
  SizeT.in_range iScore ->
  (exists score,
     GetLibraryTermScore Error_None LibraryTermScores false this iTerm indexes
       iScore = Done score)
  \/ GetLibraryTermScore Error_None LibraryTermScores false this iTerm indexes
       iScore = Exit 1.
Proof.
  intros Hlib Hcheck HiTerm Hterm Hbins Hpos Hprod Hr Hscore.
  pose proof (GetCountScores_pos (m_cClasses this)) as Hs.
  assert (HP : 1 <= foldr Z.mul 1 cBins).
  { clear -Hpos. induction Hpos; cbn; [lia | nia]. }
  unfold GetLibraryTermScore.
  pose proof (lookup_lt_Some _ _ _ Hterm) as Hlt.
  destruct (Z.leb_spec (Z.of_nat (length (m_termFeatures this))) iTerm); [lia |].
  rewrite (At_lookup _ _ _ Hterm). cbn [mbind Run_bind].
  rewrite (CountTermScoresLoop_product _ _ cBins) by (try assumption; lia).
  cbn [mbind Run_bind].
  set (multiple := GetCountScores (m_cClasses this) * foldr Z.mul 1 cBins) in *.
  assert (Hm : 1 <= multiple) by (subst multiple; nia).
  destruct (At_in_range (replicate (Z.to_nat multiple) 0%float) 0) as [z ->];
    [rewrite length_replicate; lia |].
  cbn [mbind Run_bind].
  specialize (Hlib iTerm (replicate (Z.to_nat multiple) 0%float)).
  destruct (LibraryTermScores iTerm _) as [error termScores].
  cbn in Hlib. rewrite length_replicate in Hlib.
  destruct (Error_None =? error); cbn [negb]; [| now right].
  pose proof (GetTermScore_reads this iTerm featureIndexes cBins termScores
                indexes iScore Hcheck HiTerm Hterm Hbins Hprod
                ltac:(fold multiple; lia) Hr Hscore) as Hok.
  destruct (GetTermScore false this iTerm termScores indexes iScore)
    as [score | code |] eqn:E; [left; now exists score | | congruence].
  right. f_equal.
  revert E. unfold GetTermScore.
  destruct (GetTermScores this iTerm indexes) as [aScores | c |] eqn:EG;
    cbn [mbind Run_bind].
  - unfold At.
    repeat match goal with
           | |- context [if ?b then _ else _] => destruct b
           | |- context [?v !! ?i] => destruct (v !! i); cbn [mbind Run_bind]
           end; congruence.
  - destruct (decide (Forall2 (fun c b => 0 <= b < c) cBins indexes)) as [Hall |Hn].
    + rewrite (GetTermScores_Done _ _ featureIndexes cBins) in EG by assumption.
      discriminate.
    + rewrite (GetTermScores_Exit _ _ featureIndexes cBins) in EG by assumption.
      congruence.
  - discriminate.
Qed.

End HarnessFacts.

(** ** libebm_test.cpp: the zeroed logit *)

Section ZeroedLogitFacts.
Import EbmInternal TestHarness.
#[local] Arguments SizeT.wrap : simpl never.

(** A finite double minus itself is the positive zero. *)
Lemma sub_self_double (x : float) :
  PrimFloat.is_nan x = false -> PrimFloat.is_infinity x = false ->
  (x - x)%float = 0%float.
Proof.
  intros Hn Hi. apply Prim2SF_inj. rewrite FloatAxioms.sub_spec.
  apply is_nan_Prim2SF in Hn.
  pose proof (fun s => is_infinity_Prim2SF x s Hi) as Hi'.
  destruct (Prim2SF x) as [s | s | | s m e].
  - destruct s; reflexivity.
  - now destruct (Hi' s).
  - now destruct Hn.
  - unfold SF64sub, SFsub. rewrite Z.min_id. unfold shl_align.
    rewrite Z.sub_diag. cbn [fst]. reflexivity.
Qed.

(** X17.  The zeroed logit reads as zero: for a classification with a
    zeroed class, and a tensor whose scores are neither NaN nor infinite,
    whenever [TestBoost::GetTermScore] returns the score of the zeroed class
    it returns [+0], with or without [EXPAND_BINARY_LOGITS], for two classes
    (the literal zero) and for more (the stored score minus itself). *)
Theorem X17_zeroed_logit_reads_zero (bExpandBinaryLogits : bool)
  (this : TestBoost) (iTerm : Z) (aTermScores : list float)
  (indexes : list Z) (score : float) :
  IsClassification (m_cClasses this) = true ->
  SizeT.in_range (m_iZeroClassificationLogit this) ->
  Forall (fun termScore => ApproxEqual.isnan termScore = false
                           /\ ApproxEqual.isinf termScore = false) aTermScores ->
  GetTermScore bExpandBinaryLogits this iTerm aTermScores indexes
    (m_iZeroClassificationLogit this) = Done score ->
  score = 0%float.
Proof.
  intros Hc Hz Hfin. unfold GetTermScore.
  destruct (GetTermScores this iTerm indexes) as [aScores | |];
    cbn [mbind Run_bind]; [| discriminate | discriminate].
  rewrite Hc. cbn [negb].
  destruct (SizeT.wrap (m_cClasses this) <=? m_iZeroClassificationLogit this);
    [discriminate |].
  rewrite (wrap_small (m_iZeroClassificationLogit this) Hz), Z.eqb_refl.
  unfold SizeT.in_range in Hz.
  destruct (Z.ltb_spec (m_iZeroClassificationLogit this) 0) as [| _]; [lia |].
  assert (Hmulti :
    (score0 ← At aTermScores (aScores + m_iZeroClassificationLogit this);
     reference ← At aTermScores (aScores + m_iZeroClassificationLogit this);
     Done (score0 - reference)%float) = Done score -> score = 0%float).
  { unfold At.
    destruct (aTermScores !! _) as [x |] eqn:Ex; cbn [mbind Run_bind];
      [| discriminate].
    intros [= <-].
    destruct (Forall_lookup_1 _ _ _ _ Hfin Ex) as [Hn Hi].
    now apply sub_self_double. }
  destruct (OutputType_BinaryClassification =? m_cClasses this);
    [destruct bExpandBinaryLogits; now intros [= <-] | exact Hmulti].
Qed.

End ZeroedLogitFacts.

(** ** libebm_test.cpp: what the constructor hands to the initializers *)

Section HarnessInitFacts.
Import EbmInternal InitGrad TestHarness.
#[local] Arguments SizeT.wrap : simpl never.

Lemma SubsetsWellFormed_room (pDataSet : DataSet float) :
  SubsetsWellFormed pDataSet -> (1 <= Capacity (m_aSubsets pDataSet))%nat.
Proof.
  intros (Hc1 & Hc & Hall). unfold Capacity.
  destruct (m_aSubsets pDataSet) as [| subset rest]; [cbn in Hc; lia |].
  apply Forall_cons in Hall as [(H1 & H2 & _) _].
  cbn. rewrite length_app. lia.
Qed.

Lemma InitializeBoosting_selected (aTargets : list float) (direction : Z)
  (aBag : option (list Z)) (aInitScores : option (list float))
  (pDataSet : DataSet float) :
  let selected :=
    RemainingSelected (direction <? 0) aBag 0 0 (Capacity (m_aSubsets pDataSet)) in
  direction = 1 \/ direction = -1 ->
  (aBag = None -> direction = 1) ->
  SubsetsWellFormed pDataSet ->
  SelectionReadable aTargets aInitScores selected ->
  length (Emitted aTargets aInitScores selected) = Capacity (m_aSubsets pDataSet) ->
  exists aSubsets',
    InitializeRmseGradientsAndHessiansBoosting aTargets direction aBag
      aInitScores pDataSet = Some aSubsets'
    /\ Flat aSubsets' = Emitted aTargets aInitScores selected.
Proof.
  intros selected Hdir Hnone Hwf Hread Hexact.
  unfold InitializeRmseGradientsAndHessiansBoosting.
  destruct Hwf as (Hc1 & Hc & Hall).
  destruct (lookup_lt_is_Some_2 (m_aSubsets pDataSet) 0) as [subset Hsub];
    [lia |].
  rewrite Hsub. cbn [mbind option_bind].
  pose proof (CursorInv_initial pDataSet subset (conj Hc1 (conj Hc Hall)) Hsub)
    as Hinv.
  unfold Capacity in *. fold (Flat (m_aSubsets pDataSet)) in *.
  destruct (OuterLoopBoosting_spec (m_aSubsets pDataSet)
              (0 + m_cSubsets pDataSet) direction aTargets aInitScores
              (length (Flat (m_aSubsets pDataSet))) aBag 0 0 0 _ 0 []
              Hdir Hnone (fun _ _ => eq_refl) Hinv)
    as (aSubsets' & Hrun & Hflat & _);
    rewrite ?Nat.sub_0_r; auto.
  exists aSubsets'. rewrite Nat.sub_0_r in Hflat.
  split; [exact Hrun | exact Hflat].
Qed.

(** What a pass takes from a run of samples that all count once with the
    same sign. *)
Lemma SelectedFrom_run (isLoopValidation : bool) (replication : Z) (n : nat)
  (bag : list Z) (iTarget iInit : nat) :
  replication = 1 \/ replication = -1 ->
  SelectedFrom isLoopValidation (replicate n replication ++ bag) iTarget iInit
  = (if Bool.eqb isLoopValidation (replication <? 0)
     then (fun d => (iTarget + d, iInit + d, 1))%nat <$> seq 0 n else [])
    ++ SelectedFrom isLoopValidation bag (iTarget + n) (iInit + n).
Proof.
  intros Hr. revert iTarget iInit.
  induction n as [| n IH]; intros iTarget iInit.
  - cbn. rewrite !Nat.add_0_r. now destruct (Bool.eqb _ _).
  - cbn [replicate app SelectedFrom].
    destruct (Z.eqb_spec replication 0) as [| _]; [lia |].
    rewrite IH. replace (S iTarget + n)%nat with (iTarget + S n)%nat by lia.
    replace (S iInit + n)%nat with (iInit + S n)%nat by lia.
    destruct (Bool.eqb _ _); [| reflexivity].
    cbn [seq fmap list_fmap app]. rewrite !Nat.add_0_r.
    replace (Z.abs_nat replication) with 1%nat by lia.
    f_equal. f_equal. rewrite <- fmap_S_seq, <- list_fmap_compose.
    apply list_fmap_ext. intros; cbn. repeat f_equal; lia.
Qed.

Lemma TestBoostBag_default (train validation : list TestSample) :
  Forall (fun sample => m_bBag sample = false) (train ++ validation) ->
  TestBoostBag train validation
  = replicate (length train) 1 ++ replicate (length validation) (-1) ++ [].
Proof.
  intros H. apply Forall_app in H as [Ht Hv]. unfold TestBoostBag.
  rewrite app_nil_r. f_equal.
  - induction Ht as [| s l Hs _ IH]; [reflexivity |]. cbn. now rewrite Hs, IH.
  - induction Hv as [| s l Hs _ IH]; [reflexivity |]. cbn. now rewrite Hs, IH.
Qed.

Lemma Emitted_run (aTargets : list float) (aInitScores : option (list float))
  (iTarget iInit n : nat) :
  Emitted aTargets aInitScores
    ((fun d => (iTarget + d, iInit + d, 1))%nat <$> seq 0 n)
  = (fun d => GradientAt aTargets aInitScores (iTarget + d) (iInit + d))
    <$> seq 0 n.
Proof.
  unfold Emitted. induction (seq 0 n) as [| d l IH]; [reflexivity |].
  cbn. f_equal. exact IH.
Qed.

Lemma fmap_seq_lookup {A B : Type} (f : nat -> B) (h : A -> B) (l : list A) :
  (forall d x, l !! d = Some x -> f d = h x) ->
  f <$> seq 0 (length l) = h <$> l.
Proof.
  intros H. apply list_eq. intros d. rewrite !list_lookup_fmap.
  destruct (l !! d) as [x |] eqn:E.
  - rewrite lookup_seq_lt by (now apply lookup_lt_Some in E). cbn.
    f_equal. now apply H.
  - rewrite lookup_seq_ge by (now apply lookup_ge_None in E). reflexivity.
Qed.

(** *** The init scores the constructor builds *)

Lemma LogitsLoop_binary (zero : Z) (sampleInitScores logits : list float)
  (iLogit : Z) (initScores : list float) :
  let skipped := if zero <? 0 then 0 else zero in
  0 <= skipped < Z.of_nat (length sampleInitScores) ->
  match LogitsLoop false OutputType_BinaryClassification zero sampleInitScores
          logits iLogit initScores with
  | Done initScores' =>
      Z.of_nat (length initScores')
      = Z.of_nat (length initScores) + Z.of_nat (length logits)
        - (if decide (iLogit <= skipped < iLogit + Z.of_nat (length logits))
           then 1 else 0)
  | Exit code => code = 1
  | Undefined => False
  end.
Proof.
  intros skipped Hs. revert iLogit initScores.
  induction logits as [| oneLogit logits IH]; intros iLogit initScores.
  - cbn. destruct (decide _); lia.
  - cbn [LogitsLoop]. destruct (ApproxEqual.isnan oneLogit); [reflexivity |].
    destruct (ApproxEqual.isinf oneLogit); [reflexivity |].
    rewrite Z.eqb_refl. subst skipped.
    destruct (At_in_range sampleInitScores 0) as [r0 Hr0];
      [destruct (zero <? 0); lia |].
    destruct (Z.ltb_spec zero 0) as [Hneg | Hpos].
    + destruct (Z.eqb_spec 0 iLogit) as [<- | Hne]; cbn [negb].
      * cbn [mbind Run_bind]. specialize (IH (0 + 1) initScores).
        destruct (LogitsLoop _ _ _ _ _ _ _); [| exact IH | exact IH].
        cbn [length]. repeat destruct (decide _); lia.
      * rewrite Hr0. cbn [mbind Run_bind].
        specialize (IH (iLogit + 1) (initScores ++ [(oneLogit - r0)%float])).
        destruct (LogitsLoop _ _ _ _ _ _ _); [| exact IH | exact IH].
        rewrite length_app in IH. cbn [length] in *.
        repeat destruct (decide _); lia.
    + destruct (At_in_range sampleInitScores zero) as [rz Hrz]; [lia |].
      destruct (Z.eqb_spec zero iLogit) as [<- | Hne]; cbn [negb].
      * cbn [mbind Run_bind]. specialize (IH (zero + 1) initScores).
        destruct (LogitsLoop _ _ _ _ _ _ _); [| exact IH | exact IH].
        cbn [length]. repeat destruct (decide _); lia.
      * rewrite Hrz. cbn [mbind Run_bind].
        specialize (IH (iLogit + 1) (initScores ++ [(oneLogit - rz)%float])).
        destruct (LogitsLoop _ _ _ _ _ _ _); [| exact IH | exact IH].
        rewrite length_app in IH. cbn [length] in *.
        repeat destruct (decide _); lia.
Qed.

Lemma LogitsLoop_multiclass (cClasses zero : Z)
  (sampleInitScores logits : list float) (iLogit : Z) (initScores : list float) :
  OutputType_BinaryClassification <> cClasses ->
  zero < Z.of_nat (length sampleInitScores) ->
  match LogitsLoop false cClasses zero sampleInitScores logits iLogit
          initScores with
  | Done initScores' =>
      length initScores' = (length initScores + length logits)%nat
  | Exit code => code = 1
  | Undefined => False
  end.
Proof.
  intros Hc Hz. revert iLogit initScores.
  induction logits as [| oneLogit logits IH]; intros iLogit initScores.
  - cbn. lia.
  - cbn [LogitsLoop]. destruct (ApproxEqual.isnan oneLogit); [reflexivity |].
    destruct (ApproxEqual.isinf oneLogit); [reflexivity |].
    destruct (Z.eqb_spec OutputType_BinaryClassification cClasses); [easy |].
    destruct (Z.ltb_spec zero 0) as [Hneg | Hpos]; cbn [mbind Run_bind].
    + specialize (IH (iLogit + 1) (initScores ++ [oneLogit])).
      destruct (LogitsLoop _ _ _ _ _ _ _); [| exact IH | exact IH].
      rewrite length_app in IH. cbn [length] in *. lia.
    + destruct (At_in_range sampleInitScores zero) as [rz ->]; [lia |].
      cbn [mbind Run_bind].
      specialize (IH (iLogit + 1) (initScores ++ [(oneLogit - rz)%float])).
      destruct (LogitsLoop _ _ _ _ _ _ _); [| exact IH | exact IH].
      rewrite length_app in IH. cbn [length] in *. lia.
Qed.

Lemma ClassificationScoresLoop_length (cClasses zero : Z)
  (samples : list TestSample) (initScores : list float) :
  1 <= cClasses < SizeT.modulus ->
  zero < cClasses ->
  match ClassificationScoresLoop false cClasses zero samples initScores with
  | Done initScores' =>
      Z.of_nat (length initScores')
      = Z.of_nat (length initScores)
        + Z.of_nat (length samples) * GetCountScores cClasses
  | Exit code => code = 1
  | Undefined => False
  end.
Proof.
  intros Hc Hz. revert initScores.
  induction samples as [| sample samples IH]; intros initScores; [cbn; lia |].
  cbn [ClassificationScoresLoop].
  assert (Hstep : match
            (if m_bScores sample
             then if negb (SizeT.wrap cClasses
                           =? Z.of_nat (length (m_initScores sample)))
                  then Exit 1
                  else LogitsLoop false cClasses zero (m_initScores sample)
                         (m_initScores sample) 0 initScores
             else Done (initScores
                        ++ replicate (Z.to_nat (GetCountScores cClasses)) 0%float))
          with
          | Done initScores' =>
              Z.of_nat (length initScores')
              = Z.of_nat (length initScores) + GetCountScores cClasses
          | Exit code => code = 1
          | Undefined => False
          end).
  { pose proof (GetCountScores_pos cClasses) as Hs.
    destruct (m_bScores sample).
    - rewrite wrap_small by (unfold SizeT.in_range; lia).
      destruct (Z.eqb_spec cClasses (Z.of_nat (length (m_initScores sample))))
        as [E |]; cbn [negb]; [| reflexivity].
      destruct (Z.eq_dec OutputType_BinaryClassification cClasses) as [<- | Hn].
      + pose proof (LogitsLoop_binary zero (m_initScores sample)
                      (m_initScores sample) 0 initScores) as H.
        unfold OutputType_BinaryClassification in *. cbn zeta in H.
        specialize (H ltac:(destruct (Z.ltb_spec zero 0); lia)).
        destruct (LogitsLoop _ _ _ _ _ _ _); [| exact H | exact H].
        rewrite H. unfold GetCountScores. cbn.
        destruct (decide _) as [| Hno]; [lia |].
        exfalso. apply Hno. destruct (Z.ltb_spec zero 0); lia.
      + pose proof (LogitsLoop_multiclass cClasses zero (m_initScores sample)
                      (m_initScores sample) 0 initScores Hn ltac:(lia)) as H.
        destruct (LogitsLoop _ _ _ _ _ _ _); [| exact H | exact H].
        rewrite H, Nat2Z.inj_add, <- E. f_equal.
        unfold GetCountScores, OutputType_BinaryClassification in *.
        destruct (Z.leb_spec cClasses 2); lia.
    - rewrite length_app, length_replicate. lia. }
  destruct (if m_bScores sample then _ else _) as [initScores' | code |];
    cbn [mbind Run_bind]; [| exact Hstep | exact Hstep].
  specialize (IH initScores').
  destruct (ClassificationScoresLoop _ _ _ _ _); [| exact IH | exact IH].
  cbn [length]. lia.
Qed.

(** The first init score of a sample, the one a regression uses. *)
Lemma RegressionScoresLoop_scores (samples : list TestSample)
  (initScores : list float) :
  match RegressionScoresLoop samples initScores with
  | Done initScores' =>
      initScores'
      = initScores ++ ((fun sample => default 0%float (m_initScores sample !! 0%nat))
                       <$> samples)
  | Exit code => code = 1
  | Undefined => True
  end.
Proof.
  revert initScores.
  induction samples as [| sample samples IH]; intros initScores.
  - cbn. now rewrite app_nil_r.
  - cbn [RegressionScoresLoop]. unfold At. change (Z.to_nat 0) with 0%nat.
    destruct (m_initScores sample !! 0%nat) as [score |] eqn:E;
      cbn [mbind Run_bind default]; [| exact I].
    destruct (ApproxEqual.isnan score); [reflexivity |].
    destruct (ApproxEqual.isinf score); [reflexivity |].
    specialize (IH (initScores ++ [score])).
    destruct (RegressionScoresLoop _ _); [| exact IH | exact IH].
    rewrite IH, <- app_assoc. cbn [fmap list_fmap]. rewrite E. reflexivity.
Qed.

Lemma HasInitScores_false (samples : list TestSample) :
  HasInitScores samples = false ->
  Forall (fun sample => m_bScores sample = false) samples.
Proof.
  unfold HasInitScores.
  assert (H : forall b, foldl (fun b sample => b || m_bScores sample) b samples
                        = false ->
                        b = false
                        /\ Forall (fun sample => m_bScores sample = false) samples).
  { induction samples as [| s l IH]; intros b Hb; cbn in *; [auto |].
    destruct (IH _ Hb) as [Hor Hl]. apply orb_false_iff in Hor as [-> Hs].
    auto. }
  intros Hf. now destruct (H _ Hf).
Qed.

(** X14.  The init scores the constructor of [TestBoost] builds (compiled
    without [EXPAND_BINARY_LOGITS]), for a class count other than zero and a
    zeroed logit the constructor accepts: when it passes an array, the array
    holds exactly [cScores] scores for every sample, training and
    validation; it passes a null pointer only when no sample has init
    scores; and for a classification it never indexes a vector outside its
    size. *)
Theorem X14_init_scores_length (cClasses zero : Z)
  (train validation : list TestSample) :
  CheckZeroClassificationLogit cClasses zero = Done tt ->
  cClasses <> 0 ->
  cClasses < SizeT.modulus ->
  (forall initScores,
     TestBoostInitScores false cClasses zero train validation
     = Done (Some initScores) ->
     Z.of_nat (length initScores)
     = (Z.of_nat (length train) + Z.of_nat (length validation))
       * GetCountScores cClasses)
  /\ (TestBoostInitScores false cClasses zero train validation = Done None ->
      Forall (fun sample => m_bScores sample = false) (train ++ validation))
  /\ (IsClassification cClasses = true ->
      TestBoostInitScores false cClasses zero train validation <> Undefined).
Proof.
  intros Hcheck H0 Hmod.
  pose proof (GetCountScores_pos cClasses) as Hs.
  unfold TestBoostInitScores.
  destruct (HasInitScores (train ++ validation)) eqn:Hhas;
    [| split; [discriminate |];
       split; [intros _; now apply HasInitScores_false | discriminate]].
  assert (Hlen : (0 < length train + length validation)%nat).
  { rewrite <- length_app.
    destruct (train ++ validation); [discriminate | cbn; lia]. }
  unfold CheckZeroClassificationLogit in Hcheck.
  destruct (IsClassification cClasses) eqn:Hc.
  - unfold IsClassification in Hc. apply Z.leb_le in Hc.
    destruct (Z.leb_spec cClasses zero); [discriminate |].
    pose proof (ClassificationScoresLoop_length cClasses zero train []
                  ltac:(lia) ltac:(lia)) as H1.
    destruct (ClassificationScoresLoop false cClasses zero train [])
      as [s1 | c1 |]; cbn [mbind Run_bind];
      [| split; [discriminate |]; split; discriminate | destruct H1].
    pose proof (ClassificationScoresLoop_length cClasses zero validation s1
                  ltac:(lia) ltac:(lia)) as H2.
    destruct (ClassificationScoresLoop false cClasses zero validation s1)
      as [s2 | c2 |]; cbn [mbind Run_bind];
      [| split; [discriminate |]; split; discriminate | destruct H2].
    cbn [length] in H1.
    destruct (At_in_range s2 0) as [a ->]; [nia |].
    cbn [mbind Run_bind].
    split; [intros ? [= <-]; lia |]. split; discriminate.
  - assert (Hcs : GetCountScores cClasses = 1).
    { unfold GetCountScores. unfold IsClassification in Hc.
      apply Z.leb_gt in Hc. destruct (Z.leb_spec cClasses 2); lia. }
    pose proof (RegressionScoresLoop_scores train []) as H1.
    destruct (RegressionScoresLoop train []) as [s1 | c1 |];
      cbn [mbind Run_bind];
      [| split; [discriminate |]; split; discriminate
       | split; [discriminate |]; split; discriminate].
    pose proof (RegressionScoresLoop_scores validation s1) as H2.
    destruct (RegressionScoresLoop validation s1) as [s2 | c2 |];
      cbn [mbind Run_bind];
      [| split; [discriminate |]; split; discriminate
       | split; [discriminate |]; split; discriminate].
    assert (Hl : length s2 = (length train + length validation)%nat)
      by (rewrite H2, H1; cbn; now rewrite length_app, !length_fmap).
    destruct (At_in_range s2 0) as [a ->]; [lia |].
    cbn [mbind Run_bind].
    split; [intros ? [= <-]; lia |]. split; discriminate.
Qed.

Lemma TestBoostInitScores_regression (bExpandBinaryLogits : bool)
  (cClasses zero : Z) (train validation : list TestSample)
  (aInitScores : option (list float)) :
  IsClassification cClasses = false ->
  TestBoostInitScores bExpandBinaryLogits cClasses zero train validation
  = Done aInitScores ->
  forall scores, aInitScores = Some scores ->
    scores = (fun sample => default 0%float (m_initScores sample !! 0%nat))
             <$> (train ++ validation).
Proof.
  intros Hc. unfold TestBoostInitScores. rewrite Hc.
  destruct (HasInitScores (train ++ validation)); [| now intros [= <-]].
  pose proof (RegressionScoresLoop_scores train []) as H1.
  destruct (RegressionScoresLoop train []) as [s1 | |]; cbn [mbind Run_bind];
    [| discriminate | discriminate].
  pose proof (RegressionScoresLoop_scores validation s1) as H2.
  destruct (RegressionScoresLoop validation s1) as [s2 | |];
    cbn [mbind Run_bind]; [| discriminate | discriminate].
  destruct (At s2 0); cbn [mbind Run_bind]; [| discriminate | discriminate].
  intros [= <-] scores [= <-]. rewrite H2, H1, fmap_app. reflexivity.
Qed.

(** The gradients of a run of [n] samples that count once, from sample
    [first] on, when targets and init scores come sample by sample from
    [samples]. *)
Lemma Emitted_samples (samples run : list TestSample) (first : nat)
  (aInitScores : option (list float)) :
  (forall d sample, run !! d = Some sample ->
                    samples !! (first + d)%nat = Some sample) ->
  (forall scores, aInitScores = Some scores ->
     scores = (fun sample => default 0%float (m_initScores sample !! 0%nat))
              <$> samples) ->
  Emitted (m_target <$> samples) aInitScores
    ((fun d => (first + d, first + d, 1))%nat <$> seq 0 (length run))
  = (fun sample =>
       ((match aInitScores with
         | Some _ => default 0%float (m_initScores sample !! 0%nat)
         | None => 0%float
         end) - m_target sample)%float) <$> run.
Proof.
  intros Hrun Hscores. rewrite Emitted_run. apply fmap_seq_lookup.
  intros d sample Hd. specialize (Hrun d sample Hd).
  unfold GradientAt, ComputeGradientRegressionRmseInit, InitScoreAt.
  rewrite list_lookup_fmap, Hrun. cbn.
  destruct aInitScores as [scores |]; [| reflexivity].
  rewrite (Hscores scores eq_refl), list_lookup_fmap, Hrun. reflexivity.
Qed.

(** X13.  The bag, the targets and the init scores the constructor of
    [TestBoost] builds for a regression, fed to the boosting initializer:
    when no sample brings a bag count of its own, the training pass
    (direction +1) fills a training set that has one slot for every training
    sample with [initScore - target] of the training samples, in order, and
    the validation pass (direction -1) fills a validation set with those of
    the validation samples.  [initScore] is the first init score of the
    sample, or zero when no sample has init scores. *)
Theorem X13_default_bag_regression (bExpandBinaryLogits : bool)
  (cClasses zero : Z) (train validation : list TestSample)
  (aInitScores : option (list float)) (pTraining pValidation : DataSet float) :
  let aTargets := RegressionTargets train validation in
  let aBag := AddressOrNull (TestBoostBag train validation) in
  let gradient := fun sample =>
    ((match aInitScores with
      | Some _ => default 0%float (m_initScores sample !! 0%nat)
      | None => 0%float
      end) - m_target sample)%float in
  IsClassification cClasses = false ->
  Forall (fun sample => m_bBag sample = false) (train ++ validation) ->
  TestBoostInitScores bExpandBinaryLogits cClasses zero train validation
  = Done aInitScores ->
  SubsetsWellFormed pTraining ->
  Capacity (m_aSubsets pTraining) = length train ->
  SubsetsWellFormed pValidation ->
  Capacity (m_aSubsets pValidation) = length validation ->
  (exists aSubsets',
     InitializeRmseGradientsAndHessiansBoosting aTargets 1 aBag aInitScores
       pTraining = Some aSubsets'
     /\ Flat aSubsets' = gradient <$> train)
  /\ (exists aSubsets',
        InitializeRmseGradientsAndHessiansBoosting aTargets (-1) aBag aInitScores
          pValidation = Some aSubsets'
        /\ Flat aSubsets' = gradient <$> validation).
Proof.
  intros aTargets aBag gradient Hc Hbag Hinit HwfT HcapT HwfV HcapV.
  assert (HlenB : length (TestBoostBag train validation)
                  = (length train + length validation)%nat)
    by (unfold TestBoostBag; now rewrite length_app, !length_fmap).
  assert (HcT : (1 <= Capacity (m_aSubsets pTraining))%nat)
    by (apply SubsetsWellFormed_room, HwfT).
  assert (HcV : (1 <= Capacity (m_aSubsets pValidation))%nat)
    by (apply SubsetsWellFormed_room, HwfV).
  assert (HaB : aBag = Some (TestBoostBag train validation)).
  { unfold aBag, AddressOrNull. rewrite HlenB.
    destruct (Z.eqb_spec 0 (Z.of_nat (length train + length validation)));
      [lia | reflexivity]. }
  rewrite HaB. clear HaB. clear aBag.
  set (aBag := Some (TestBoostBag train validation)).
  pose proof (TestBoostInitScores_regression _ _ _ _ _ _ Hc Hinit) as Hscores.
  assert (HaT : aTargets = m_target <$> (train ++ validation))
    by (unfold aTargets, RegressionTargets; now rewrite fmap_app).
  assert (Hsel : forall isLoopValidation,
            SelectedFrom isLoopValidation (TestBoostBag train validation) 0 0
            = (if isLoopValidation then []
               else (fun d => (0 + d, 0 + d, 1))%nat <$> seq 0 (length train))
              ++ (if isLoopValidation
                  then (fun d => (length train + d, length train + d, 1))%nat
                       <$> seq 0 (length validation)
                  else [])).
  { intros v. rewrite (TestBoostBag_default _ _ Hbag).
    rewrite (SelectedFrom_run v 1) by lia.
    rewrite (SelectedFrom_run v (-1)) by lia.
    cbn [SelectedFrom]. rewrite app_nil_r. now destruct v. }
  assert (Hread : forall (run : list TestSample) (first : nat),
            (first + length run <= length (train ++ validation))%nat ->
            SelectionReadable aTargets aInitScores
              ((fun d => (first + d, first + d, 1))%nat <$> seq 0 (length run))).
  { intros run first Hle. unfold SelectionReadable.
    apply Forall_fmap, Forall_seq. intros d Hd. cbn.
    split; [rewrite HaT, length_fmap; lia |].
    intros scores Hs. rewrite (Hscores scores Hs), length_fmap. lia. }
  split.
  - destruct (InitializeBoosting_selected aTargets 1 aBag aInitScores pTraining)
      as (aSubsets' & Hrun & Hflat); try assumption;
      [now left | discriminate | | |].
    + cbn [RemainingSelected aBag Z.ltb Z.compare]. rewrite (Hsel false), app_nil_r.
      apply (Hread train 0%nat). rewrite length_app. lia.
    + cbn [RemainingSelected aBag Z.ltb Z.compare]. rewrite (Hsel false), app_nil_r.
      rewrite HaT, (Emitted_samples _ train 0 aInitScores), length_fmap;
        [now rewrite HcapT | | exact Hscores].
      intros d sample Hd. now apply lookup_app_l_Some.
    + exists aSubsets'. split; [exact Hrun |]. rewrite Hflat.
      cbn [RemainingSelected aBag Z.ltb Z.compare]. rewrite (Hsel false), app_nil_r.
      rewrite HaT. apply (Emitted_samples _ train 0 aInitScores);
        [| exact Hscores].
      intros d sample Hd. now apply lookup_app_l_Some.
  - assert (Hval : forall d sample, validation !! d = Some sample ->
              (train ++ validation) !! (length train + d)%nat = Some sample).
    { intros d sample Hd. rewrite lookup_app_r by lia.
      now replace (length train + d - length train)%nat with d by lia. }
    destruct (InitializeBoosting_selected aTargets (-1) aBag aInitScores
                pValidation)
      as (aSubsets' & Hrun & Hflat); try assumption;
      [now right | discriminate | | |].
    + cbn [RemainingSelected aBag Z.ltb Z.compare]. rewrite (Hsel true).
      cbn [app]. apply (Hread validation (length train)).
      rewrite length_app. lia.
    + cbn [RemainingSelected aBag Z.ltb Z.compare]. rewrite (Hsel true).
      cbn [app].
      rewrite HaT, (Emitted_samples _ validation _ aInitScores Hval Hscores),
        length_fmap.
      now rewrite HcapV.
    + exists aSubsets'. split; [exact Hrun |]. rewrite Hflat.
      cbn [RemainingSelected aBag Z.ltb Z.compare]. rewrite (Hsel true).
      cbn [app]. rewrite HaT.
      apply (Emitted_samples _ validation _ aInitScores Hval Hscores).
Qed.

(** *** The interaction detector *)

Lemma TestInteractionInitScores_regression (bExpandBinaryLogits : bool)
  (cClasses zero : Z) (samples : list TestSample)
  (aInitScores : option (list float)) :
  IsClassification cClasses = false ->
  TestInteractionInitScores bExpandBinaryLogits cClasses zero samples
  = Done aInitScores ->
  forall scores, aInitScores = Some scores ->
    scores = (fun sample => default 0%float (m_initScores sample !! 0%nat))
             <$> samples.
Proof.
  intros Hc. unfold TestInteractionInitScores. rewrite Hc.
  destruct (HasInitScores samples); cbn [mbind Run_bind];
    [| intros [= <-]; discriminate].
  pose proof (RegressionScoresLoop_scores samples []) as H1.
  destruct (RegressionScoresLoop samples []) as [s1 | |]; cbn [mbind Run_bind];
    [| discriminate | discriminate].
  unfold AddressOrNull. intros [= <-] scores.
  destruct (Z.of_nat (length s1)); [intros E; discriminate E | |];
    intros [= <-]; exact H1.
Qed.

(** The gradients of a run of samples that all count a positive number of
    times: every sample is taken, with as many copies as it counts. *)
Lemma Emitted_counts (samples run : list TestSample) (first : nat)
  (aInitScores : option (list float)) :
  let count := fun sample => if m_bBag sample then m_bagCount sample else 1 in
  (forall d sample, run !! d = Some sample ->
                    samples !! (first + d)%nat = Some sample) ->
  (forall scores, aInitScores = Some scores ->
     scores = (fun sample => default 0%float (m_initScores sample !! 0%nat))
              <$> samples) ->
  Forall (fun sample => 0 < count sample) run ->
  SelectionReadable (m_target <$> samples) aInitScores
    (SelectedFrom false (count <$> run) first first)
  /\ Emitted (m_target <$> samples) aInitScores
       (SelectedFrom false (count <$> run) first first)
     = run ≫= fun sample =>
         replicate (Z.to_nat (count sample))
           ((match aInitScores with
             | Some _ => default 0%float (m_initScores sample !! 0%nat)
             | None => 0%float
             end) - m_target sample)%float.
Proof.
  intros count Hrun Hscores. revert first Hrun.
  induction run as [| sample run IH]; intros first Hrun Hpos.
  - split; [constructor | reflexivity].
  - apply Forall_cons in Hpos as [Hs Hpos].
    pose proof (Hrun 0%nat sample eq_refl) as H0. rewrite Nat.add_0_r in H0.
    destruct (IH (S first)) as [IHr IHe]; [| exact Hpos |].
    { intros d s Hd. replace (S first + d)%nat with (first + S d)%nat by lia.
      now apply Hrun. }
    cbn [fmap list_fmap SelectedFrom].
    destruct (Z.eqb_spec (count sample) 0) as [| _]; [lia |].
    destruct (Z.ltb_spec (count sample) 0) as [| _]; [lia |].
    cbn [Bool.eqb]. split.
    + apply Forall_cons. split; [| exact IHr].
      split; [rewrite length_fmap; now apply lookup_lt_Some in H0 |].
      intros scores Hsc. rewrite (Hscores scores Hsc), length_fmap.
      now apply lookup_lt_Some in H0.
    + rewrite Emitted_cons, IHe. cbn [mbind list_bind]. f_equal.
      replace (Z.abs_nat (count sample)) with (Z.to_nat (count sample)) by lia.
      f_equal.
      unfold GradientAt, ComputeGradientRegressionRmseInit, InitScoreAt.
      rewrite list_lookup_fmap, H0. cbn.
      destruct aInitScores as [scores |]; [| reflexivity].
      rewrite (Hscores scores eq_refl), list_lookup_fmap, H0. reflexivity.
Qed.

(** X18.  The bag, the targets and the init scores the constructor of
    [TestInteraction] builds for a regression, fed to the interaction
    initializer: when every sample counts a positive number of times (its
    own bag count, or once) and the data set carries no weights, the
    initializer fills the data set with [initScore - target] of every
    sample, in order, each as many times as the sample counts.
    [initScore] is the first init score of the sample, or zero when no
    sample has init scores. *)
Theorem X18_interaction_bag_regression (bExpandBinaryLogits : bool)
  (cClasses zero : Z) (samples : list TestSample)
  (aInitScores : option (list float)) (pDataSet : DataSet float) :
  let count := fun sample => if m_bBag sample then m_bagCount sample else 1 in
  let aTargets := InteractionRegressionTargets samples in
  let aBag := AddressOrNull (TestInteractionBag samples) in
  let gradient := fun sample =>
    ((match aInitScores with
      | Some _ => default 0%float (m_initScores sample !! 0%nat)
      | None => 0%float
      end) - m_target sample)%float in
  let filled :=
    samples ≫= fun sample => replicate (Z.to_nat (count sample)) (gradient sample) in
  IsClassification cClasses = false ->
  Forall (fun sample => 0 < count sample) samples ->
  TestInteractionInitScores bExpandBinaryLogits cClasses zero samples
  = Done aInitScores ->
  SubsetsWellFormed pDataSet ->
  NoWeights (m_aSubsets pDataSet) ->
  Capacity (m_aSubsets pDataSet) = length filled ->
  exists aSubsets',
    InitializeRmseGradientsAndHessiansInteraction aTargets aBag aInitScores
      pDataSet = Some aSubsets'
    /\ Flat aSubsets' = filled.
Proof.
  intros count aTargets aBag gradient filled Hc Hpos Hinit Hwf Hnw Hcap.
  pose proof (TestInteractionInitScores_regression _ _ _ _ _ Hc Hinit) as Hscores.
  pose proof (SubsetsWellFormed_room _ Hwf) as Hroom.
  assert (HaB : aBag = Some (TestInteractionBag samples)).
  { unfold aBag, AddressOrNull, TestInteractionBag. rewrite length_fmap.
    destruct samples; [cbn in *; lia | reflexivity]. }
  rewrite HaB. clear HaB. clear aBag.
  destruct (Emitted_counts samples samples 0 aInitScores)
    as [Hread Hemit]; [now intros d s Hd | exact Hscores | exact Hpos |].
  assert (Hrun : InitializeRmseGradientsAndHessiansInteraction aTargets
                   (Some (TestInteractionBag samples)) aInitScores pDataSet
                 = InitializeRmseGradientsAndHessiansBoosting aTargets 1
                     (Some (TestInteractionBag samples)) aInitScores pDataSet).
  { unfold InitializeRmseGradientsAndHessiansInteraction,
      InitializeRmseGradientsAndHessiansBoosting.
    destruct (m_aSubsets pDataSet !! 0%nat) as [subset |] eqn:Hsub;
      [| reflexivity].
    cbn [mbind option_bind].
    rewrite (Forall_lookup_1 _ _ _ _ Hnw Hsub).
    cbn [fmap option_fmap option_map].
    now apply OuterLoopInteraction_no_weights. }
  rewrite Hrun.
  destruct (InitializeBoosting_selected aTargets 1
              (Some (TestInteractionBag samples)) aInitScores pDataSet)
    as (aSubsets' & Hgo & Hflat).
  - now left.
  - discriminate.
  - exact Hwf.
  - exact Hread.
  - rewrite Hcap. exact (f_equal length Hemit).
  - exists aSubsets'. split; [exact Hgo |]. rewrite Hflat. exact Hemit.
Qed.

End HarnessInitFacts.

(** ** The harness on literal data *)

Section HarnessScenarioFacts.
Import EbmInternal InitGrad InitScenarios TestHarness HarnessScenarios.

Ltac literal_Forall2 :=
  repeat (apply List.Forall2_cons; [cbn; lia |]); apply List.Forall2_nil.

Ltac literal_range :=
  repeat (apply List.Forall_cons;
          [unfold SizeT.in_range, SizeT.modulus; lia |]);
  apply List.Forall_nil.

Lemma X10_term_scores_offset_witness :
  GetTermScores ThreeClassBooster 1 [1; 2] = Done 15
  /\ GetTermScores ThreeClassBooster 1 [1; 3] = Exit 1.
Proof.
  split.
  - destruct (X10_term_scores_offset ThreeClassBooster 1 [0; 1] [2; 3] [1; 2])
      as [H _]; [lia | reflexivity | reflexivity | literal_range |].
    destruct H as (iVal & Hrun & Hval & _);
      [literal_Forall2 | reflexivity |].
    rewrite Hrun, Hval. reflexivity.
  - destruct (X10_term_scores_offset ThreeClassBooster 1 [0; 1] [2; 3] [1; 3])
      as [_ H]; [lia | reflexivity | reflexivity | literal_range |].
    apply H. intros Hall.
    apply Forall2_cons_1 in Hall as [_ Hall].
    apply Forall2_cons_1 in Hall as [Hlt _]. lia.
Defined.

Lemma X11_term_scores_cells_disjoint_witness :
  15 + GetCountScores 3 <= 12 \/ 12 + GetCountScores 3 <= 15.
Proof.
  apply (X11_term_scores_cells_disjoint ThreeClassBooster 1 [0; 1] [2; 3]
           [1; 2] [0; 2] 15 12);
    [lia | reflexivity | reflexivity | literal_range | literal_range
    | reflexivity | reflexivity | reflexivity | discriminate].
Defined.

Lemma X12_library_term_score_in_bounds_witness :
  (exists score,
     GetLibraryTermScore 0 IdleLibrary false ThreeClassBooster 1 [1; 2] 2
     = Done score)
  \/ GetLibraryTermScore 0 IdleLibrary false ThreeClassBooster 1 [1; 2] 2 = Exit 1.
Proof.
  apply (X12_library_term_score_in_bounds 0 IdleLibrary ThreeClassBooster 1
           [0; 1] [2; 3] [1; 2] 2);
    [reflexivity | reflexivity | lia | reflexivity | reflexivity
    | repeat (apply List.Forall_cons; [lia |]); apply List.Forall_nil
    | reflexivity | literal_range | unfold SizeT.in_range, SizeT.modulus; lia].
Defined.

Lemma X13_default_bag_regression_witness :
  (exists aSubsets',
     InitializeRmseGradientsAndHessiansBoosting
       (RegressionTargets Train Validation) 1
       (AddressOrNull (TestBoostBag Train Validation)) (Some [1; 2; 4]%float)
       TwoSlots = Some aSubsets'
     /\ Flat aSubsets' = [-9; -18]%float)
  /\ (exists aSubsets',
        InitializeRmseGradientsAndHessiansBoosting
          (RegressionTargets Train Validation) (-1)
          (AddressOrNull (TestBoostBag Train Validation)) (Some [1; 2; 4]%float)
          OneSlot = Some aSubsets'
        /\ Flat aSubsets' = [-26]%float).
Proof.
  destruct (X13_default_bag_regression false k_regression (-1) Train Validation
              (Some [1; 2; 4]%float) TwoSlots OneSlot)
    as [(aT & HrT & HfT) (aV & HrV & HfV)].
  - reflexivity.
  - repeat (apply List.Forall_cons; [reflexivity |]); apply List.Forall_nil.
  - reflexivity.
  - split; [cbn; lia | split; [reflexivity |]]; cbn.
    apply List.Forall_cons; [| apply List.Forall_nil].
    cbn. split; [lia | split; [reflexivity | discriminate]].
  - reflexivity.
  - split; [cbn; lia | split; [reflexivity |]]; cbn.
    apply List.Forall_cons; [| apply List.Forall_nil].
    cbn. split; [lia | split; [reflexivity | discriminate]].
  - reflexivity.
  - split.
    + exists aT. split; [exact HrT |]. rewrite HfT. reflexivity.
    + exists aV. split; [exact HrV |]. rewrite HfV. reflexivity.
Defined.

Lemma X14_init_scores_length_witness :
  TestBoostInitScores false 3 1 ClassTrain ClassValidation
  = Done (Some [-1; 0; 2; 0; 0; 0]%float)
  /\ Z.of_nat (length [-1; 0; 2; 0; 0; 0]%float) = (1 + 1) * 3.
Proof.
  split; [reflexivity |].
  destruct (X14_init_scores_length 3 1 ClassTrain ClassValidation)
    as [H _]; [reflexivity | lia | reflexivity |].
  apply (H [-1; 0; 2; 0; 0; 0]%float). reflexivity.
Defined.

Lemma X17_zeroed_logit_reads_zero_witness :
  GetTermScore false ThreeClassBooster 1 TermScores [1; 2] 0 = Done (-2)%float
  /\ exists score,
       GetTermScore false ThreeClassBooster 1 TermScores [1; 2] 1 = Done score
       /\ score = 0%float.
Proof.
  split; [reflexivity |].
  eexists. split; [reflexivity |].
  apply (X17_zeroed_logit_reads_zero false ThreeClassBooster 1 TermScores [1; 2]).
  - reflexivity.
  - unfold SizeT.in_range, SizeT.modulus. cbn. lia.
  - unfold TermScores. cbn [replicate app].
    repeat (apply List.Forall_cons; [split; reflexivity |]).
    apply List.Forall_nil.
  - reflexivity.
Defined.

Lemma X18_interaction_bag_regression_witness :
  exists aSubsets',
    InitializeRmseGradientsAndHessiansInteraction
      (InteractionRegressionTargets InteractionSamples)
      (AddressOrNull (TestInteractionBag InteractionSamples))
      (Some [1; 2]%float) ThreeSlots = Some aSubsets'
    /\ Flat aSubsets' = [-9; -18; -18]%float.
Proof.
  destruct (X18_interaction_bag_regression false k_regression (-1)
              InteractionSamples (Some [1; 2]%float) ThreeSlots)
    as (aSubsets' & Hrun & Hflat).
  - reflexivity.
  - repeat (apply List.Forall_cons; [cbn; lia |]); apply List.Forall_nil.
  - reflexivity.
  - split; [cbn; lia | split; [reflexivity |]]; cbn.
    repeat (apply List.Forall_cons;
            [cbn; split; [lia | split; [reflexivity | discriminate]] |]).
    apply List.Forall_nil.
  - unfold NoWeights. cbn.
    repeat (apply List.Forall_cons; [reflexivity |]). apply List.Forall_nil.
  - reflexivity.
  - exists aSubsets'. split; [exact Hrun |]. rewrite Hflat. reflexivity.
Defined.

End HarnessScenarioFacts.
